(** * Blender automation: prompt classifier and static code validator

    A shallow embedding of [src/src/code_validator.py] and
    [src/src/prompt_processor.py], with the properties their
    specification states about them.

    Python [str] values are modelled by [string]; a character of type
    [ascii] stands for the code point of the same number (U+0000 to
    U+00FF).  Python [int] values that count things are [nat], Python
    [float] values are the kernel's binary64 [float].  Calls to the
    logger do not change what the functions return and are left out. *)

From Stdlib Require Import Bool Arith List Sorted Ascii String DecimalString Lia.
From Stdlib Require Import ZArith Uint63 Floats.
Import ListNotations.

(* Decimal float literals are read as Python reads them: the nearest binary64. *)
Set Warnings "-inexact-float".

Local Open Scope list_scope.
Local Open Scope string_scope.
Local Open Scope nat_scope.

(** ** Python string primitives *)

Module PyStr.

(** The line feed, written ['\n'] in the source. *)
Definition nl : ascii := "010"%char.

(** The one-character string ['\n']. *)
Definition NL : string := String nl EmptyString.

(** [s.startswith(p)] *)
Fixpoint startswith (s p : string) : bool :=
  match p, s with
  | EmptyString, _ => true
  | String _ _, EmptyString => false
  | String a p', String b s' => Ascii.eqb a b && startswith s' p'
  end.

(** [sub in s] *)
Fixpoint contains (sub s : string) : bool :=
  startswith s sub ||
  match s with
  | EmptyString => false
  | String _ s' => contains sub s'
  end.

(** [s.find(sub)], with [None] for Python's [-1].  [s.index(sub)] is the
    same number when [sub in s] holds, and raises otherwise. *)
Fixpoint find (s sub : string) : option nat :=
  if startswith s sub then Some 0
  else match s with
       | EmptyString => None
       | String _ s' => option_map S (find s' sub)
       end.

(** [s.count(sub)] for a non-empty [sub]: occurrences are counted left to
    right without overlap; [skip] is the number of characters still
    covered by the occurrence counted last. *)
Fixpoint count_from (skip : nat) (s sub : string) : nat :=
  match s with
  | EmptyString => 0
  | String _ s' =>
      match skip with
      | S k => count_from k s' sub
      | O => if startswith s sub
             then S (count_from (String.length sub - 1) s' sub)
             else count_from 0 s' sub
      end
  end.

Definition count (s sub : string) : nat := count_from 0 s sub.

(** [s.split(sep)] for a one-character separator, as the pair of the
    first field and the fields after it (the result is never empty). *)
Fixpoint split_char (sep : ascii) (s : string) : string * list string :=
  match s with
  | EmptyString => (EmptyString, [])
  | String c s' =>
      let (h, t) := split_char sep s' in
      if Ascii.eqb c sep then (EmptyString, h :: t) else (String c h, t)
  end.

Definition split (sep : ascii) (s : string) : list string :=
  let (h, t) := split_char sep s in h :: t.

(** [sep.join(ls)] *)
Definition join (sep : string) (ls : list string) : string :=
  String.concat sep ls.

(** [l.insert(i, x)] for [i >= 0]: beyond the end it appends. *)
Definition list_insert {A : Type} (i : nat) (x : A) (l : list A) : list A :=
  (firstn i l ++ x :: skipn i l)%list.

(** [c.lower()] on U+0000 to U+00FF: the Latin capitals A-Z and the
    Latin-1 capitals U+00C0 to U+00DE (the multiplication sign U+00D7
    apart) move up by 32, every other character is unchanged. *)
Definition lower_char (c : ascii) : ascii :=
  let n := nat_of_ascii c in
  if ((65 <=? n) && (n <=? 90))%nat ||
     ((192 <=? n) && (n <=? 222) && negb (n =? 215))%nat
  then ascii_of_nat (n + 32) else c.

(** [s.lower()] *)
Fixpoint lower (s : string) : string :=
  match s with
  | EmptyString => EmptyString
  | String c s' => String (lower_char c) (lower s')
  end.

(** [c.isspace()] on U+0000 to U+00FF, which is also what [str.split()]
    and the regular expression class [\s] test. *)
Definition is_space (c : ascii) : bool :=
  let n := nat_of_ascii c in
  (((9 <=? n) && (n <=? 13)) || ((28 <=? n) && (n <=? 32)) ||
   (n =? 133) || (n =? 160))%nat.

(** [len(s.split())]: the number of maximal runs of non-space characters;
    [in_word] says whether the previous character was part of a word. *)
Fixpoint count_words (in_word : bool) (s : string) : nat :=
  match s with
  | EmptyString => 0
  | String c s' =>
      if is_space c then count_words false s'
      else if in_word then count_words true s'
      else S (count_words true s')
  end.

(** [str(n)] for a non-negative [int]. *)
Definition str_of_nat (n : nat) : string :=
  NilZero.string_of_uint (Nat.to_uint n).

(** [sub] occurs in [s] at offset [i]. *)
Definition occurs_at (sub s : string) (i : nat) : Prop :=
  exists a b, s = a ++ sub ++ b /\ String.length a = i.

(** [s[n:]] *)
Fixpoint drop (n : nat) (s : string) : string :=
  match n, s with
  | S n', String _ s' => drop n' s'
  | _, _ => s
  end.

(** No character of [s] is [c]. *)
Fixpoint free_of (c : ascii) (s : string) : bool :=
  match s with
  | EmptyString => true
  | String a s' => negb (Ascii.eqb a c) && free_of c s'
  end.

(** [s.lstrip()] *)
Fixpoint lstrip (s : string) : string :=
  match s with
  | EmptyString => EmptyString
  | String c s' => if is_space c then lstrip s' else s
  end.

(** [s.rstrip()] *)
Fixpoint rstrip (s : string) : string :=
  match s with
  | EmptyString => EmptyString
  | String c s' =>
      match rstrip s' with
      | EmptyString => if is_space c then EmptyString else String c EmptyString
      | String d r => String c (String d r)
      end
  end.

(** [s.strip()] *)
Definition strip (s : string) : string := rstrip (lstrip s).

(** [s.split(sep)] for a separator of one character or more, as the pair
    of the first field and the fields after it: separators are found
    from left to right and do not overlap; [skip] is the number of
    characters still covered by the separator found last. *)
Fixpoint split_str_from (skip : nat) (sep s : string) : string * list string :=
  match s with
  | EmptyString => (EmptyString, [])
  | String c s' =>
      match skip with
      | S k => split_str_from k sep s'
      | O =>
          if startswith s sep
          then let (h, t) := split_str_from (String.length sep - 1) sep s' in
               (EmptyString, h :: t)
          else let (h, t) := split_str_from 0 sep s' in
               (String c h, t)
      end
  end.

Definition split_str (sep s : string) : list string :=
  let (h, t) := split_str_from 0 sep s in h :: t.

(** [s.split()] with no argument: the maximal runs of non-space
    characters, as the run that [s] starts with (empty when [s] starts
    with a space or is empty) and the runs after it. *)
Fixpoint split_runs (s : string) : string * list string :=
  match s with
  | EmptyString => (EmptyString, [])
  | String c s' =>
      let (w, ws) := split_runs s' in
      if is_space c
      then (EmptyString, match w with EmptyString => ws | String _ _ => w :: ws end)
      else (String c w, ws)
  end.

Definition split_ws (s : string) : list string :=
  let (w, ws) := split_runs s in
  match w with EmptyString => ws | String _ _ => w :: ws end.

(** [c in chars] for a character [c]. *)
Fixpoint mem_char (c : ascii) (chars : string) : bool :=
  match chars with
  | EmptyString => false
  | String a chars' => Ascii.eqb a c || mem_char c chars'
  end.

(** [s.lstrip(chars)] *)
Fixpoint lstrip_chars (chars s : string) : string :=
  match s with
  | EmptyString => EmptyString
  | String c s' => if mem_char c chars then lstrip_chars chars s' else s
  end.

(** [s.rstrip(chars)] *)
Fixpoint rstrip_chars (chars s : string) : string :=
  match s with
  | EmptyString => EmptyString
  | String c s' =>
      match rstrip_chars chars s' with
      | EmptyString => if mem_char c chars then EmptyString else String c EmptyString
      | String d r => String c (String d r)
      end
  end.

(** [s.strip(chars)] *)
Definition strip_chars (chars s : string) : string :=
  rstrip_chars chars (lstrip_chars chars s).

(** Whether [s] starts with a whitespace character. *)
Definition space_ahead (s : string) : bool :=
  match s with
  | String c _ => is_space c
  | EmptyString => false
  end.

(** No character of [s] is whitespace. *)
Fixpoint no_space (s : string) : bool :=
  match s with
  | EmptyString => true
  | String c s' => negb (is_space c) && no_space s'
  end.

(** Every whitespace character of [s] is a space, and no whitespace
    follows it. *)
Fixpoint single_spaced (s : string) : bool :=
  match s with
  | EmptyString => true
  | String c s' =>
      (negb (is_space c) || (Ascii.eqb c " " && negb (space_ahead s')))
      && single_spaced s'
  end.

End PyStr.

(** ** The static validator ([src/src/code_validator.py]) *)

Module CodeValidator.
Import PyStr.

(** What [ast.parse(code)] did.  The parser is CPython's, not this
    repository's: the validator only looks at whether it returned, raised
    [SyntaxError] (whose [lineno] may be [None]) or raised another
    [Exception] (of which it keeps [str(e)]). *)
Inductive parse_outcome : Type :=
| Parsed
| RaisedSyntaxError (lineno : option nat) (msg : string)
| RaisedException (text : string).

Definition DANGEROUS_IMPORTS : list string :=
  ["os.system"; "subprocess"; "eval"; "exec"; "__import__"; "compile"; "open"].

Definition REQUIRED_IMPORTS : list string := ["bpy"].

Definition file_ops : list string :=
  ["open("; "write("; "read("; "remove("; "unlink("].

Definition network_ops : list string :=
  ["urllib"; "requests"; "socket"; "http"].

(** [f"{e.lineno}"] *)
Definition str_of_lineno (lineno : option nat) : string :=
  match lineno with
  | Some n => str_of_nat n
  | None => "None"
  end.

Definition syntax_error_msg (lineno : option nat) (msg : string) : string :=
  "Syntax Error at line " ++ str_of_lineno lineno ++ ": " ++ msg.

Definition parsing_error_msg (text : string) : string :=
  "Parsing Error: " ++ text.

Definition dangerous_msg (dangerous : string) : string :=
  "Dangerous operation detected: " ++ dangerous.

Definition file_op_msg (op : string) : string :=
  "File operation detected: " ++ op.

Definition network_msg (op : string) : string :=
  "Network operation detected: " ++ op.

(** [line.index(a) < line.index(b)].  The source evaluates it only when
    both [a in line] and [b in line] hold, so neither [index] raises. *)
Definition index_lt (line a b : string) : bool :=
  match find line a, find line b with
  | Some i, Some j => i <? j
  | _, _ => false
  end.

(** The loop of [_is_in_comment] over the lines still to visit. *)
Fixpoint in_comment_lines (lines : list string) (pattern : string) : bool :=
  match lines with
  | [] => true
  | line :: rest =>
      if contains pattern line then
        if negb (contains "#" line) || index_lt line pattern "#"
        then false
        else in_comment_lines rest pattern
      else in_comment_lines rest pattern
  end.

Definition _is_in_comment (code pattern : string) : bool :=
  in_comment_lines (split nl code) pattern.

(** The three loops of [_check_security]; each appends to [issues] in the
    order of its list. *)
Definition dangerous_issues (code : string) : list string :=
  map dangerous_msg (filter (fun dangerous => contains dangerous code) DANGEROUS_IMPORTS).

Definition file_op_flagged (code op : string) : bool :=
  contains op code && negb (_is_in_comment code op).

Definition file_op_issues (code : string) : list string :=
  map file_op_msg (filter (file_op_flagged code) file_ops).

Definition network_flagged (code op : string) : bool :=
  contains ("import " ++ op) code || contains ("from " ++ op) code.

Definition network_issues (code : string) : list string :=
  map network_msg (filter (network_flagged code) network_ops).

Definition _check_security (code : string) : bool * list string :=
  let issues :=
    (dangerous_issues code ++ file_op_issues code ++ network_issues code)%list in
  let is_safe := List.length issues =? 0 in
  (is_safe, issues).

Definition _check_imports (code : string) : list string :=
  let warnings :=
    map (fun required => "Missing recommended import: " ++ required)
      (filter (fun required =>
                 negb (contains ("import " ++ required) code) &&
                 negb (contains ("from " ++ required) code))
         REQUIRED_IMPORTS) in
  let warnings :=
    if contains "math" (lower code) && negb (contains "import math" code)
    then (warnings ++ ["Code mentions 'math' but doesn't import math module"])%list
    else warnings in
  let warnings :=
    if contains "vector" (lower code) && negb (contains "from mathutils import" code)
    then (warnings ++ ["Code mentions 'vector' but doesn't import from mathutils"])%list
    else warnings in
  warnings.

Definition _check_blender_api (code : string) : list string :=
  let warnings := [] in
  let warnings :=
    if negb (existsb (fun pattern => contains pattern code)
               ["bpy.ops.object.select_all"; "bpy.ops.object.delete"])
    then (warnings ++ ["Code doesn't clear existing objects - may cause conflicts"])%list
    else warnings in
  let warnings :=
    if (contains "bpy.ops.mesh" code || contains "bpy.ops.curve" code) &&
       (negb (contains ".name =" code) && negb (contains "name=" code))
    then (warnings ++ ["Objects created but not named - may be hard to reference"])%list
    else warnings in
  let warnings :=
    if (contains "bpy.ops." code &&
        negb (contains "bpy.context.view_layer.objects.active" code)) &&
       (5 <? count code "bpy.ops.")
    then (warnings ++ ["Many operations without setting active object - may cause issues"])%list
    else warnings in
  let warnings :=
    if contains "bpy.data.objects.new" code &&
       (negb (contains "scene.collection.objects.link" code) &&
        negb (contains "bpy.context.collection.objects.link" code))
    then (warnings ++ ["Objects created but not linked to scene collection"])%list
    else warnings in
  warnings.

Section Validator.

(** [ast.parse], as the function from a source text to what it did. *)
Variable ast_parse : string -> parse_outcome.

Definition _check_syntax (code : string) : bool * list string :=
  match ast_parse code with
  | Parsed => (true, [])
  | RaisedSyntaxError lineno msg => (false, [syntax_error_msg lineno msg])
  | RaisedException text => (false, [parsing_error_msg text])
  end.

(** [validate] returns [(is_valid, errors, warnings)]. *)
Definition validate (code : string) : bool * list string * list string :=
  let errors : list string := [] in
  let warnings : list string := [] in
  let (syntax_valid, syntax_errors) := _check_syntax code in
  if negb syntax_valid then
    (false, (errors ++ syntax_errors)%list, warnings)
  else
    let (security_valid, security_issues) := _check_security code in
    let errors :=
      if negb security_valid then (errors ++ security_issues)%list else errors in
    let warnings := (warnings ++ _check_imports code)%list in
    let warnings := (warnings ++ _check_blender_api code)%list in
    let is_valid := List.length errors =? 0 in
    (is_valid, errors, warnings).

End Validator.

(** The three components of the tuple [validate] returns. *)
Definition is_valid_of (report : bool * list string * list string) : bool :=
  fst (fst report).

Definition errors_of (report : bool * list string * list string) : list string :=
  snd (fst report).

Definition warnings_of (report : bool * list string * list string) : list string :=
  snd report.

(** The snippet [auto_fix] inserts: three lines and an empty one, each
    ended by a line feed. *)
Definition clear_code : string :=
  "# Clear existing objects" ++ NL ++
  "bpy.ops.object.select_all(action='SELECT')" ++ NL ++
  "bpy.ops.object.delete()" ++ NL ++
  NL.

(** The loop of [auto_fix] over [enumerate(lines)], from index [i] on. *)
Fixpoint import_end_from (i : nat) (lines : list string) (import_end : nat) : nat :=
  match lines with
  | [] => import_end
  | line :: rest =>
      import_end_from (S i) rest
        (if startswith line "import " || startswith line "from "
         then i + 1 else import_end)
  end.

Definition auto_fix (code : string) : string :=
  let fixed_code := code in
  let fixed_code :=
    if negb (contains "import bpy" fixed_code) && negb (contains "from bpy" fixed_code)
    then "import bpy" ++ NL ++ fixed_code
    else fixed_code in
  if negb (contains "bpy.ops.object.select_all" fixed_code) then
    let lines := split nl fixed_code in
    let import_end := import_end_from 0 lines 0 in
    join NL (list_insert import_end clear_code lines)
  else fixed_code.

(** *** Notions of the specification *)

(** Every occurrence of [op] on a line of [code] has a comment marker
    before it on that line. *)
Definition only_after_marker (code op : string) : Prop :=
  forall line i,
    In line (split nl code) -> occurs_at op line i ->
    exists j, j < i /\ occurs_at "#" line j.

(** Some line of [code] has an occurrence of [op] that no comment marker
    of that line precedes (in particular when the line has no marker). *)
Definition before_any_marker (code op : string) : Prop :=
  exists line i,
    In line (split nl code) /\ occurs_at op line i /\
    forall j, occurs_at "#" line j -> i < j.


(** A line that [auto_fix] takes for an import. *)
Definition is_import_line (line : string) : bool :=
  startswith line "import " || startswith line "from ".

(** What the loop of [_is_in_comment] asks of one line. *)
Definition line_in_comment (pattern line : string) : bool :=
  negb (contains pattern line) ||
  negb (negb (contains "#" line) || index_lt line pattern "#").

(** A pattern that holds no line feed and occurs neither in the import
    line nor in a line of the snippet that [auto_fix] may insert. *)
Definition foreign_to_fix (pattern : string) : bool :=
  free_of nl pattern &&
  negb (contains pattern "import bpy") &&
  forallb (fun line => negb (contains pattern line)) (split nl clear_code).

(** *** Sample texts *)

(** Sample texts, and what CPython 3.11's [ast.parse] does on each. *)
Definition DQ : string := String "034"%char EmptyString.

Definition text_unfinished_sum : string := "1 +".

Definition text_unclosed_call : string := "os.system(".

Definition text_nul : string := String "000"%char EmptyString.

Definition text_shell_call : string :=
  "import os" ++ NL ++ "os.system(" ++ DQ ++ "rm -rf /" ++ DQ ++ ")" ++ NL.

Definition text_open_in_comment : string :=
  "import bpy" ++ NL ++ "notes = 1  # open(path) is not used" ++ NL.

Definition text_open_in_code : string :=
  "import bpy" ++ NL ++ "data = open(path)  # open( again" ++ NL.

Definition text_remove_twice : string :=
  "import bpy" ++ NL ++ "# was: remove(x)" ++ NL ++ "old.remove(x)" ++ NL.

Definition cpython_samples : list (string * parse_outcome) :=
  [ (text_unfinished_sum, RaisedSyntaxError (Some 1) "invalid syntax");
    (text_unclosed_call, RaisedSyntaxError (Some 1) "'(' was never closed");
    (text_nul, RaisedException "source code string cannot contain null bytes");
    (text_shell_call, Parsed);
    (text_open_in_comment, Parsed);
    (text_open_in_code, Parsed);
    (text_remove_twice, Parsed) ].

(** A parser that answers as CPython 3.11 on the sample texts; any other
    text is outside the table, and it answers with an exception saying so. *)
Definition sample_parse (code : string) : parse_outcome :=
  match List.find (fun item => String.eqb (fst item) code) cpython_samples with
  | Some item => snd item
  | None => RaisedException "not a sample text"
  end.

End CodeValidator.

(** ** The fragment of Python's [re] that the classifier uses *)

Module PyRe.
Import PyStr.

(** Patterns, compiled with [re.IGNORECASE]. *)
Inductive regex : Type :=
| Eps                        (* the empty pattern *)
| Lit (c : ascii)            (* a literal character *)
| Digit                      (* [\d] *)
| Space                      (* [\s] *)
| Seq (r1 r2 : regex)        (* [r1 r2] *)
| Alt (r1 r2 : regex)        (* [r1|r2], the left branch tried first *)
| Opt (r : regex)            (* [r?], greedy *)
| Star (r : regex)           (* [r*], greedy *)
| Plus (r : regex).          (* [r+], greedy *)

Definition is_digit (c : ascii) : bool :=
  let n := nat_of_ascii c in (48 <=? n) && (n <=? 57).

(** One character against a one-character pattern, ignoring case.  On
    U+0000 to U+00FF, the characters of this development,
    [re.IGNORECASE] lets a literal match exactly the characters with the
    same lower case.  Beyond that range it also lets U+0130 and U+0131
    match [i], U+017F match [s] and U+212A match [k], which
    [str.lower] does not turn into these letters: what is proved about
    matched texts and their lower case is proved for prompts of
    characters up to U+00FF only. *)
Definition char_matches (r : regex) (c : ascii) : bool :=
  match r with
  | Lit p => Ascii.eqb (lower_char c) (lower_char p)
  | Digit => is_digit c
  | Space => is_space c
  | _ => false
  end.

(** The backtracking matcher, in continuation-passing style: [rmatch r s k]
    matches [r] at the start of [s] and hands what is left to [k]; when
    [k] refuses, the next way of matching [r] is tried, in the order of
    Python's engine (greedy repetitions give back one iteration at a
    time, alternatives go left to right).  An iteration of a repetition
    that consumes nothing ends the repetition. *)
Fixpoint rmatch {R : Type} (r : regex) (s : string) (k : string -> option R)
  {struct r} : option R :=
  match r with
  | Eps => k s
  | Lit _ | Digit | Space =>
      match s with
      | String c s' => if char_matches r c then k s' else None
      | EmptyString => None
      end
  | Seq r1 r2 => rmatch r1 s (fun s1 => rmatch r2 s1 k)
  | Alt r1 r2 =>
      match rmatch r1 s k with
      | Some x => Some x
      | None => rmatch r2 s k
      end
  | Opt r1 =>
      match rmatch r1 s k with
      | Some x => Some x
      | None => k s
      end
  | Star r1 =>
      (fix loop (fuel : nat) (s0 : string) {struct fuel} : option R :=
         match fuel with
         | O => k s0
         | S fuel' =>
             match rmatch r1 s0 (fun s1 =>
                     if String.length s1 <? String.length s0
                     then loop fuel' s1 else None) with
             | Some x => Some x
             | None => k s0
             end
         end) (String.length s) s
  | Plus r1 =>
      rmatch r1 s (fun s1 =>
        (fix loop (fuel : nat) (s0 : string) {struct fuel} : option R :=
           match fuel with
           | O => k s0
           | S fuel' =>
               match rmatch r1 s0 (fun s2 =>
                       if String.length s2 <? String.length s0
                       then loop fuel' s2 else None) with
               | Some x => Some x
               | None => k s0
               end
           end) (String.length s1) s1)
  end.

(** The pattern that matches the characters of [w] one after the other. *)
Fixpoint word (w : string) : regex :=
  match w with
  | EmptyString => Eps
  | String c w' => Seq (Lit c) (word w')
  end.

(** ['|'.join(ws)] as a pattern; joining no word gives the empty pattern. *)
Fixpoint alternatives (ws : list string) : regex :=
  match ws with
  | [] => Eps
  | w :: ws' =>
      match ws' with
      | [] => word w
      | _ :: _ => Alt (word w) (alternatives ws')
      end
  end.

(** The first [n] characters of [s]. *)
Definition take (n : nat) (s : string) : string := String.substring 0 n s.

(** *** The texts a pattern matches *)

(** [matches r a]: the pattern [r] matches the whole of the text [a]. *)
Inductive matches : regex -> string -> Prop :=
| matches_eps : matches Eps EmptyString
| matches_char (r : regex) (c : ascii) :
    char_matches r c = true -> matches r (String c EmptyString)
| matches_seq (r1 r2 : regex) (a b : string) :
    matches r1 a -> matches r2 b -> matches (Seq r1 r2) (a ++ b)
| matches_alt_l (r1 r2 : regex) (a : string) :
    matches r1 a -> matches (Alt r1 r2) a
| matches_alt_r (r1 r2 : regex) (a : string) :
    matches r2 a -> matches (Alt r1 r2) a
| matches_opt_none (r : regex) : matches (Opt r) EmptyString
| matches_opt_some (r : regex) (a : string) :
    matches r a -> matches (Opt r) a
| matches_star_nil (r : regex) : matches (Star r) EmptyString
| matches_star_cons (r : regex) (a b : string) :
    matches r a -> matches (Star r) b -> matches (Star r) (a ++ b)
| matches_plus (r : regex) (a b : string) :
    matches r a -> matches (Star r) b -> matches (Plus r) (a ++ b).

(** Every character of [s] is a decimal digit. *)
Fixpoint digits_only (s : string) : bool :=
  match s with
  | EmptyString => true
  | String c s' => is_digit c && digits_only s'
  end.

(** A text that [float] reads: digits, at least one, and then possibly a
    point and further digits. *)
Definition is_numeral (value : string) : Prop :=
  exists int_part frac_part,
    int_part <> EmptyString /\
    digits_only int_part = true /\ digits_only frac_part = true /\
    (value = int_part \/ value = int_part ++ "." ++ frac_part).

(** *** Patterns with word boundaries *)

(** The patterns of [_clean_prompt] and [_extract_entities]: they use
    [\b] and [\w], which look at the character before the position. *)
Inductive bregex : Type :=
| BEps                        (* the empty pattern *)
| BLit (c : ascii)            (* a literal character *)
| BDigit                      (* [\d] *)
| BSpace                      (* [\s] *)
| BWord                       (* [\w] *)
| Bound                       (* [\b] *)
| BSeq (r1 r2 : bregex)       (* [r1 r2] *)
| BOpt (r : bregex)           (* [r?], greedy *)
| BPlus (r : bregex).         (* [r+], greedy *)

(** [\w] on U+0000 to U+00FF: the letters, the digits and the underscore
    of ASCII, and the Latin-1 characters that [str.isalnum] accepts. *)
Definition is_word_char (c : ascii) : bool :=
  let n := nat_of_ascii c in
  ((48 <=? n) && (n <=? 57)) || ((65 <=? n) && (n <=? 90)) || (n =? 95) ||
  ((97 <=? n) && (n <=? 122)) || (n =? 170) || ((178 <=? n) && (n <=? 179)) ||
  (n =? 181) || ((185 <=? n) && (n <=? 186)) || ((188 <=? n) && (n <=? 190)) ||
  ((192 <=? n) && (n <=? 214)) || ((216 <=? n) && (n <=? 246)) ||
  ((248 <=? n) && (n <=? 255)).

(** Whether the character before the position, if there is one, is a
    word character. *)
Definition word_before (prev : option ascii) : bool :=
  match prev with
  | Some c => is_word_char c
  | None => false
  end.

(** Whether the text at the position starts with a word character. *)
Definition word_ahead (s : string) : bool :=
  match s with
  | String c _ => is_word_char c
  | EmptyString => false
  end.

(** [\b]: exactly one side of the position is a word character. *)
Definition at_boundary (prev : option ascii) (s : string) : bool :=
  xorb (word_before prev) (word_ahead s).

(** One character against a one-character pattern; [ignorecase] is the
    flag [re.IGNORECASE], with the same range as for [char_matches]: on
    U+0000 to U+00FF a literal matches the characters with the same
    lower case, and the four characters beyond that range that
    [re.IGNORECASE] also lets match [i], [s] and [k] are not among the
    characters of this development. *)
Definition bchar_matches (ignorecase : bool) (r : bregex) (c : ascii) : bool :=
  match r with
  | BLit p => if ignorecase then Ascii.eqb (lower_char c) (lower_char p)
              else Ascii.eqb c p
  | BDigit => is_digit c
  | BSpace => is_space c
  | BWord => is_word_char c
  | _ => false
  end.

(** The backtracking matcher for these patterns: as [rmatch], with the
    character before the position passed along. *)
Fixpoint bmatch {R : Type} (ignorecase : bool) (r : bregex)
  (prev : option ascii) (s : string) (k : option ascii -> string -> option R)
  {struct r} : option R :=
  match r with
  | BEps => k prev s
  | BLit _ | BDigit | BSpace | BWord =>
      match s with
      | String c s' => if bchar_matches ignorecase r c then k (Some c) s' else None
      | EmptyString => None
      end
  | Bound => if at_boundary prev s then k prev s else None
  | BSeq r1 r2 =>
      bmatch ignorecase r1 prev s (fun p1 s1 => bmatch ignorecase r2 p1 s1 k)
  | BOpt r1 =>
      match bmatch ignorecase r1 prev s k with
      | Some x => Some x
      | None => k prev s
      end
  | BPlus r1 =>
      bmatch ignorecase r1 prev s (fun p1 s1 =>
        (fix loop (fuel : nat) (p0 : option ascii) (s0 : string) {struct fuel}
           : option R :=
           match fuel with
           | O => k p0 s0
           | S fuel' =>
               match bmatch ignorecase r1 p0 s0 (fun p2 s2 =>
                       if String.length s2 <? String.length s0
                       then loop fuel' p2 s2 else None) with
               | Some x => Some x
               | None => k p0 s0
               end
           end) (String.length s1) p1 s1)
  end.

(** The character before the position that is reached by reading [u]
    from a position with [prev] before it. *)
Fixpoint last_before (prev : option ascii) (u : string) : option ascii :=
  match u with
  | EmptyString => prev
  | String c u' => last_before (Some c) u'
  end.

(** Every character of [s] is a word character. *)
Fixpoint word_only (s : string) : bool :=
  match s with
  | EmptyString => true
  | String c s' => is_word_char c && word_only s'
  end.

(** The pattern that matches the characters of [w] one after the other. *)
Fixpoint bword (w : string) : bregex :=
  match w with
  | EmptyString => BEps
  | String c w' => BSeq (BLit c) (bword w')
  end.

(** The length of the match of [r] at the position, if there is one. *)
Definition match_length (ignorecase : bool) (r : bregex)
  (prev : option ascii) (s : string) : option nat :=
  bmatch ignorecase r prev s (fun _ s1 => Some (String.length s - String.length s1)).

(** [re.search(r, text)] as a truth value, from the position that has
    [prev] before it and [s] ahead: the positions are tried from left to
    right, the end of the text included. *)
Fixpoint search_from (ignorecase : bool) (r : bregex)
  (prev : option ascii) (s : string) : bool :=
  match match_length ignorecase r prev s with
  | Some _ => true
  | None =>
      match s with
      | EmptyString => false
      | String c s' => search_from ignorecase r (Some c) s'
      end
  end.

Definition search (ignorecase : bool) (r : bregex) (text : string) : bool :=
  search_from ignorecase r None text.

(** [re.sub(r, repl, text)] for a pattern that matches no empty text and
    a replacement without backslashes: the matches are found from left
    to right and do not overlap; [skip] is the number of characters
    still covered by the match replaced last. *)
Fixpoint sub_from (ignorecase : bool) (r : bregex) (repl : string)
  (skip : nat) (prev : option ascii) (s : string) : string :=
  match s with
  | EmptyString => EmptyString
  | String c s' =>
      match skip with
      | S k => sub_from ignorecase r repl k (Some c) s'
      | O =>
          match match_length ignorecase r prev s with
          | Some n => repl ++ sub_from ignorecase r repl (n - 1) (Some c) s'
          | None => String c (sub_from ignorecase r repl 0 (Some c) s')
          end
      end
  end.

Definition sub (ignorecase : bool) (r : bregex) (repl text : string) : string :=
  sub_from ignorecase r repl 0 None text.

End PyRe.

(** ** The prompt classifier ([src/src/prompt_processor.py]) *)

Module PromptProcessor.
Import PyStr.

(** The class constant [CATEGORIES], a dict: its items in insertion order. *)
Definition CATEGORIES : list (string * list string) :=
  [ ("modeling",
     ["create"; "model"; "mesh"; "object"; "shape"; "geometry";
      "cube"; "sphere"; "cylinder"; "cone"; "torus"; "plane";
      "extrude"; "subdivide"; "modifier"; "boolean"; "array";
      "character"; "building"; "furniture"; "vehicle"]);
    ("material",
     ["material"; "shader"; "texture"; "color"; "metallic";
      "roughness"; "glossy"; "diffuse"; "bsdf"; "principled";
      "procedural"; "node"; "glass"; "metal"; "wood"; "stone"]);
    ("scene",
     ["scene"; "lighting"; "light"; "camera"; "environment";
      "world"; "hdri"; "background"; "sun"; "lamp"; "composition";
      "render"; "setup"; "studio"]);
    ("animation",
     ["animate"; "animation"; "keyframe"; "motion"; "movement";
      "rotate"; "translate"; "scale"; "path"; "timeline";
      "bounce"; "spin"; "move"; "frame"]) ].

(** The class constant [UNITS], in insertion order. *)
Definition UNITS : list (string * float) :=
  [ ("cm", 0.01%float); ("centimeter", 0.01%float);
    ("mm", 0.001%float); ("millimeter", 0.001%float);
    ("m", 1.0%float); ("meter", 1.0%float);
    ("inch", 0.0254%float); ("inches", 0.0254%float);
    ("ft", 0.3048%float); ("foot", 0.3048%float); ("feet", 0.3048%float) ].

(** [float(n)] for an [int]; exact below [2^53]. *)
Definition float_of_Z (n : Z) : float := PrimFloat.of_uint63 (Uint63.of_Z n).

Definition float_of_nat (n : nat) : float := float_of_Z (Z.of_nat n).

(** *** Categories *)

(** [sum(1 for keyword in keywords if keyword in prompt_lower)] *)
Definition keyword_score (prompt_lower : string) (keywords : list string) : nat :=
  List.length (filter (fun keyword => contains keyword prompt_lower) keywords).

(** The dict [scores], in insertion order. *)
Definition category_scores (prompt_lower : string) : list (string * nat) :=
  map (fun item => (fst item, keyword_score prompt_lower (snd item))) CATEGORIES.

(** [score >= max_score * 0.7]: the product is a float, and Python
    compares an [int] with a [float] by their exact values. *)
Definition high_score (max_score score : nat) : bool :=
  PrimFloat.leb (PrimFloat.mul (float_of_nat max_score) 0.7%float) (float_of_nat score).

(** [max(scores, key=scores.get)] after the first item: a later key
    replaces the best one only when its score is strictly larger. *)
Fixpoint argmax_from (best : string) (best_score : nat) (rest : list (string * nat)) : string :=
  match rest with
  | [] => best
  | (cat, score) :: rest' =>
      if best_score <? score then argmax_from cat score rest'
      else argmax_from best best_score rest'
  end.

(** [max(scores, key=scores.get)]; on an empty dict Python raises, which
    [None] stands for. *)
Definition argmax (scores : list (string * nat)) : option string :=
  match scores with
  | [] => None
  | (cat, score) :: rest => Some (argmax_from cat score rest)
  end.

(** The part of [_categorize_prompt] after [scores] is filled. *)
Definition categorize_scores (scores : list (string * nat)) : option string :=
  let max_score := list_max (map snd scores) in
  if max_score =? 0 then Some "modeling"
  else
    let high_scoring :=
      map fst (filter (fun item => high_score max_score (snd item)) scores) in
    if 1 <? List.length high_scoring then Some "mixed"
    else argmax scores.

(** [_categorize_prompt]; [None] would be a raised exception. *)
Definition _categorize_prompt (prompt : string) : option string :=
  let prompt_lower := lower prompt in
  categorize_scores (category_scores prompt_lower).

(** *** Complexity *)

(** What [_extract_entities] puts in its lists: a vocabulary term, or a
    [(number, noun)] pair. *)
Inductive entity : Type :=
| Term (name : string)
| Quantity (num : nat) (noun : string).

(** A value of the [entities] dict: a list, or anything else. *)
Inductive entity_value : Type :=
| EList (items : list entity)
| ENotList.

Definition entities_dict : Type := list (string * entity_value).

Definition complex_keywords : list string :=
  ["procedural"; "animation"; "rigging"; "physics";
   "particle"; "advanced"; "realistic"; "detailed"].

(** [sum(len(v) if isinstance(v, list) else 0 for v in entities.values())] *)
Definition total_entities (entities : entities_dict) : nat :=
  list_sum (map (fun item => match snd item with
                             | EList items => List.length items
                             | ENotList => 0
                             end) entities).

(** The local [score] of [_assess_complexity] when the bucket is chosen. *)
Definition complexity_score (prompt : string) (entities : entities_dict) : nat :=
  let score := 0 in
  let word_count := count_words false prompt in
  let score :=
    if 50 <? word_count then score + 3
    else if 20 <? word_count then score + 2
    else score + 1 in
  let total := total_entities entities in
  let score :=
    if 10 <? total then score + 3
    else if 5 <? total then score + 2
    else score + 1 in
  let score :=
    if existsb (fun keyword => contains keyword (lower prompt)) complex_keywords
    then score + 2 else score in
  score.

Definition _assess_complexity (prompt : string) (entities : entities_dict) : string :=
  let score := complexity_score prompt entities in
  if score <=? 3 then "simple"
  else if score <=? 6 then "medium"
  else "complex".

(** *** Measurements *)

Import PyRe.

(** The first group of the pattern: [\d+], then [\.?], then [\d*]. *)
Definition number_re : regex :=
  Seq (Plus Digit) (Seq (Opt (Lit ".")) (Star Digit)).

(** The second group: the keys of [UNITS] joined by [|]. *)
Definition unit_re : regex := alternatives (map fst UNITS).

(** One attempt of the whole pattern (the number group, [\s*], the unit
    group) at the start of [s]: the text of the two groups and the length
    of the whole match. *)
Definition match_here (s : string) : option (string * string * nat) :=
  rmatch number_re s (fun s1 =>
  rmatch (Star Space) s1 (fun s2 =>
  rmatch unit_re s2 (fun s3 =>
    Some (take (String.length s - String.length s1) s,
          take (String.length s2 - String.length s3) s2,
          String.length s - String.length s3)))).

(** The scan of [re.findall] from offset [pos], where [s] is what is left
    of the text and [skip] characters of it belong to the match found
    last: each match is reported with the offset it starts at, and the
    scan resumes where it ends.  (The pattern needs a digit, so there is
    no match at the end of the text.) *)
Fixpoint finditer_from (skip pos : nat) (s : string) : list (nat * (string * string)) :=
  match s with
  | EmptyString => []
  | String _ s' =>
      match skip with
      | S k => finditer_from k (S pos) s'
      | O =>
          match match_here s with
          | Some (value, unit, n) =>
              (pos, (value, unit)) :: finditer_from (n - 1) (S pos) s'
          | None => finditer_from 0 (S pos) s'
          end
      end
  end.

Definition finditer (s : string) : list (nat * (string * string)) :=
  finditer_from 0 0 s.

(** [re.findall(pattern, prompt, re.IGNORECASE)]: the pairs of groups. *)
Definition findall (s : string) : list (string * string) :=
  map snd (finditer s).

(** [int] of a string of decimal digits, after [acc]. *)
Fixpoint digits_to_Z (acc : Z) (s : string) : Z :=
  match s with
  | EmptyString => acc
  | String c s' => digits_to_Z (10 * acc + (Z.of_nat (nat_of_ascii c) - 48))%Z s'
  end.

(** [num / den] rounded to the nearest integer, the even one of two that
    are equally near; for [0 <= num] and [0 < den]. *)
Definition round_half_even (num den : Z) : Z :=
  let q := (num / den)%Z in
  let r := (num mod den)%Z in
  if (den <? 2 * r)%Z || ((den =? 2 * r)%Z && Z.odd q) then (q + 1)%Z else q.

(** The binary64 number nearest to the fraction [num / den], ties to
    even, for [0 <= num] and [0 < den]: the fraction is scaled by a
    power of two so that its integer part has the 53 bits of a binary64
    significand (fewer below [2^-1022], where the exponent stays at
    [-1074]), rounded once, and scaled back, which is exact.  What
    rounds to [2^1024] or more is [inf]. *)
Definition nearest_float (num den : Z) : float :=
  if (num =? 0)%Z then PrimFloat.zero
  else
    let d := (Z.log2 num - Z.log2 den)%Z in
    let log2_floor :=
      if (den * 2 ^ Z.max 0 d <=? num * 2 ^ Z.max 0 (- d))%Z
      then d else (d - 1)%Z in
    let e := Z.max (log2_floor - 52) (-1074) in
    let m := round_half_even (num * 2 ^ Z.max 0 (- e)) (den * 2 ^ Z.max 0 e) in
    if (2 ^ 1024 <=? m * 2 ^ Z.max 0 e)%Z then PrimFloat.infinity
    else Z.ldexp (PrimFloat.of_uint63 (Uint63.of_Z m)) e.

(** [float(value)] for a text [value] matched by the number group, digits
    and then possibly a point and further digits: CPython converts a
    decimal numeral of any length to the nearest binary64 number, ties to
    even, and to [inf] beyond the range. *)
Definition float_of_str (value : string) : float :=
  let (int_part, rest) := split_char "." value in
  let frac_part := match rest with [] => EmptyString | f :: _ => f end in
  nearest_float (digits_to_Z 0 (int_part ++ frac_part))
                (10 ^ Z.of_nat (String.length frac_part)).

(** [UNITS.get(unit, default)] *)
Definition units_get (unit : string) (default : float) : float :=
  match List.find (fun item => String.eqb (fst item) unit) UNITS with
  | Some item => snd item
  | None => default
  end.

(** The dict appended to [measurements] for each match. *)
Record measurement : Type := mk_measurement {
  original_value : float;
  original_unit : string;
  blender_value : float;
  blender_unit : string
}.

Definition measurement_of (m : string * string) : measurement :=
  let (value, unit) := m in
  let blender_value :=
    PrimFloat.mul (float_of_str value) (units_get (lower unit) 1.0%float) in
  {| original_value := float_of_str value;
     original_unit := unit;
     blender_value := blender_value;
     blender_unit := "meters" |}.

Definition _extract_measurements (prompt : string) : list measurement :=
  let matches := findall prompt in
  map measurement_of matches.

(** *** Notions of the specification *)

(** The categories whose score is at least seven tenths of the largest
    score, in exact arithmetic and in the order of [scores]. *)
Definition qualifying (scores : list (string * nat)) : list string :=
  map fst (filter (fun item => 7 * list_max (map snd scores) <=? 10 * snd item) scores).

(** [category] is the first key of [scores] whose score is the largest. *)
Definition first_with_max (scores : list (string * nat)) (category : string) : Prop :=
  exists before after,
    scores = (before ++ (category, list_max (map snd scores)) :: after)%list /\
    forall item, In item before -> snd item < list_max (map snd scores).

(** No keyword of any category occurs in the lower-cased prompt. *)
Definition no_keyword (prompt : string) : Prop :=
  forall category keywords keyword,
    In (category, keywords) CATEGORIES -> In keyword keywords ->
    contains keyword (lower prompt) = false.


(** *** Enhancement and prompt type *)

Definition _enhance_prompt
  (prompt category : string) (measurements : list measurement) : string :=
  let enhanced := prompt in
  let enhanced :=
    if String.eqb category "modeling" && negb (contains "scale" (lower prompt))
    then enhanced ++ " Use realistic proportions and scales."
    else enhanced in
  let enhanced :=
    if String.eqb category "material" && negb (contains "node" (lower prompt))
    then enhanced ++ " Use node-based materials with Principled BSDF."
    else enhanced in
  let enhanced :=
    if String.eqb category "scene" && negb (contains "camera" (lower prompt))
    then enhanced ++ " Set up appropriate camera positioning."
    else enhanced in
  let enhanced :=
    match measurements with
    | [] => enhanced
    | _ :: _ => enhanced ++ " (Note: measurements converted to Blender units)"
    end in
  enhanced.

(** The dict [type_mapping] of [_get_prompt_type]. *)
Definition type_mapping : list (string * string) :=
  [ ("modeling", "modeling"); ("material", "material"); ("scene", "scene");
    ("animation", "animation"); ("mixed", "base") ].

(** [d.get(key, default)] for a dict given by its items. *)
Definition dict_get {V : Type} (d : list (string * V)) (key : string) (default : V) : V :=
  match List.find (fun item => String.eqb (fst item) key) d with
  | Some item => snd item
  | None => default
  end.

Definition _get_prompt_type (category : string) : string :=
  dict_get type_mapping category "base".

(** *** Cleaning *)

(** The dict [replacements] of [_clean_prompt], in insertion order. *)
Definition replacements : list (string * string) :=
  [ ("pls", "please"); ("plz", "please"); ("thx", "thanks");
    ("w/", "with"); ("w/o", "without") ].

(** The pattern [r'\b' + old + r'\b'].  (No [old] of the table has a
    character that is special in a pattern.) *)
Definition whole_word (old : string) : bregex :=
  BSeq Bound (BSeq (bword old) Bound).

(** The loop over a table of replacements, each applied to the result of
    the one before. *)
Definition normalize (table : list (string * string)) (cleaned : string) : string :=
  fold_left (fun cleaned item => sub true (whole_word (fst item)) (snd item) cleaned)
            table cleaned.

Definition _clean_prompt (prompt : string) : string :=
  let cleaned := join " " (split_ws prompt) in
  let cleaned := strip_chars ".,!?;:" cleaned in
  normalize replacements cleaned.

(** *** Entities *)

Definition objects : list string :=
  ["cube"; "sphere"; "cylinder"; "cone"; "torus"; "plane";
   "tree"; "house"; "car"; "chair"; "table"; "lamp"].

Definition colors : list string :=
  ["red"; "blue"; "green"; "yellow"; "orange"; "purple";
   "black"; "white"; "gray"; "grey"; "brown"; "pink"].

Definition materials : list string :=
  ["metal"; "wood"; "glass"; "plastic"; "stone";
   "gold"; "silver"; "copper"; "steel"; "concrete"].

(** [name] occurs in [prompt] as a whole word, case ignored: no word
    character stands before the occurrence or after it. *)
Definition occurs_as_word (name prompt : string) : Prop :=
  exists pre u post,
    prompt = pre ++ u ++ post /\ lower u = name /\
    word_before (last_before None pre) = false /\ word_ahead post = false.

(** The pattern [r'\b' + obj + r's?\b']. *)
Definition object_re (obj : string) : bregex :=
  BSeq Bound (BSeq (bword obj) (BSeq (BOpt (BLit "s")) Bound)).

(** One attempt of the pattern of the quantities (a word boundary, the
    group [\d+], then [\s+], then the group [\w+]) at a position: the
    text of the two groups and the length of the whole match. *)
Definition quantity_here (prev : option ascii) (s : string)
  : option (string * string * nat) :=
  bmatch false Bound prev s (fun p0 s0 =>
  bmatch false (BPlus BDigit) p0 s0 (fun p1 s1 =>
  bmatch false (BPlus BSpace) p1 s1 (fun p2 s2 =>
  bmatch false (BPlus BWord) p2 s2 (fun _ s3 =>
    Some (take (String.length s0 - String.length s1) s0,
          take (String.length s2 - String.length s3) s2,
          String.length s - String.length s3))))).

(** The scan of [re.findall] for the quantities; [skip] as in
    [finditer_from]. *)
Fixpoint quantities_from (skip : nat) (prev : option ascii) (s : string)
  : list (string * string) :=
  match s with
  | EmptyString => []
  | String c s' =>
      match skip with
      | S k => quantities_from k (Some c) s'
      | O =>
          match quantity_here prev s with
          | Some (num, obj, n) => (num, obj) :: quantities_from (n - 1) (Some c) s'
          | None => quantities_from 0 (Some c) s'
          end
      end
  end.

(** [int(num)] for a text of decimal digits.  CPython 3.11 and later
    refuse a text of more digits than [sys.get_int_max_str_digits()]
    with a [ValueError], which [None] stands for.  [max_str_digits] is
    that setting: 4300 unless it is changed, and 0 when the limit is
    switched off (or the interpreter has none). *)
Definition py_int (max_str_digits : nat) (num : string) : option nat :=
  if (0 <? max_str_digits) && (max_str_digits <? String.length num)
  then None
  else Some (Z.to_nat (digits_to_Z 0 num)).

(** [[(int(num), obj) for num, obj in quantities]]; [None] when an
    [int] raises. *)
Fixpoint quantity_pairs (max_str_digits : nat)
  (quantities : list (string * string)) : option (list entity) :=
  match quantities with
  | [] => Some []
  | (num, obj) :: rest =>
      match py_int max_str_digits num with
      | None => None
      | Some n =>
          match quantity_pairs max_str_digits rest with
          | None => None
          | Some pairs => Some (Quantity n obj :: pairs)
          end
      end
  end.

(** [_extract_entities]; [None] would be the exception of [int]. *)
Definition _extract_entities (max_str_digits : nat) (prompt : string)
  : option entities_dict :=
  let found_objects :=
    filter (fun obj => search true (object_re obj) prompt) objects in
  let found_colors :=
    filter (fun color => search true (whole_word color) prompt) colors in
  let found_materials :=
    filter (fun material => search true (whole_word material) prompt) materials in
  let quantities := quantities_from 0 None prompt in
  match quantity_pairs max_str_digits quantities with
  | None => None
  | Some pairs =>
      Some [ ("objects", EList (map Term found_objects));
             ("colors", EList (map Term found_colors));
             ("materials", EList (map Term found_materials));
             ("quantities", EList pairs) ]
  end.

(** *** The whole analysis *)

(** The dict that [process] returns. *)
Record processed : Type := mk_processed {
  original : string;
  cleaned : string;
  enhanced : string;
  category : string;
  entities : entities_dict;
  measurements : list measurement;
  complexity : string;
  prompt_type : string
}.

(** [process]; [None] would be an exception, of [_categorize_prompt] or
    of [_extract_entities]. *)
Definition process (max_str_digits : nat) (prompt : string)
  : option processed :=
  let cleaned_prompt := _clean_prompt prompt in
  match _categorize_prompt cleaned_prompt with
  | None => None
  | Some category =>
      match _extract_entities max_str_digits cleaned_prompt with
      | None => None
      | Some entities =>
          let measurements := _extract_measurements cleaned_prompt in
          let complexity := _assess_complexity cleaned_prompt entities in
          let enhanced_prompt :=
            _enhance_prompt cleaned_prompt category measurements in
          Some {| original := prompt;
                  cleaned := cleaned_prompt;
                  enhanced := enhanced_prompt;
                  category := category;
                  entities := entities;
                  measurements := measurements;
                  complexity := complexity;
                  prompt_type := _get_prompt_type category |}
      end
  end.

(** *** Sample inputs *)

(** The entities of the prompt "Create a red cube on a wood table". *)
Definition sample_entities : entities_dict :=
  [ ("objects", EList [Term "cube"; Term "table"]);
    ("colors", EList [Term "red"]);
    ("materials", EList [Term "wood"]);
    ("quantities", EList []) ].

End PromptProcessor.

(** ** The configuration ([src/src/config.py]) *)

Module Config.
Import PyStr PromptProcessor.

(** A [pathlib.Path]: a directory and the names that lead from it to the
    file. *)
Record path : Type := mk_path {
  path_root : string;
  path_parts : list string
}.

(** [directory / name] *)
Definition path_div (directory : path) (name : string) : path :=
  {| path_root := path_root directory;
     path_parts := (path_parts directory ++ [name])%list |}.

(** The dict [prompt_files] of [get_prompt_file]. *)
Definition prompt_files (PROMPTS_DIR : path) : list (string * path) :=
  [ ("base", path_div PROMPTS_DIR "base_system_prompt.txt");
    ("modeling", path_div PROMPTS_DIR "modeling_expert.txt");
    ("material", path_div PROMPTS_DIR "material_expert.txt");
    ("scene", path_div PROMPTS_DIR "scene_expert.txt");
    ("animation", path_div PROMPTS_DIR "animation_expert.txt") ].

(** [prompt_files["base"]] *)
Definition base_prompt_file (PROMPTS_DIR : path) : path :=
  path_div PROMPTS_DIR "base_system_prompt.txt".

Definition get_prompt_file (PROMPTS_DIR : path) (prompt_type : string) : path :=
  dict_get (prompt_files PROMPTS_DIR) prompt_type (base_prompt_file PROMPTS_DIR).

(** The class attributes that [validate] and the script builders read.
    A key that the environment does not set is [None]. *)
Record settings : Type := mk_settings {
  ANTHROPIC_API_KEY : option string;
  OPENAI_API_KEY : option string;
  AI_PROVIDER : string;
  BLENDER_PATH : string;
  DEFAULT_MODE : string;
  EXPORT_FORMAT : string;
  RENDER_WIDTH : Z;
  RENDER_HEIGHT : Z;
  RENDER_SAMPLES : Z;
  RENDER_ENGINE : string
}.

(** [not key] for a key that is a string or [None]. *)
Definition key_missing (key : option string) : bool :=
  match key with
  | None => true
  | Some text => String.eqb text ""
  end.

(** [x in names] *)
Definition name_in (x : string) (names : list string) : bool :=
  existsb (String.eqb x) names.

Definition valid_formats : list string := ["obj"; "fbx"; "gltf"; "stl"; "ply"].

(** [f"{valid_formats}"] *)
Definition valid_formats_repr : string := "['obj', 'fbx', 'gltf', 'stl', 'ply']".

(** The list [errors] of [validate] before it is tested;
    [path_exists] answers [Path(p).exists()]. *)
Definition validation_errors (path_exists : string -> bool) (cls : settings) : list string :=
  let errors : list string := [] in
  let errors :=
    if String.eqb (AI_PROVIDER cls) "claude" && key_missing (ANTHROPIC_API_KEY cls)
    then (errors ++ ["ANTHROPIC_API_KEY is required when AI_PROVIDER=claude"])%list
    else errors in
  let errors :=
    if String.eqb (AI_PROVIDER cls) "openai" && key_missing (OPENAI_API_KEY cls)
    then (errors ++ ["OPENAI_API_KEY is required when AI_PROVIDER=openai"])%list
    else errors in
  let errors :=
    if negb (name_in (AI_PROVIDER cls) ["claude"; "openai"; "local"])
    then (errors ++ [("Invalid AI_PROVIDER: " ++ AI_PROVIDER cls ++
                      ". Must be 'claude', 'openai', or 'local'")%string])%list
    else errors in
  let errors :=
    if negb (String.eqb (BLENDER_PATH cls) "blender") &&
       negb (path_exists (BLENDER_PATH cls))
    then (errors ++ [("Blender not found at: " ++ BLENDER_PATH cls)%string])%list
    else errors in
  let errors :=
    if negb (name_in (DEFAULT_MODE cls) ["background"; "gui"])
    then (errors ++ [("Invalid DEFAULT_MODE: " ++ DEFAULT_MODE cls ++
                      ". Must be 'background' or 'gui'")%string])%list
    else errors in
  let errors :=
    if negb (name_in (EXPORT_FORMAT cls) valid_formats)
    then (errors ++ [("Invalid EXPORT_FORMAT: " ++ EXPORT_FORMAT cls ++
                      ". Must be one of " ++ valid_formats_repr)%string])%list
    else errors in
  let errors :=
    if negb (name_in (RENDER_ENGINE cls) ["CYCLES"; "EEVEE"])
    then (errors ++ [("Invalid RENDER_ENGINE: " ++ RENDER_ENGINE cls ++
                      ". Must be 'CYCLES' or 'EEVEE'")%string])%list
    else errors in
  errors.

(** What [validate] does: it returns [True], or raises [ValueError]
    with a message. *)
Inductive validation : Type :=
| ReturnedTrue
| RaisedValueError (error_msg : string).

Definition validate (path_exists : string -> bool) (cls : settings) : validation :=
  match validation_errors path_exists cls with
  | [] => ReturnedTrue
  | errors =>
      RaisedValueError
        ("Configuration validation failed:" ++ NL ++
         join NL (map (fun err => "  - " ++ err) errors))
  end.

(** [str(n)] for an [int]. *)
Definition str_of_Z (n : Z) : string :=
  if (n <? 0)%Z then "-" ++ str_of_nat (Z.abs_nat n) else str_of_nat (Z.to_nat n).

(** Sample settings: the defaults of the class with a key for the
    default provider, and the same with the export format [ply]. *)
Definition default_settings : settings :=
  {| ANTHROPIC_API_KEY := Some "sk-sample";
     OPENAI_API_KEY := None;
     AI_PROVIDER := "claude";
     BLENDER_PATH := "blender";
     DEFAULT_MODE := "background";
     EXPORT_FORMAT := "obj";
     RENDER_WIDTH := 1920;
     RENDER_HEIGHT := 1080;
     RENDER_SAMPLES := 128;
     RENDER_ENGINE := "CYCLES" |}.

Definition ply_settings : settings :=
  {| ANTHROPIC_API_KEY := Some "sk-sample";
     OPENAI_API_KEY := None;
     AI_PROVIDER := "claude";
     BLENDER_PATH := "blender";
     DEFAULT_MODE := "background";
     EXPORT_FORMAT := "ply";
     RENDER_WIDTH := 1920;
     RENDER_HEIGHT := 1080;
     RENDER_SAMPLES := 128;
     RENDER_ENGINE := "CYCLES" |}.

End Config.

(** ** The cleaning of generated code ([src/src/ai_generator.py]) *)

Module AIGenerator.
Import PyStr.

(** The three backticks of a Markdown fence, and the fence that opens a
    Python block. *)
Definition FENCE : string := "```".

Definition PYTHON_FENCE : string := "```python".

(** The backtick. *)
Definition BACKTICK : ascii := "`"%char.

(** The test of the loop of [_clean_code]: the line is skipped. *)
Definition skipped_line (line : string) : bool :=
  startswith (strip line) "#" &&
  existsb (fun word => contains word (lower line)) ["here"; "this"; "above"; "below"].

(** [parts[i]] for an index that the list has. *)
Definition part (parts : list string) (i : nat) : string := nth i parts EmptyString.

Definition _clean_code (raw_code : string) : string :=
  let code := strip raw_code in
  let code :=
    if contains PYTHON_FENCE code then
      let parts := split_str PYTHON_FENCE code in
      if 1 <? List.length parts
      then strip (part (split_str FENCE (part parts 1)) 0)
      else code
    else if contains FENCE code then
      let parts := split_str FENCE code in
      if 3 <=? List.length parts
      then strip (part parts 1)
      else code
    else code in
  let lines := split nl code in
  let cleaned_lines := filter (fun line => negb (skipped_line line)) lines in
  join NL cleaned_lines.

(** A sample answer of a generator: a sentence, a fenced block and a
    closing sentence. *)
Definition sample_answer : string :=
  "Sure, the script follows." ++ NL ++
  "```python" ++ NL ++
  "import bpy" ++ NL ++
  "bpy.ops.mesh.primitive_cube_add(size=2)" ++ NL ++
  "```" ++ NL ++
  "Run it in the scripting tab.".

End AIGenerator.

(** ** The scripts handed to Blender ([src/src/blender_executor.py]) *)

Module BlenderExecutor.
Import PyStr PromptProcessor Config.

(** The double quote. *)
Definition QUOTE : string := String "034"%char EmptyString.

(** The dict [export_ops] of [_create_export_script], for the text
    [str(export_path)]. *)
Definition export_ops (export_path : string) : list (string * string) :=
  [ ("obj", "bpy.ops.wm.obj_export(filepath=r'" ++ export_path ++ "')");
    ("fbx", "bpy.ops.export_scene.fbx(filepath=r'" ++ export_path ++ "')");
    ("gltf", "bpy.ops.export_scene.gltf(filepath=r'" ++ export_path ++ "')");
    ("stl", "bpy.ops.export_mesh.stl(filepath=r'" ++ export_path ++ "')");
    ("ply", "bpy.ops.export_mesh.ply(filepath=r'" ++ export_path ++ "')") ].

(** [d.get(key)]: [None] for a missing key. *)
Definition dict_lookup {V : Type} (d : list (string * V)) (key : string) : option V :=
  option_map snd (List.find (fun item => String.eqb (fst item) key) d).

(** What [_create_export_script] does up to the text it writes to the
    temporary script: it raises [ValueError] for a format without an
    operator ([None] here), or builds [combined_script]. *)
Definition _create_export_script
  (original_code export_path export_format : string) : option string :=
  match dict_lookup (export_ops export_path) (lower export_format) with
  | None => None
  | Some export_op =>
      if String.eqb export_op "" then None
      else
        let export_code :=
          NL ++ "# Export model" ++ NL ++ "import bpy" ++ NL ++ NL ++
          export_op ++ NL ++
          "print(f" ++ QUOTE ++ "Exported to: " ++ export_path ++ QUOTE ++ ")" ++ NL in
        Some (original_code ++ NL ++ NL ++ export_code)
  end.

(** The dict [export_ops] of [_create_combined_script]. *)
Definition combined_export_ops (export_path : string) : list (string * string) :=
  [ ("obj", "bpy.ops.wm.obj_export(filepath=r'" ++ export_path ++ "')");
    ("fbx", "bpy.ops.export_scene.fbx(filepath=r'" ++ export_path ++ "')");
    ("gltf", "bpy.ops.export_scene.gltf(filepath=r'" ++ export_path ++ "')");
    ("stl", "bpy.ops.export_mesh.stl(filepath=r'" ++ export_path ++ "')") ].

(** [f"{export_ops.get(export_format)}"]: a missing key gives the text
    of [None]. *)
Definition export_statement (export_path export_format : string) : string :=
  match dict_lookup (combined_export_ops export_path) export_format with
  | Some export_op => export_op
  | None => "None"
  end.

(** The text [combined_script] that [_create_combined_script] writes to
    the final script; a path that is [None] adds nothing. *)
Definition _create_combined_script
  (cls : settings) (original_code : string)
  (render_path export_path blend_path : option string) : string :=
  let additional_code := NL ++ "import bpy" ++ NL in
  let additional_code :=
    match render_path with
    | Some render_path =>
        additional_code ++
        NL ++ "# Render" ++ NL ++
        "bpy.context.scene.render.filepath = r" ++ QUOTE ++ render_path ++ QUOTE ++ NL ++
        "bpy.context.scene.render.image_settings.file_format = 'PNG'" ++ NL ++
        "bpy.context.scene.render.resolution_x = " ++ str_of_Z (RENDER_WIDTH cls) ++ NL ++
        "bpy.context.scene.render.resolution_y = " ++ str_of_Z (RENDER_HEIGHT cls) ++ NL ++
        "bpy.context.scene.render.engine = '" ++ RENDER_ENGINE cls ++ "'" ++ NL ++
        "if bpy.context.scene.render.engine == 'CYCLES':" ++ NL ++
        "    bpy.context.scene.cycles.samples = " ++ str_of_Z (RENDER_SAMPLES cls) ++ NL ++
        "bpy.ops.render.render(write_still=True)" ++ NL ++
        "print(f" ++ QUOTE ++ "Rendered to: " ++ render_path ++ QUOTE ++ ")" ++ NL
    | None => additional_code
    end in
  let additional_code :=
    match export_path with
    | Some export_path =>
        let export_format := EXPORT_FORMAT cls in
        additional_code ++
        NL ++ "# Export" ++ NL ++
        export_statement export_path export_format ++ NL ++
        "print(f" ++ QUOTE ++ "Exported to: " ++ export_path ++ QUOTE ++ ")" ++ NL
    | None => additional_code
    end in
  let additional_code :=
    match blend_path with
    | Some blend_path =>
        additional_code ++
        NL ++ "# Save" ++ NL ++
        "bpy.ops.wm.save_as_mainfile(filepath=r" ++ QUOTE ++ blend_path ++ QUOTE ++ ")" ++ NL ++
        "print(f" ++ QUOTE ++ "Saved to: " ++ blend_path ++ QUOTE ++ ")" ++ NL
    | None => additional_code
    end in
  original_code ++ NL ++ additional_code.

End BlenderExecutor.

(** ** The retry loop of the application ([src/src/main.py]) *)

Module Main.
Import PyStr CodeValidator.

(** What one call of [self.ai_generator.generate_code] did: it returned
    a code, or raised an exception [e], of which [run] keeps [str(e)].
    The generator is an external service. *)
Inductive generation : Type :=
| Generated (code : string)
| GenerationRaised (error : string).

(** How the [while] loop of [run] ends: by the [return] of its exception
    handler, or by leaving the loop with the locals [code] and [is_valid]. *)
Inductive loop_end : Type :=
| ReturnedError (error : string)
| LoopLeft (code : option string) (is_valid : bool).

(** What [run] does after the loop: it returns
    [{'success': False, 'error': error}], or goes on to save [code] to a
    file and execute it. *)
Inductive after_generation : Type :=
| Failure (error : string)
| GoOn (code : string).

(** [x if x is not None else default] *)
Definition if_not_none {A : Type} (x : option A) (default : A) : A :=
  match x with
  | Some v => v
  | None => default
  end.

(** [max_retries or Config.MAX_RETRIES]: zero and [None] are falsy. *)
Definition or_default (max_retries : option Z) (default : Z) : Z :=
  match max_retries with
  | Some 0%Z | None => default
  | Some n => n
  end.

Section Run.

Variable ast_parse : string -> parse_outcome.

(** What the call of [generate_code] made in the attempt of each number
    did (the arguments of the call are the same in every attempt). *)
Variable generate_code : nat -> generation.

Variable validate_code : bool.
Variable max_retries : Z.

(** The loop [while attempt < max_retries], with the locals [attempt],
    [code] and [is_valid]; [remaining] counts the passes that are left,
    [max_retries - attempt]. *)
Fixpoint retry_loop (remaining attempt : nat) (code : option string) (is_valid : bool)
  : loop_end :=
  match remaining with
  | O => LoopLeft code is_valid
  | S remaining' =>
      let attempt := attempt + 1 in
      match generate_code attempt with
      | GenerationRaised error =>
          if (max_retries <=? Z.of_nat attempt)%Z then ReturnedError error
          else retry_loop remaining' attempt code is_valid
      | Generated generated =>
          let code := Some generated in
          if validate_code then
            let report := validate ast_parse generated in
            let is_valid := is_valid_of report in
            if negb (List.length (errors_of report) =? 0) &&
               (Z.of_nat attempt <? max_retries)%Z
            then retry_loop remaining' attempt code is_valid
            else if is_valid then LoopLeft code is_valid
            else retry_loop remaining' attempt code is_valid
          else LoopLeft code true
      end
  end.

(** The part of [run] from the loop to the test [if not code]. *)
Definition generation_phase : after_generation :=
  match retry_loop (Z.to_nat max_retries) 0 None false with
  | ReturnedError error => Failure error
  | LoopLeft None _ => Failure "Failed to generate code"
  | LoopLeft (Some code) _ =>
      if String.eqb code "" then Failure "Failed to generate code" else GoOn code
  end.

End Run.

(** The phase with the arguments [validate] and [max_retries] of [run]
    and the two settings they default to. *)
Definition run_generation
  (ast_parse : string -> parse_outcome) (generate_code : nat -> generation)
  (validate : option bool) (max_retries : option Z)
  (VALIDATE_CODE : bool) (MAX_RETRIES : Z) : after_generation :=
  generation_phase ast_parse generate_code
    (if_not_none validate VALIDATE_CODE) (or_default max_retries MAX_RETRIES).

(** An attempt that leaves the loop running when it is not the last:
    the generator raised, or the code it returned has errors. *)
Definition attempt_rejected
  (ast_parse : string -> parse_outcome) (outcome : generation) : Prop :=
  match outcome with
  | GenerationRaised _ => True
  | Generated code => errors_of (validate ast_parse code) <> []
  end.

(** A sample text that CPython parses and the validator accepts, and a
    parser that knows it besides the other sample texts. *)
Definition text_cube : string :=
  "import bpy" ++ NL ++ "bpy.ops.mesh.primitive_cube_add(size=2)" ++ NL.

Definition sample_parse_cube (code : string) : parse_outcome :=
  if String.eqb code text_cube then Parsed else sample_parse code.

(** Sample generators: one that returns the shell call on every attempt,
    one that raises, then returns the shell call, then the cube, and one
    that raises on every attempt. *)
Definition always_shell_call (attempt : nat) : generation :=
  Generated text_shell_call.

Definition cube_at_third (attempt : nat) : generation :=
  if attempt <? 2 then GenerationRaised "connection reset"
  else if attempt <? 3 then Generated text_shell_call
  else Generated text_cube.

Definition always_raises (attempt : nat) : generation :=
  GenerationRaised ("attempt " ++ str_of_nat attempt ++ " timed out").

End Main.

(** * Properties *)

(** ** Facts about the string primitives *)

Module PyStrFacts.
Import PyStr.

Lemma append_assoc (a b c : string) : (a ++ b) ++ c = a ++ b ++ c.
Proof. induction a as [|x a IH]; simpl; [reflexivity | now rewrite IH]. Qed.

Lemma append_nil_r (a : string) : a ++ "" = a.
Proof. induction a as [|x a IH]; simpl; [reflexivity | now rewrite IH]. Qed.

Lemma append_inj_l (p a b : string) : p ++ a = p ++ b -> a = b.
Proof.
  induction p as [|x p IH]; simpl; intros H; [exact H|].
  injection H as H. now apply IH.
Qed.

Lemma length_append (a b : string) :
  String.length (a ++ b) = String.length a + String.length b.
Proof. induction a as [|x a IH]; simpl; [reflexivity | now rewrite IH]. Qed.

Lemma startswith_nil (s : string) : startswith s "" = true.
Proof. destruct s; reflexivity. Qed.

Lemma startswith_app (p b : string) : startswith (p ++ b) p = true.
Proof.
  induction p as [|x p IH]; simpl; [apply startswith_nil|].
  now rewrite Ascii.eqb_refl, IH.
Qed.

Lemma startswith_inv (p s : string) :
  startswith s p = true -> exists b, s = p ++ b.
Proof.
  revert s; induction p as [|x p IH]; intros s H.
  - exists s; reflexivity.
  - destruct s as [|y s]; simpl in H; [discriminate|].
    apply andb_true_iff in H as [Hxy Hp].
    apply Ascii.eqb_eq in Hxy; subst y.
    destruct (IH _ Hp) as [b ->]. exists b; reflexivity.
Qed.

(** An occurrence at offset 0 is a prefix; one at a later offset is an
    occurrence in the tail. *)
Lemma occurs_at_0 (p s : string) :
  occurs_at p s 0 <-> startswith s p = true.
Proof.
  split.
  - intros (a & b & -> & Ha). destruct a; [|discriminate]. exact (startswith_app p b).
  - intros H. destruct (startswith_inv _ _ H) as [b ->].
    exists "", b; split; reflexivity.
Qed.

Lemma occurs_at_S (p : string) (c : ascii) (s : string) (i : nat) :
  occurs_at p (String c s) (S i) <-> occurs_at p s i.
Proof.
  split.
  - intros (a & b & E & Ha). destruct a as [|x a]; [discriminate|].
    simpl in E, Ha. injection E as -> ->. injection Ha as Ha.
    exists a, b; split; [reflexivity | exact Ha].
  - intros (a & b & -> & Ha). exists (String c a), b; split; simpl; [reflexivity | now rewrite Ha].
Qed.

Lemma occurs_at_nil (p : string) (i : nat) :
  occurs_at p "" i -> i = 0.
Proof.
  intros (a & b & E & Ha). destruct a; [now subst | discriminate].
Qed.

Lemma contains_occurs (p s : string) :
  contains p s = true <-> exists i, occurs_at p s i.
Proof.
  induction s as [|c s IH].
  - cbn [contains]. rewrite orb_false_r. split.
    + intros H. exists 0. now apply occurs_at_0.
    + intros [i H]. pose proof (occurs_at_nil _ _ H); subst i. now apply occurs_at_0.
  - cbn [contains]. rewrite orb_true_iff, IH. split.
    + intros [H | [i H]].
      * exists 0. now apply occurs_at_0.
      * exists (S i). now apply occurs_at_S.
    + intros [[|i] H].
      * left. now apply occurs_at_0.
      * right. exists i. now apply occurs_at_S in H.
Qed.

Lemma contains_intro (a p b : string) : contains p (a ++ p ++ b) = true.
Proof. apply contains_occurs. exists (String.length a), a, b. split; reflexivity. Qed.

Lemma contains_inv (p s : string) :
  contains p s = true -> exists a b, s = a ++ p ++ b.
Proof.
  intros H. apply contains_occurs in H as (i & a & b & E & _). now exists a, b.
Qed.

Lemma contains_app_r (p a s : string) :
  contains p s = true -> contains p (a ++ s) = true.
Proof.
  intros H. destruct (contains_inv _ _ H) as (x & y & ->).
  rewrite <- append_assoc. apply contains_intro.
Qed.

Lemma contains_app_l (p s b : string) :
  contains p s = true -> contains p (s ++ b) = true.
Proof.
  intros H. destruct (contains_inv _ _ H) as (x & y & ->).
  rewrite !append_assoc. apply contains_intro.
Qed.

(** [find] returns the offset of the first occurrence. *)
Lemma find_Some (p s : string) (i : nat) :
  find s p = Some i ->
  occurs_at p s i /\ forall j, occurs_at p s j -> i <= j.
Proof.
  revert i; induction s as [|c s IH]; intros i H.
  - cbn [find] in H. destruct (startswith "" p) eqn:E; [|discriminate].
    injection H as <-. split; [now apply occurs_at_0 | intros; lia].
  - cbn [find] in H. destruct (startswith (String c s) p) eqn:E.
    + injection H as <-. split; [now apply occurs_at_0 | intros; lia].
    + destruct (find s p) as [k|] eqn:F; [|discriminate].
      injection H as <-. destruct (IH k eq_refl) as [Hk Hmin]. split.
      * now apply occurs_at_S.
      * intros [|j] Hj.
        -- apply occurs_at_0 in Hj. congruence.
        -- apply occurs_at_S in Hj. apply Hmin in Hj. lia.
Qed.

Lemma find_None (p s : string) :
  find s p = None <-> contains p s = false.
Proof.
  induction s as [|c s IH].
  - cbn [find contains]. destruct (startswith "" p); simpl; split; congruence.
  - cbn [find contains]. destruct (startswith (String c s) p); simpl.
    + split; congruence.
    + rewrite <- IH. destruct (find s p); simpl; split; congruence.
Qed.

Lemma find_contains (p s : string) :
  contains p s = true -> exists i, find s p = Some i.
Proof.
  intros H. destruct (find s p) as [i|] eqn:F; [now exists i|].
  apply find_None in F. congruence.
Qed.

(** *** Lines *)

Lemma free_of_app (c : ascii) (a b : string) :
  free_of c (a ++ b) = free_of c a && free_of c b.
Proof.
  induction a as [|x a IH]; simpl; [reflexivity|].
  now rewrite IH, andb_assoc.
Qed.

(** A text without the separator in front of [b] joins the first field. *)
Lemma split_char_app (sep : ascii) (p b : string) :
  free_of sep p = true ->
  split_char sep (p ++ b) = (p ++ fst (split_char sep b), snd (split_char sep b)).
Proof.
  induction p as [|x p IH]; simpl; intros H.
  - now destruct (split_char sep b).
  - apply andb_true_iff in H as [Hx Hp]. apply negb_true_iff in Hx.
    rewrite (IH Hp), Hx. reflexivity.
Qed.

Lemma split_cons (sep c : ascii) (s : string) :
  split sep (String c s) =
  if Ascii.eqb c sep then "" :: split sep s
  else match split sep s with
       | h :: t => String c h :: t
       | [] => []
       end.
Proof.
  unfold split; simpl. destruct (split_char sep s) as [h t].
  destruct (Ascii.eqb c sep); reflexivity.
Qed.

Lemma split_not_nil (sep : ascii) (s : string) : split sep s <> [].
Proof. unfold split. destruct (split_char sep s). discriminate. Qed.

(** A separator-free text that occurs in [s] occurs in one of its fields. *)
Lemma contains_split (sep : ascii) (p s : string) :
  free_of sep p = true ->
  contains p s = true ->
  exists line, In line (split sep s) /\ contains p line = true.
Proof.
  intros Hp H. destruct (contains_inv _ _ H) as (a & b & ->). clear H.
  induction a as [|c a IH].
  - simpl. unfold split. rewrite (split_char_app _ _ _ Hp). simpl.
    eexists; split; [left; reflexivity|].
    apply (contains_intro "").
  - destruct IH as (line & Hin & Hc).
    change (String c a ++ p ++ b) with (String c (a ++ p ++ b)).
    rewrite split_cons. destruct (Ascii.eqb c sep).
    + exists line; split; [now right | exact Hc].
    + destruct (split sep (a ++ p ++ b)) as [|h t]; [destruct Hin|].
      destruct Hin as [<- | Hin].
      * exists (String c h); split; [now left|].
        apply (contains_app_r p (String c "") h Hc).
      * exists line; split; [now right | exact Hc].
Qed.

Lemma contains_join (sep p x : string) (ls : list string) :
  In x ls -> contains p x = true -> contains p (join sep ls) = true.
Proof.
  intros Hin Hc. induction ls as [|y ls IH]; [destruct Hin|].
  unfold join in *. simpl. destruct ls as [|z ls].
  - destruct Hin as [-> | []]. exact Hc.
  - destruct Hin as [-> | Hin].
    + now apply contains_app_l.
    + apply contains_app_r, contains_app_r. now apply IH.
Qed.

(** Joining the fields with the separator gives the text back. *)
Lemma join_split (sep : ascii) (s : string) :
  join (String sep "") (split sep s) = s.
Proof.
  induction s as [|c s IH]; [reflexivity|].
  rewrite split_cons. destruct (Ascii.eqb c sep) eqn:E.
  - apply Ascii.eqb_eq in E; subst c.
    unfold join in *. simpl.
    destruct (split sep s) as [|h t] eqn:S; [now apply split_not_nil in S|].
    simpl. now rewrite <- IH.
  - unfold join in *.
    destruct (split sep s) as [|h t] eqn:S; [now apply split_not_nil in S|].
    simpl in *. destruct t; simpl; now rewrite <- IH.
Qed.

(** A text that occurs in a line occurs in the text the lines come from. *)
Lemma contains_of_line (sep : ascii) (p s line : string) :
  In line (split sep s) -> contains p line = true -> contains p s = true.
Proof.
  intros Hin Hc. rewrite <- (join_split sep s). now apply contains_join with line.
Qed.

Lemma In_list_insert {A : Type} (i : nat) (x y : A) (l : list A) :
  In y (list_insert i x l) <-> y = x \/ In y l.
Proof.
  unfold list_insert. rewrite in_app_iff. simpl.
  rewrite <- (firstn_skipn i l) at 3. rewrite in_app_iff.
  intuition congruence.
Qed.

Lemma append_same_length (a a' x y : string) :
  a ++ x = a' ++ y -> String.length a = String.length a' -> a = a' /\ x = y.
Proof.
  revert a'; induction a as [|c a IH]; intros [|c' a'] E L; try discriminate.
  - split; [reflexivity | exact E].
  - simpl in E, L. injection E as -> E. injection L as L.
    destruct (IH _ E L) as [-> ->]. split; reflexivity.
Qed.

(** Two texts that occur at the same offset start with the same character. *)
Lemma occurs_at_same_offset (c d : ascii) (p q s : string) (i : nat) :
  occurs_at (String c p) s i -> occurs_at (String d q) s i -> c = d.
Proof.
  intros (a & b & -> & La) (a' & b' & E & La').
  destruct (append_same_length a a' _ _ E) as [_ E']; [congruence|].
  now injection E'.
Qed.

(** *** The primitives on small inputs *)

Example split_sample :
  split nl ("a" ++ NL ++ NL ++ "b" ++ NL) = ["a"; ""; "b"; ""].
Proof. reflexivity. Qed.

Example find_sample : find "x = open(f)  # open(" "open(" = Some 4.
Proof. reflexivity. Qed.

Example find_absent : find "x = 1" "#" = None.
Proof. reflexivity. Qed.

Example count_sample : count "aaaa bpy.ops.bpy.ops. aaa" "aa" = 3.
Proof. reflexivity. Qed.

Example list_insert_sample : list_insert 1 "x" ["a"; "b"] = ["a"; "x"; "b"].
Proof. reflexivity. Qed.

Example list_insert_past_end : list_insert 5 "x" ["a"; "b"] = ["a"; "b"; "x"].
Proof. reflexivity. Qed.

Example lower_sample : lower "Create a RED Cube" = "create a red cube".
Proof. reflexivity. Qed.

Example count_words_sample : count_words false "  make  3 red   cubes " = 4.
Proof. reflexivity. Qed.

Example str_of_nat_sample : str_of_nat 120 = "120".
Proof. reflexivity. Qed.

(** *** Lines of joined texts *)

Lemma split_nil (sep : ascii) : split sep "" = [""].
Proof. reflexivity. Qed.

(** Splitting distributes over a separator between two texts. *)
Lemma split_app_sep (sep : ascii) (a b : string) :
  split sep (a ++ String sep "" ++ b) = (split sep a ++ split sep b)%list.
Proof.
  induction a as [|c a IH].
  - cbn [append]. rewrite split_cons, Ascii.eqb_refl. reflexivity.
  - change (String c a ++ String sep "" ++ b) with (String c (a ++ String sep "" ++ b)).
    rewrite !split_cons, IH. destruct (Ascii.eqb c sep); [reflexivity|].
    destruct (split sep a) as [|h t] eqn:E; [now apply split_not_nil in E | reflexivity].
Qed.

Lemma split_free (sep : ascii) (y : string) :
  free_of sep y = true -> split sep y = [y].
Proof.
  induction y as [|c y IH]; [reflexivity|].
  cbn [free_of]. intros H. apply andb_true_iff in H as [Hc Hy].
  apply negb_true_iff in Hc. rewrite split_cons, Hc, (IH Hy). reflexivity.
Qed.

(** The fields of a split hold no separator. *)
Lemma split_fields_free (sep : ascii) (s y : string) :
  In y (split sep s) -> free_of sep y = true.
Proof.
  revert y. induction s as [|c s IH]; intros y H.
  - destruct H as [<- | []]. reflexivity.
  - rewrite split_cons in H. destruct (Ascii.eqb c sep) eqn:E.
    + destruct H as [<- | H]; [reflexivity | now apply IH].
    + destruct (split sep s) as [|h t]; [destruct H|].
      destruct H as [<- | H].
      * cbn [free_of]. rewrite E. cbn [negb andb]. apply IH. now left.
      * apply IH. now right.
Qed.

Lemma split_join (sep : ascii) (ls : list string) :
  ls <> [] ->
  split sep (join (String sep "") ls) = flat_map (split sep) ls.
Proof.
  induction ls as [|x ls IH]; [congruence|]. intros _.
  destruct ls as [|y ls].
  - unfold join. cbn [String.concat flat_map]. now rewrite app_nil_r.
  - change (join (String sep "") (x :: y :: ls))
      with (x ++ String sep "" ++ join (String sep "") (y :: ls)).
    rewrite split_app_sep, IH by discriminate. reflexivity.
Qed.

Lemma flat_map_split_fields (sep : ascii) (ls : list string) :
  (forall y, In y ls -> free_of sep y = true) ->
  flat_map (split sep) ls = ls.
Proof.
  induction ls as [|x ls IH]; intros H; [reflexivity|].
  cbn [flat_map]. rewrite (split_free sep x) by (apply H; now left).
  cbn [app]. f_equal. apply IH. intros y Hy. apply H. now right.
Qed.

Lemma list_insert_not_nil {A : Type} (i : nat) (x : A) (l : list A) :
  list_insert i x l <> [].
Proof. unfold list_insert. destruct (firstn i l); discriminate. Qed.

(** The lines of a text after a text was inserted among its lines. *)
Lemma split_join_insert (sep : ascii) (s x : string) (i : nat) :
  split sep (join (String sep "") (list_insert i x (split sep s))) =
  (firstn i (split sep s) ++ split sep x ++ skipn i (split sep s))%list.
Proof.
  rewrite split_join by apply list_insert_not_nil.
  unfold list_insert. rewrite flat_map_app. cbn [flat_map].
  rewrite !flat_map_split_fields; [reflexivity | |].
  - intros y Hy. apply (split_fields_free sep s).
    rewrite <- (firstn_skipn i (split sep s)). apply in_or_app. now right.
  - intros y Hy. apply (split_fields_free sep s).
    rewrite <- (firstn_skipn i (split sep s)). apply in_or_app. now left.
Qed.

Lemma contains_lines (sep : ascii) (p s : string) :
  free_of sep p = true ->
  contains p s = true <-> exists line, In line (split sep s) /\ contains p line = true.
Proof.
  intros Hp. split.
  - now apply contains_split.
  - intros (line & Hin & Hc). now apply contains_of_line with sep line.
Qed.

Lemma lower_app (a b : string) : lower (a ++ b) = lower a ++ lower b.
Proof. induction a as [|c a IH]; simpl; [reflexivity | now rewrite IH]. Qed.

Lemma startswith_true_iff (s p : string) :
  startswith s p = true <-> exists b, s = p ++ b.
Proof.
  split; [apply startswith_inv|]. intros [b ->]. apply startswith_app.
Qed.

(** *** Stripping and splitting by a text *)

Lemma startswith_app_l (x y p : string) :
  startswith x p = true -> startswith (x ++ y) p = true.
Proof.
  intros H. apply startswith_inv in H as [b ->]. rewrite append_assoc.
  apply startswith_app.
Qed.

(** A prefix of [u ++ v] is a prefix of [u], or [u] is a prefix of it. *)
Lemma startswith_app_cases (u v p : string) :
  startswith (u ++ v) p = true ->
  startswith u p = true \/ exists p2, p = u ++ p2.
Proof.
  revert p. induction u as [|c u IH]; intros p H.
  - right. now exists p.
  - destruct p as [|d p]; [left; reflexivity|].
    cbn [append startswith] in H. apply andb_true_iff in H as [Hc H].
    apply Ascii.eqb_eq in Hc. subst d. destruct (IH _ H) as [H1 | [p2 ->]].
    + left. cbn [startswith]. now rewrite Ascii.eqb_refl.
    + right. now exists p2.
Qed.

Lemma contains_nil (sep : string) : sep <> "" -> contains sep "" = false.
Proof. destruct sep; [congruence | reflexivity]. Qed.

Lemma contains_cons (sep : string) (c : ascii) (s : string) :
  contains sep (String c s) = startswith (String c s) sep || contains sep s.
Proof. reflexivity. Qed.

Lemma lstrip_suffix (s : string) : exists w, s = w ++ lstrip s.
Proof.
  induction s as [|c s [w IH]]; [now exists ""|].
  cbn [lstrip]. destruct (is_space c).
  - exists (String c w). cbn [append]. now rewrite <- IH.
  - now exists "".
Qed.

Lemma rstrip_prefix (s : string) : exists w, s = rstrip s ++ w.
Proof.
  induction s as [|c s [w IH]]; [now exists ""|].
  cbn [rstrip]. destruct (rstrip s) as [|d r].
  - destruct (is_space c).
    + now exists (String c s).
    + exists w. cbn [append] in *. now rewrite <- IH.
  - exists w. cbn [append] in *. now rewrite <- IH.
Qed.

(** What occurs in a stripped text occurs in the text. *)
Lemma contains_strip (p s : string) :
  contains p (strip s) = true -> contains p s = true.
Proof.
  unfold strip. intros H.
  destruct (lstrip_suffix s) as [w1 E1]. destruct (rstrip_prefix (lstrip s)) as [w2 E2].
  rewrite E1, E2. now apply contains_app_r, contains_app_l.
Qed.

(** The first field of a split is a prefix of the text (after the
    characters to skip), and no field holds the separator. *)
Lemma split_str_from_spec (sep s : string) (skip : nat) :
  sep <> "" ->
  (exists rest, drop skip s = fst (split_str_from skip sep s) ++ rest) /\
  contains sep (fst (split_str_from skip sep s)) = false /\
  (forall f, In f (snd (split_str_from skip sep s)) -> contains sep f = false).
Proof.
  intros Hsep. revert skip. induction s as [|c s IH]; intros skip.
  - cbn [split_str_from fst snd]. repeat split.
    + exists "". now destruct skip.
    + now apply contains_nil.
    + intros f [].
  - cbn [split_str_from]. destruct skip as [|k].
    + destruct (startswith (String c s) sep) eqn:E.
      * destruct (IH (String.length sep - 1)) as (_ & Hh & Ht).
        destruct (split_str_from (String.length sep - 1) sep s) as [h t].
        cbn [fst snd] in *. repeat split.
        -- now exists (String c s).
        -- now apply contains_nil.
        -- intros f [<- | Hf]; [exact Hh | now apply Ht].
      * destruct (IH 0) as ([rest Hrest] & Hh & Ht).
        destruct (split_str_from 0 sep s) as [h t]. cbn [fst snd] in *.
        assert (Hs : s = h ++ rest) by (now destruct s).
        repeat split.
        -- exists rest. cbn [drop append]. now rewrite <- Hs.
        -- rewrite contains_cons, Hh, orb_false_r.
           destruct (startswith (String c h) sep) eqn:E'; [|reflexivity].
           apply (startswith_app_l _ rest) in E'. cbn [append] in E'.
           rewrite <- Hs in E'. congruence.
        -- exact Ht.
    + destruct (IH k) as (Hrest & Hh & Ht). repeat split; assumption.
Qed.

Lemma split_str_fields_free (sep s f : string) :
  sep <> "" -> In f (split_str sep s) -> contains sep f = false.
Proof.
  intros Hsep. unfold split_str.
  destruct (split_str_from_spec sep s 0 Hsep) as (_ & Hh & Ht).
  destruct (split_str_from 0 sep s) as [h t]. cbn [fst snd] in *.
  intros [<- | Hf]; [exact Hh | now apply Ht].
Qed.

(** A text that holds the separator has two fields or more; one that
    does not is its only field. *)
Lemma split_str_two (sep s : string) :
  sep <> "" -> contains sep s = true -> 2 <= List.length (split_str sep s).
Proof.
  intros Hsep. unfold split_str. induction s as [|c s IH]; intros H.
  - rewrite contains_nil in H by exact Hsep. discriminate H.
  - cbn [split_str_from]. destruct (startswith (String c s) sep) eqn:E.
    + destruct (split_str_from (String.length sep - 1) sep s). cbn [List.length]. lia.
    + rewrite contains_cons, E in H. cbn [orb] in H. specialize (IH H).
      destruct (split_str_from 0 sep s). cbn [List.length] in *. lia.
Qed.

Lemma split_str_none (sep s : string) :
  contains sep s = false -> split_str sep s = [s].
Proof.
  unfold split_str. induction s as [|c s IH]; intros H; [reflexivity|].
  rewrite contains_cons in H. apply orb_false_iff in H as [E H].
  cbn [split_str_from]. rewrite E. specialize (IH H).
  destruct (split_str_from 0 sep s). now injection IH as -> ->.
Qed.

(** Dropping lines of a text adds no occurrence of a text without line
    feed. *)
Lemma contains_filter_lines (p x : string) (keep : string -> bool) :
  free_of nl p = true -> p <> "" ->
  contains p (join NL (filter keep (split nl x))) = true ->
  contains p x = true.
Proof.
  intros Hfree Hne H.
  destruct (filter keep (split nl x)) as [|l ls] eqn:F.
  - change (join NL []) with "" in H. rewrite contains_nil in H by exact Hne.
    discriminate.
  - apply (contains_lines nl) in H as (line & Hin & Hc); [|exact Hfree].
    unfold NL in Hin. rewrite split_join in Hin by discriminate.
    apply in_flat_map in Hin as (y & Hy & Hin).
    assert (Hyx : In y (split nl x)).
    { assert (Hy' : In y (filter keep (split nl x))) by (rewrite F; exact Hy).
      now apply filter_In in Hy'. }
    rewrite (split_free nl y) in Hin by (now apply split_fields_free with x).
    destruct Hin as [<- | []]. now apply contains_of_line with nl y.
Qed.

Lemma split_str_from_skip (sep x y : string) (k : nat) :
  split_str_from (String.length x + k) sep (x ++ y) = split_str_from k sep y.
Proof. induction x as [|c x IH]; [reflexivity | exact IH]. Qed.

(** A text that starts with the separator: an empty first field. *)
Lemma split_str_at_sep (sep b : string) :
  sep <> "" ->
  split_str_from 0 sep (sep ++ b) = ("", split_str sep b).
Proof.
  destruct sep as [|c sep]; [congruence|]. intros _.
  change (String c sep ++ b) with (String c (sep ++ b)).
  cbn [split_str_from].
  change (String c (sep ++ b)) with (String c sep ++ b) at 1.
  rewrite startswith_app. cbn [String.length Nat.sub].
  rewrite Nat.sub_0_r, <- (Nat.add_0_r (String.length sep)), split_str_from_skip.
  unfold split_str. now destruct (split_str_from 0 (String c sep) b).
Qed.

(** A text in front of which no separator starts joins the first field. *)
Lemma split_str_from_peel (sep a y : string) :
  (forall a1 a2, a = a1 ++ a2 -> a2 <> "" -> startswith (a2 ++ y) sep = false) ->
  split_str_from 0 sep (a ++ y) =
  (a ++ fst (split_str_from 0 sep y), snd (split_str_from 0 sep y)).
Proof.
  induction a as [|c a IH]; intros H.
  - cbn [append]. now destruct (split_str_from 0 sep y).
  - change (String c a ++ y) with (String c (a ++ y)). cbn [split_str_from].
    change (String c (a ++ y)) with (String c a ++ y).
    rewrite (H "" (String c a) eq_refl) by discriminate.
    rewrite IH; [reflexivity|].
    intros a1 a2 -> Hne. now apply (H (String c a1) a2).
Qed.

Lemma append_last (a1 a2 a0 : string) (c : ascii) :
  a1 ++ a2 = a0 ++ String c "" -> a2 <> "" -> exists a2', a2 = a2' ++ String c "".
Proof.
  revert a0. induction a1 as [|d a1 IH]; intros a0 E Hne.
  - now exists a0.
  - destruct a0 as [|d0 a0].
    + cbn [append] in E. injection E as _ E. destruct a1; [|discriminate E].
      cbn [append] in E. congruence.
    + cbn [append] in E. injection E as _ E. now apply IH with a0.
Qed.

(** In front of a text that ends with a character foreign to the
    separator and does not hold the separator, no separator starts. *)
Lemma no_sep_starts (sep a0 a1 a2 y : string) (c : ascii) :
  free_of c sep = true ->
  contains sep (a0 ++ String c "") = false ->
  a0 ++ String c "" = a1 ++ a2 -> a2 <> "" ->
  startswith (a2 ++ y) sep = false.
Proof.
  intros Hfree Hno E Hne.
  destruct (startswith (a2 ++ y) sep) eqn:S; [|reflexivity].
  apply startswith_app_cases in S as [S | [p2 Hp]].
  - assert (C : contains sep a2 = true) by (destruct a2; cbn [contains]; now rewrite S).
    rewrite E in Hno.
    now rewrite (contains_app_r sep a1 a2 C) in Hno.
  - symmetry in E. destruct (append_last _ _ _ _ E Hne) as [a2' ->].
    rewrite Hp, !free_of_app in Hfree. cbn [free_of] in Hfree.
    rewrite Ascii.eqb_refl in Hfree. cbn [negb andb] in Hfree.
    now rewrite andb_false_r in Hfree.
Qed.

Lemma lstrip_app (pre x : string) (c : ascii) :
  is_space c = false -> lstrip (pre ++ String c x) = lstrip pre ++ String c x.
Proof.
  intros Hc. induction pre as [|d pre IH].
  - cbn [append lstrip]. now rewrite Hc.
  - cbn [append lstrip]. destruct (is_space d); [exact IH | reflexivity].
Qed.

Lemma rstrip_app (y post : string) (c : ascii) :
  is_space c = false -> rstrip (y ++ String c post) = y ++ String c (rstrip post).
Proof.
  intros Hc. induction y as [|d y IH].
  - cbn [append rstrip]. destruct (rstrip post); [now rewrite Hc | reflexivity].
  - cbn [append rstrip]. rewrite IH. now destruct y.
Qed.

Lemma rstrip_space (x : string) (c : ascii) :
  is_space c = true -> rstrip (x ++ String c "") = rstrip x.
Proof.
  intros Hc. induction x as [|d x IH].
  - cbn [append rstrip]. now rewrite Hc.
  - cbn [append rstrip]. now rewrite IH.
Qed.

Lemma lstrip_length (s : string) : String.length (lstrip s) <= String.length s.
Proof.
  induction s as [|c s IH]; [apply Nat.le_refl|].
  cbn [lstrip]. destruct (is_space c); cbn [String.length]; lia.
Qed.

(** A text that [lstrip] leaves as it is is empty or starts with a
    character that is no space. *)
Lemma lstrip_fixed (s : string) :
  lstrip s = s -> s = "" \/ exists c s', s = String c s' /\ is_space c = false.
Proof.
  destruct s as [|c s]; [now left|]. cbn [lstrip]. intros H. right.
  destruct (is_space c) eqn:E; [|now exists c, s].
  pose proof (lstrip_length s) as L. rewrite H in L. cbn [String.length] in L. lia.
Qed.

Lemma startswith_app_both (a x p : string) :
  startswith (a ++ x) (a ++ p) = startswith x p.
Proof.
  induction a as [|c a IH]; [reflexivity|].
  cbn [append startswith]. now rewrite Ascii.eqb_refl, IH.
Qed.

Lemma contains_prefix (p s : string) : startswith s p = true -> contains p s = true.
Proof. intros H. destruct s; cbn [contains]; now rewrite H. Qed.

(** *** Words and single spaces *)

Lemma no_space_single_spaced (w t : string) :
  no_space w = true -> single_spaced t = true -> single_spaced (w ++ t) = true.
Proof.
  induction w as [|c w IH]; cbn [append no_space single_spaced]; intros Hw Ht; [exact Ht|].
  apply andb_prop in Hw. destruct Hw as [Hc Hw].
  rewrite Hc, (IH Hw Ht). reflexivity.
Qed.

Lemma space_ahead_app (w t : string) :
  w <> "" -> no_space w = true -> space_ahead (w ++ t) = false.
Proof.
  destruct w as [|c w]; [congruence|]. cbn [append no_space space_ahead].
  intros _ H. apply andb_prop in H. destruct H as [H _].
  now apply negb_true_iff in H.
Qed.

Lemma single_spaced_join (ws : list string) :
  Forall (fun w => w <> "" /\ no_space w = true) ws ->
  single_spaced (join " " ws) = true /\ space_ahead (join " " ws) = false.
Proof.
  unfold join. induction 1 as [|w ws [Hne Hw] Hws [IH1 IH2]]; [split; reflexivity|].
  cbn [String.concat]. destruct ws as [|w2 ws'].
  - split.
    + rewrite <- (append_nil_r w). now apply no_space_single_spaced.
    + rewrite <- (append_nil_r w). now apply space_ahead_app.
  - split.
    + apply no_space_single_spaced; [exact Hw|].
      cbn [append single_spaced]. rewrite IH1, IH2. reflexivity.
    + now apply space_ahead_app.
Qed.

Lemma split_runs_words (s : string) :
  no_space (fst (split_runs s)) = true /\
  Forall (fun w => w <> "" /\ no_space w = true) (snd (split_runs s)).
Proof.
  induction s as [|c s [IH1 IH2]]; cbn [split_runs]; [split; [reflexivity | constructor]|].
  destruct (split_runs s) as [w ws]. cbn [fst snd] in *.
  destruct (is_space c) eqn:E; cbn [fst snd].
  - split; [reflexivity|]. destruct w; [exact IH2|].
    constructor; [split; [discriminate | exact IH1] | exact IH2].
  - split; [|exact IH2]. cbn [no_space]. now rewrite E, IH1.
Qed.

Lemma split_ws_words (s : string) :
  Forall (fun w => w <> "" /\ no_space w = true) (split_ws s).
Proof.
  unfold split_ws. destruct (split_runs_words s) as [H1 H2].
  destruct (split_runs s) as [w ws]. cbn [fst snd] in *.
  destruct w; [exact H2|]. constructor; [split; [discriminate | exact H1] | exact H2].
Qed.

(** The two readings of [s.split()] agree: [count_words] is the number
    of words of [split_ws]. *)
Lemma count_words_split_runs (s : string) :
  count_words false s = List.length (split_ws s) /\
  count_words true s =
    List.length (snd (split_runs s)).
Proof.
  unfold split_ws. induction s as [|c s [IH1 IH2]]; cbn [count_words split_runs]; [split; reflexivity|].
  destruct (split_runs s) as [w ws]. cbn [fst snd] in *.
  destruct (is_space c); cbn [snd].
  - rewrite IH1. split; reflexivity.
  - rewrite IH2. split; reflexivity.
Qed.

Lemma single_spaced_tail (c : ascii) (s : string) :
  single_spaced (String c s) = true -> single_spaced s = true.
Proof. cbn [single_spaced]. intros H. now apply andb_prop in H. Qed.

Lemma single_spaced_lstrip_chars (chars s : string) :
  single_spaced s = true -> single_spaced (lstrip_chars chars s) = true.
Proof.
  induction s as [|c s IH]; intros H; [reflexivity|]. cbn [lstrip_chars].
  destruct (mem_char c chars); [apply IH; now apply single_spaced_tail in H | exact H].
Qed.

Lemma rstrip_chars_head (chars s : string) (d : ascii) (r : string) :
  rstrip_chars chars s = String d r -> exists t, s = String d t.
Proof.
  destruct s as [|c s]; [discriminate|]. cbn [rstrip_chars].
  destruct (rstrip_chars chars s).
  - destruct (mem_char c chars); [discriminate|]. intros [= <- _]. eauto.
  - intros [= <- _]. eauto.
Qed.

Lemma single_spaced_rstrip_chars (chars s : string) :
  single_spaced s = true -> single_spaced (rstrip_chars chars s) = true.
Proof.
  induction s as [|c s IH]; intros H; [reflexivity|].
  cbn [single_spaced] in H. apply andb_prop in H. destruct H as [Hc Hs].
  specialize (IH Hs). cbn [rstrip_chars].
  destruct (rstrip_chars chars s) as [|d r] eqn:E.
  - destruct (mem_char c chars); [reflexivity|].
    cbn [single_spaced space_ahead]. rewrite andb_true_r.
    destruct (is_space c); [|reflexivity]. cbn [negb orb andb] in *.
    apply andb_prop in Hc. destruct Hc as [Hc _]. now rewrite Hc.
  - destruct (rstrip_chars_head _ _ _ _ E) as [t ->].
    change (single_spaced (String c (String d r)))
      with ((negb (is_space c) || (Ascii.eqb c " " && negb (is_space d)))
            && single_spaced (String d r)).
    rewrite IH. cbn [space_ahead] in Hc. now rewrite Hc.
Qed.

Lemma is_space_lower_char (c : ascii) : is_space (lower_char c) = is_space c.
Proof. destruct c as [[] [] [] [] [] [] [] []]; vm_compute; reflexivity. Qed.

Lemma no_space_lower (u w : string) :
  lower u = lower w -> no_space w = true -> no_space u = true.
Proof.
  revert w. induction u as [|c u IH]; intros [|d w]; cbn [lower no_space];
    try discriminate; [reflexivity|].
  intros [= Hc Hu] H. apply andb_prop in H. destruct H as [Hd Hw].
  rewrite (IH _ Hu Hw), andb_true_r.
  now rewrite <- is_space_lower_char, Hc, is_space_lower_char.
Qed.

End PyStrFacts.

(** ** Facts about the matcher *)

Module PyReFacts.
Import PyStr PyStrFacts PyRe.

(** What the loop of a repetition hands to its continuation. *)
Lemma star_loop_sound {R : Type} (r1 : regex) (k : string -> option R) (x : R)
  (loop : nat -> string -> option R) :
  (forall s (k' : string -> option R),
      rmatch r1 s k' = Some x ->
      exists a s', s = a ++ s' /\ matches r1 a /\ k' s' = Some x) ->
  (forall fuel s0,
      loop fuel s0 =
      match fuel with
      | O => k s0
      | S fuel' =>
          match rmatch r1 s0 (fun s1 =>
                  if String.length s1 <? String.length s0
                  then loop fuel' s1 else None) with
          | Some y => Some y
          | None => k s0
          end
      end) ->
  forall fuel s0,
    loop fuel s0 = Some x ->
    exists a s', s0 = a ++ s' /\ matches (Star r1) a /\ k s' = Some x.
Proof.
  intros IH Hloop fuel. induction fuel as [|fuel IHf]; intros s0 H; rewrite Hloop in H.
  - exists "", s0. repeat split; [constructor | exact H].
  - destruct (rmatch r1 s0 _) as [y|] eqn:M.
    + injection H as ->. apply IH in M as (a & s1 & -> & Ha & Hk).
      destruct (String.length s1 <? String.length (a ++ s1)); [|discriminate].
      apply IHf in Hk as (b & s' & -> & Hb & Hk).
      exists (a ++ b), s'. rewrite append_assoc.
      repeat split; [now constructor | exact Hk].
    + exists "", s0. repeat split; [constructor | exact H].
Qed.

(** The matcher is sound: what it hands to its continuation is what is
    left of the text after a part that the pattern matches. *)
Lemma rmatch_sound {R : Type} (r : regex) :
  forall (s : string) (k : string -> option R) (x : R),
    rmatch r s k = Some x ->
    exists a s', s = a ++ s' /\ matches r a /\ k s' = Some x.
Proof.
  induction r as [| c | | | r1 IH1 r2 IH2 | r1 IH1 r2 IH2 | r1 IH1 | r1 IH1 | r1 IH1];
    intros s k x H.
  - exists "", s. repeat split; [constructor | exact H].
  - destruct s as [|c' s]; [discriminate|]. cbn [rmatch] in H.
    destruct (char_matches (Lit c) c') eqn:E; [|discriminate].
    exists (String c' ""), s. repeat split; [now constructor | exact H].
  - destruct s as [|c' s]; [discriminate|]. cbn [rmatch] in H.
    destruct (char_matches Digit c') eqn:E; [|discriminate].
    exists (String c' ""), s. repeat split; [now constructor | exact H].
  - destruct s as [|c' s]; [discriminate|]. cbn [rmatch] in H.
    destruct (char_matches Space c') eqn:E; [|discriminate].
    exists (String c' ""), s. repeat split; [now constructor | exact H].
  - cbn [rmatch] in H. apply IH1 in H as (a & s1 & -> & Ha & H).
    apply IH2 in H as (b & s2 & -> & Hb & H).
    exists (a ++ b), s2. rewrite append_assoc. repeat split; [now constructor | exact H].
  - cbn [rmatch] in H. destruct (rmatch r1 s k) as [y|] eqn:M.
    + injection H as ->. apply IH1 in M as (a & s' & -> & Ha & Hk).
      exists a, s'. repeat split; [now apply matches_alt_l | exact Hk].
    + apply IH2 in H as (a & s' & -> & Ha & Hk).
      exists a, s'. repeat split; [now apply matches_alt_r | exact Hk].
  - cbn [rmatch] in H. destruct (rmatch r1 s k) as [y|] eqn:M.
    + injection H as ->. apply IH1 in M as (a & s' & -> & Ha & Hk).
      exists a, s'. repeat split; [now apply matches_opt_some | exact Hk].
    + exists "", s. repeat split; [apply matches_opt_none | exact H].
  - cbn [rmatch] in H.
    eapply (star_loop_sound r1 k x) in H; [exact H | intros; now apply IH1 |].
    intros [|fuel] s0; reflexivity.
  - cbn [rmatch] in H. apply IH1 in H as (a & s1 & -> & Ha & H).
    eapply (star_loop_sound r1 k x) in H; [| intros; now apply IH1 |].
    + destruct H as (b & s' & -> & Hb & Hk).
      exists (a ++ b), s'. rewrite append_assoc. repeat split; [now constructor | exact Hk].
    + intros [|fuel] s0; reflexivity.
Qed.

(** Inversion of [matches] at a pattern whose shape is known. *)
Ltac invert_matches H :=
  inversion H; subst; clear H;
  try match goal with
      | E : char_matches _ _ = true |- _ => now (cbn [char_matches] in E; discriminate E)
      end.

(** A text matched by the pattern of a word is the word, up to case. *)
Lemma matches_word (w a : string) :
  matches (word w) a -> lower a = lower w.
Proof.
  revert a. induction w as [|c w IH]; intros a H; cbn [word] in H.
  - invert_matches H. reflexivity.
  - invert_matches H.
    match goal with
    | H1 : matches (Lit c) _, H2 : matches (word w) _ |- _ =>
        pose proof (IH _ H2) as Hrest; invert_matches H1
    end.
    match goal with
    | E : char_matches (Lit c) _ = true |- _ =>
        cbn [char_matches] in E; apply Ascii.eqb_eq in E
    end.
    cbn [append lower]. now f_equal.
Qed.

(** A text matched by an alternation of words is one of the words, up
    to case. *)
Lemma matches_alternatives (ws : list string) (a : string) :
  ws <> [] ->
  matches (alternatives ws) a ->
  exists w, In w ws /\ lower a = lower w.
Proof.
  induction ws as [|w ws IH]; [congruence|]. intros _ H.
  destruct ws as [|w' ws].
  - change (alternatives [w]) with (word w) in H.
    exists w. split; [now left | now apply matches_word].
  - change (alternatives (w :: w' :: ws))
      with (Alt (word w) (alternatives (w' :: ws))) in H.
    invert_matches H.
    + exists w. split; [now left | now apply matches_word].
    + assert (Hne : w' :: ws <> []) by discriminate.
      match goal with
      | H2 : matches _ a |- _ =>
          destruct (IH Hne H2) as (u & Hin & E)
      end.
      exists u. split; [now right | exact E].
Qed.

Lemma digits_only_app (a b : string) :
  digits_only (a ++ b) = digits_only a && digits_only b.
Proof.
  induction a as [|c a IH]; cbn [append digits_only]; [reflexivity|].
  now rewrite IH, andb_assoc.
Qed.

Lemma matches_digit (a : string) :
  matches Digit a -> digits_only a = true /\ a <> "".
Proof.
  intros H. invert_matches H.
  match goal with
  | E : char_matches Digit _ = true |- _ => cbn [char_matches] in E
  end.
  cbn [digits_only]. split; [now rewrite andb_true_r | discriminate].
Qed.

Lemma matches_star_digit (r : regex) (a : string) :
  matches r a -> r = Star Digit -> digits_only a = true.
Proof.
  induction 1 as [| r c Hc | | | | | | | r a b Ha _ Hb IH |]; intros E;
    try discriminate E.
  - subst r. discriminate Hc.
  - reflexivity.
  - injection E as ->. rewrite digits_only_app, (IH eq_refl).
    now rewrite (proj1 (matches_digit _ Ha)).
Qed.

Lemma append_not_nil_l (a b : string) : a <> "" -> a ++ b <> "".
Proof. destruct a; [congruence | discriminate]. Qed.

Lemma matches_plus_digit (a : string) :
  matches (Plus Digit) a -> digits_only a = true /\ a <> "".
Proof.
  intros H. invert_matches H.
  match goal with
  | H1 : matches Digit _, H2 : matches (Star Digit) _ |- _ =>
      destruct (matches_digit _ H1) as [D1 N1];
      pose proof (matches_star_digit _ _ H2 eq_refl) as D2
  end.
  split; [now rewrite digits_only_app, D1, D2 | now apply append_not_nil_l].
Qed.

End PyReFacts.

(** ** The validator *)

Module CodeValidatorSpec.
Import PyStr PyStrFacts CodeValidator.

(** The three kinds of message differ in their first character, and a
    message determines the text it was built from. *)
Lemma dangerous_msg_inj (a b : string) : dangerous_msg a = dangerous_msg b -> a = b.
Proof. apply append_inj_l. Qed.

Lemma file_op_msg_inj (a b : string) : file_op_msg a = file_op_msg b -> a = b.
Proof. apply append_inj_l. Qed.

Lemma file_op_not_dangerous (a b : string) : file_op_msg a <> dangerous_msg b.
Proof. discriminate. Qed.

Lemma file_op_not_network (a b : string) : file_op_msg a <> network_msg b.
Proof. discriminate. Qed.

Lemma In_dangerous_issues (code d : string) :
  In d DANGEROUS_IMPORTS -> contains d code = true ->
  In (dangerous_msg d) (dangerous_issues code).
Proof.
  intros Hd Hc. unfold dangerous_issues. apply in_map, filter_In. now split.
Qed.

Lemma In_file_op_issues (code op : string) :
  In (file_op_msg op) (file_op_issues code) <->
  In op file_ops /\ file_op_flagged code op = true.
Proof.
  unfold file_op_issues. rewrite in_map_iff. split.
  - intros (op' & E & Hin). apply file_op_msg_inj in E; subst op'.
    now apply filter_In in Hin.
  - intros H. exists op. split; [reflexivity | now apply filter_In].
Qed.

(** A file-operation message is among the issues exactly when its loop
    put it there. *)
Lemma In_check_security_file_op (code op : string) :
  In (file_op_msg op) (snd (_check_security code)) <->
  In op file_ops /\ file_op_flagged code op = true.
Proof.
  unfold _check_security. cbn [snd]. rewrite !in_app_iff, In_file_op_issues.
  split; [|tauto].
  intros [H | [H | H]]; [|exact H|].
  - unfold dangerous_issues in H. apply in_map_iff in H as (d & E & _).
    symmetry in E. now apply file_op_not_dangerous in E.
  - unfold network_issues in H. apply in_map_iff in H as (d & E & _).
    symmetry in E. now apply file_op_not_network in E.
Qed.

Lemma length_eqb_0 {A : Type} (l : list A) :
  (List.length l =? 0) = true <-> l = [].
Proof. destruct l; simpl; split; congruence. Qed.

Section Reports.

Variable ast_parse : string -> parse_outcome.

(** The report on a text that parses: the issues of the security scan are
    the errors, the warnings are those of the two later stages. *)
Lemma validate_parsed (code : string) :
  ast_parse code = Parsed ->
  validate ast_parse code =
  (List.length (snd (_check_security code)) =? 0,
   snd (_check_security code),
   (_check_imports code ++ _check_blender_api code)%list).
Proof.
  intros H. unfold validate, _check_syntax. rewrite H. cbn [negb].
  unfold _check_security. cbn [snd app].
  destruct (dangerous_issues code ++ file_op_issues code ++ network_issues code)%list;
    reflexivity.
Qed.

Lemma validate_syntax_error (code : string) (lineno : option nat) (msg : string) :
  ast_parse code = RaisedSyntaxError lineno msg ->
  validate ast_parse code = (false, [syntax_error_msg lineno msg], []).
Proof. intros H. unfold validate, _check_syntax. now rewrite H. Qed.

Lemma validate_exception (code text : string) :
  ast_parse code = RaisedException text ->
  validate ast_parse code = (false, [parsing_error_msg text], []).
Proof. intros H. unfold validate, _check_syntax. now rewrite H. Qed.

End Reports.

(** *** Syntax errors end the validation *)

(** C2, as the code has it: on every text the parser raises on, [validate]
    returns [is_valid = false], exactly one error and no warning, whatever
    the later checks would have said about the text.  The error is
    "Syntax Error at line L: M" when the parser raised [SyntaxError] with
    line number [L] and message [M]; when it raised another exception the
    error is "Parsing Error: " followed by the exception's text, and names
    no line. *)
Theorem validate_stops_at_parse_failure
  (ast_parse : string -> parse_outcome) (code : string) :
  ast_parse code <> Parsed ->
  exists error,
    validate ast_parse code = (false, [error], []) /\
    (forall lineno msg,
        ast_parse code = RaisedSyntaxError lineno msg ->
        error = syntax_error_msg lineno msg) /\
    (forall text,
        ast_parse code = RaisedException text ->
        error = parsing_error_msg text).
Proof.
  intros Hfail. destruct (ast_parse code) as [|lineno msg|text] eqn:E.
  - now destruct Hfail.
  - exists (syntax_error_msg lineno msg). split; [|split].
    + now apply validate_syntax_error.
    + intros l m H. now injection H as <- <-.
    + discriminate.
  - exists (parsing_error_msg text). split; [|split].
    + now apply validate_exception.
    + discriminate.
    + intros t H. now injection H as <-.
Qed.

(** The text "1 +" gives the one error "Syntax Error at line 1: invalid
    syntax"; the unfinished call "os.system(" gives one error too, and the
    security scan that would flag it does not run. *)
Lemma validate_stops_at_parse_failure_witness :
  (exists error,
      validate sample_parse text_unfinished_sum = (false, [error], []) /\
      (forall lineno msg,
          sample_parse text_unfinished_sum = RaisedSyntaxError lineno msg ->
          error = syntax_error_msg lineno msg) /\
      (forall text,
          sample_parse text_unfinished_sum = RaisedException text ->
          error = parsing_error_msg text)) /\
  validate sample_parse text_unfinished_sum =
    (false, ["Syntax Error at line 1: invalid syntax"], []) /\
  validate sample_parse text_unclosed_call =
    (false, ["Syntax Error at line 1: '(' was never closed"], []) /\
  snd (_check_security text_unclosed_call) = [dangerous_msg "os.system"].
Proof.
  split; [|repeat split; vm_compute; reflexivity].
  apply (validate_stops_at_parse_failure sample_parse text_unfinished_sum).
  vm_compute. discriminate.
Defined.

(** C2 as stated fails: CPython 3.11 raises [ValueError], not [SyntaxError],
    on a text that holds a NUL character, and the one error [validate]
    returns for it is not of the form "Syntax Error at line L: M". *)
Lemma parse_failure_without_line_number :
  sample_parse text_nul <> Parsed /\
  validate sample_parse text_nul =
    (false, ["Parsing Error: source code string cannot contain null bytes"], []) /\
  (forall lineno msg,
      "Parsing Error: source code string cannot contain null bytes"
      <> syntax_error_msg lineno msg).
Proof.
  split; [|split].
  - vm_compute. discriminate.
  - vm_compute. reflexivity.
  - intros lineno msg. unfold syntax_error_msg. simpl. discriminate.
Qed.

(** *** The report is consistent *)

(** C7: [is_valid] is true exactly when [errors] is empty, on the early
    return after a parse failure and on the normal return. *)
Theorem validate_valid_iff_no_errors
  (ast_parse : string -> parse_outcome) (code : string) :
  is_valid_of (validate ast_parse code) = true <->
  errors_of (validate ast_parse code) = [].
Proof.
  destruct (ast_parse code) as [|lineno msg|text] eqn:E.
  - rewrite (validate_parsed _ _ E). unfold is_valid_of, errors_of. cbn [fst snd].
    apply length_eqb_0.
  - rewrite (validate_syntax_error _ _ _ _ E). unfold is_valid_of, errors_of.
    cbn [fst snd]. split; discriminate.
  - rewrite (validate_exception _ _ _ E). unfold is_valid_of, errors_of.
    cbn [fst snd]. split; discriminate.
Qed.

(** *** Dangerous operations *)

Lemma dangerous_rejected
  (ast_parse : string -> parse_outcome) (code d : string) :
  ast_parse code = Parsed ->
  In d DANGEROUS_IMPORTS ->
  contains d code = true ->
  is_valid_of (validate ast_parse code) = false /\
  In (dangerous_msg d) (errors_of (validate ast_parse code)).
Proof.
  intros Hp Hd Hc. rewrite (validate_parsed _ _ Hp).
  unfold is_valid_of, errors_of. cbn [fst snd].
  assert (Hin : In (dangerous_msg d) (snd (_check_security code))).
  { unfold _check_security. cbn [snd]. apply in_or_app. left.
    now apply In_dangerous_issues. }
  split; [|exact Hin].
  destruct (snd (_check_security code)); [destruct Hin | reflexivity].
Qed.

(** C8: a text that parses and contains [os.system] is rejected, with the
    error "Dangerous operation detected: os.system". *)
Theorem os_system_rejected
  (ast_parse : string -> parse_outcome) (code : string) :
  ast_parse code = Parsed ->
  contains "os.system" code = true ->
  is_valid_of (validate ast_parse code) = false /\
  In "Dangerous operation detected: os.system" (errors_of (validate ast_parse code)).
Proof.
  intros Hp Hc. apply (dangerous_rejected ast_parse code "os.system" Hp); [|exact Hc].
  simpl; tauto.
Qed.

Lemma os_system_rejected_witness :
  is_valid_of (validate sample_parse text_shell_call) = false /\
  In "Dangerous operation detected: os.system"
     (errors_of (validate sample_parse text_shell_call)).
Proof.
  apply (os_system_rejected sample_parse text_shell_call); vm_compute; reflexivity.
Defined.

(** C9: a text that parses and contains [open] anywhere is rejected with
    the error "Dangerous operation detected: open"; the loop over
    [DANGEROUS_IMPORTS] does not look at comments, so this holds as well
    when [_is_in_comment] silences the file operation [open(]. *)
Theorem open_rejected_even_in_comment
  (ast_parse : string -> parse_outcome) (code : string) :
  ast_parse code = Parsed ->
  contains "open" code = true ->
  In "Dangerous operation detected: open" (snd (_check_security code)) /\
  In "Dangerous operation detected: open" (errors_of (validate ast_parse code)) /\
  is_valid_of (validate ast_parse code) = false.
Proof.
  intros Hp Hc.
  destruct (dangerous_rejected ast_parse code "open" Hp) as [Hv He];
    [simpl; tauto | exact Hc |].
  split; [|split; [exact He | exact Hv]].
  rewrite (validate_parsed _ _ Hp) in He. exact He.
Qed.

(** A text whose only [open(] is in a line comment, and one where [open]
    is part of the name [opened]. *)
Lemma open_rejected_even_in_comment_witness :
  (_is_in_comment text_open_in_comment "open(" = true /\
   ~ In (file_op_msg "open(") (errors_of (validate sample_parse text_open_in_comment))) /\
  (In "Dangerous operation detected: open" (snd (_check_security text_open_in_comment)) /\
   In "Dangerous operation detected: open"
      (errors_of (validate sample_parse text_open_in_comment)) /\
   is_valid_of (validate sample_parse text_open_in_comment) = false) /\
  snd (_check_security "opened = 1") = ["Dangerous operation detected: open"].
Proof.
  split; [|split].
  - split; [vm_compute; reflexivity|].
    vm_compute. intros [H | []]. discriminate.
  - apply (open_rejected_even_in_comment sample_parse text_open_in_comment);
      vm_compute; reflexivity.
  - vm_compute. reflexivity.
Defined.

(** *** File operations in comments *)

(** What the loop of [_is_in_comment] decides, for a pattern that does
    not start with the comment marker. *)
Lemma in_comment_lines_spec (lines : list string) (c : ascii) (op : string) :
  c <> "#"%char ->
  in_comment_lines lines (String c op) = true <->
  forall line i,
    In line lines -> occurs_at (String c op) line i ->
    exists j, j < i /\ occurs_at "#" line j.
Proof.
  intros Hc. induction lines as [|line rest IH]; cbn [in_comment_lines].
  - split; [intros _ line i [] | reflexivity].
  - destruct (contains (String c op) line) eqn:Cop.
    + destruct (find_contains _ _ Cop) as [p Fp].
      destruct (find_Some _ _ _ Fp) as [Hp Hmin].
      destruct (contains "#" line) eqn:Ch; cbn [negb orb].
      * destruct (find_contains _ _ Ch) as [h Fh].
        destruct (find_Some _ _ _ Fh) as [Hh Hhmin].
        unfold index_lt. rewrite Fp, Fh.
        destruct (p <? h) eqn:Lt.
        -- split; [discriminate|]. intros H.
           destruct (H line p (or_introl eq_refl) Hp) as (j & Hj & Hoc).
           apply Hhmin in Hoc. apply Nat.ltb_lt in Lt. lia.
        -- apply Nat.ltb_ge in Lt. rewrite IH. split.
           ++ intros H l i [<- | Hin] Hoc; [|now apply H].
              exists h. split; [|exact Hh].
              pose proof (Hmin _ Hoc) as Hpi.
              destruct (Nat.eq_dec h i) as [->|]; [|lia].
              exfalso. apply Hc. symmetry.
              exact (occurs_at_same_offset _ _ _ _ _ _ Hh Hoc).
           ++ intros H l i Hin. apply H. now right.
      * split; [discriminate|]. intros H.
        destruct (H line p (or_introl eq_refl) Hp) as (j & _ & Hoc).
        assert (contains "#" line = true) by (apply contains_occurs; now exists j).
        congruence.
    + rewrite IH. split.
      * intros H l i [<- | Hin] Hoc; [|now apply H].
        assert (contains (String c op) line = true) by (apply contains_occurs; now exists i).
        congruence.
      * intros H l i Hin. apply H. now right.
Qed.

(** The patterns of the file-operation loop hold no line feed and do not
    start with the comment marker. *)
Lemma file_ops_shape (op : string) :
  In op file_ops ->
  free_of nl op = true /\ exists c op', op = String c op' /\ c <> "#"%char.
Proof.
  intros H. simpl in H.
  repeat (destruct H as [<- | H];
          [split; [reflexivity | eexists _, _; split; [reflexivity | discriminate]]|]).
  destruct H.
Qed.

Lemma is_in_comment_spec (code op : string) :
  In op file_ops ->
  _is_in_comment code op = true <-> only_after_marker code op.
Proof.
  intros H. destruct (file_ops_shape _ H) as (_ & c & op' & -> & Hc).
  unfold _is_in_comment, only_after_marker. now apply in_comment_lines_spec.
Qed.

Lemma file_op_flagged_spec (code op : string) :
  In op file_ops ->
  (only_after_marker code op -> file_op_flagged code op = false) /\
  (before_any_marker code op -> file_op_flagged code op = true).
Proof.
  intros H. unfold file_op_flagged. split.
  - intros Hs. apply (is_in_comment_spec _ _ H) in Hs. rewrite Hs.
    apply andb_false_r.
  - intros (line & i & Hin & Hoc & Hbefore).
    assert (Hline : contains op line = true) by (apply contains_occurs; now exists i).
    rewrite (contains_of_line nl op code line Hin Hline). cbn [andb].
    destruct (_is_in_comment code op) eqn:E; [|reflexivity].
    apply (is_in_comment_spec _ _ H) in E.
    destruct (E line i Hin Hoc) as (j & Hj & Hmark).
    apply Hbefore in Hmark. lia.
Qed.

(** C3: for a text that parses and a file-operation pattern [op], the scan
    reports no "File operation detected" error for [op] when every
    occurrence of [op] on every line lies after a comment marker of that
    line, and reports the error when some line has an occurrence of [op]
    that no comment marker precedes. *)
Theorem file_op_comment_suppression
  (ast_parse : string -> parse_outcome) (code op : string) :
  ast_parse code = Parsed ->
  In op file_ops ->
  (only_after_marker code op ->
   ~ In (file_op_msg op) (errors_of (validate ast_parse code))) /\
  (before_any_marker code op ->
   In (file_op_msg op) (errors_of (validate ast_parse code))).
Proof.
  intros Hp Hop. rewrite (validate_parsed _ _ Hp). unfold errors_of. cbn [fst snd].
  destruct (file_op_flagged_spec code op Hop) as [Hoff Hon]. split.
  - intros Hs Hin. apply In_check_security_file_op in Hin as [_ Hf].
    rewrite (Hoff Hs) in Hf. discriminate.
  - intros Hb. apply In_check_security_file_op. split; [exact Hop | now apply Hon].
Qed.

(** In the first text [open(] stands only in a line comment; in the
    second, [remove(] stands in a comment on one line and in code on
    another; in the third, [open(] stands before and after the marker of
    the same line. *)
Lemma file_op_comment_suppression_witness :
  ~ In "File operation detected: open("
      (errors_of (validate sample_parse text_open_in_comment)) /\
  In "File operation detected: remove("
     (errors_of (validate sample_parse text_remove_twice)) /\
  errors_of (validate sample_parse text_open_in_code) =
    ["Dangerous operation detected: open"; "File operation detected: open("].
Proof.
  split; [|split; [|vm_compute; reflexivity]].
  - apply (file_op_comment_suppression sample_parse text_open_in_comment "open(").
    + vm_compute; reflexivity.
    + simpl; tauto.
    + apply is_in_comment_spec; [simpl; tauto | vm_compute; reflexivity].
  - apply (file_op_comment_suppression sample_parse text_remove_twice "remove(").
    + vm_compute; reflexivity.
    + simpl; tauto.
    + exists "old.remove(x)", 4. split; [|split].
      * vm_compute. tauto.
      * exists "old.", "x)". split; reflexivity.
      * intros j Hj.
        assert (contains "#" "old.remove(x)" = true) by (apply contains_occurs; now exists j).
        discriminate.
Defined.

(** *** Auto-fix *)

(** Inserting a line keeps every text that occurs within a line. *)
Lemma contains_after_insert (p x s : string) (i : nat) :
  free_of nl p = true ->
  contains p s = true ->
  contains p (join NL (list_insert i x (split nl s))) = true.
Proof.
  intros Hp Hc. destruct (contains_split nl p s Hp Hc) as (line & Hin & Hline).
  apply contains_join with line; [|exact Hline].
  apply In_list_insert. now right.
Qed.

Lemma contains_inserted (p x s : string) (i : nat) :
  contains p x = true ->
  contains p (join NL (list_insert i x (split nl s))) = true.
Proof.
  intros Hc. apply contains_join with x; [|exact Hc].
  apply In_list_insert. now left.
Qed.

(** The second step of [auto_fix] keeps a text that occurs within a line. *)
Lemma clearing_step_keeps (p fixed : string) :
  free_of nl p = true ->
  contains p fixed = true ->
  contains p
    (if negb (contains "bpy.ops.object.select_all" fixed)
     then join NL (list_insert (import_end_from 0 (split nl fixed) 0)
                     clear_code (split nl fixed))
     else fixed) = true.
Proof.
  intros Hp Hc. destruct (contains "bpy.ops.object.select_all" fixed); cbn [negb].
  - exact Hc.
  - now apply contains_after_insert.
Qed.

Lemma auto_fix_has_import (code : string) :
  contains "import bpy" (auto_fix code) = true \/
  contains "from bpy" (auto_fix code) = true.
Proof.
  unfold auto_fix.
  destruct (contains "import bpy" code) eqn:E1; cbn [negb andb].
  - left. now apply clearing_step_keeps.
  - destruct (contains "from bpy" code) eqn:E2; cbn [negb andb].
    + right. now apply clearing_step_keeps.
    + left. apply clearing_step_keeps; [reflexivity|].
      apply (contains_intro "" "import bpy").
Qed.

Lemma auto_fix_has_clear (code : string) :
  contains "bpy.ops.object.select_all" (auto_fix code) = true.
Proof.
  unfold auto_fix.
  set (fixed := if negb (contains "import bpy" code) && negb (contains "from bpy" code)
                then "import bpy" ++ NL ++ code else code).
  destruct (contains "bpy.ops.object.select_all" fixed) eqn:E; cbn [negb].
  - exact E.
  - apply contains_inserted. vm_compute. reflexivity.
Qed.

(** A text with an import of [bpy] and a [select_all] call is left as it is. *)
Lemma auto_fix_fixed (code : string) :
  contains "import bpy" code = true \/ contains "from bpy" code = true ->
  contains "bpy.ops.object.select_all" code = true ->
  auto_fix code = code.
Proof.
  intros Himp Hclear. unfold auto_fix.
  assert (E : negb (contains "import bpy" code) && negb (contains "from bpy" code) = false).
  { destruct Himp as [-> | ->]; [reflexivity | apply andb_false_r]. }
  rewrite E, Hclear. reflexivity.
Qed.

(** C4: a text in which [import bpy] and the clearing call are present
    comes back unchanged, so neither insertion is repeated; and [auto_fix]
    applied to its own result changes nothing, for every text. *)
Theorem auto_fix_idempotent :
  (forall code,
      contains "import bpy" code = true ->
      contains "bpy.ops.object.select_all" code = true ->
      auto_fix code = code) /\
  (forall code, auto_fix (auto_fix code) = auto_fix code).
Proof.
  split.
  - intros code Himp Hclear. apply auto_fix_fixed; [now left | exact Hclear].
  - intros code. apply auto_fix_fixed; [apply auto_fix_has_import | apply auto_fix_has_clear].
Qed.

(** The text [x = 1] gets both insertions once; a second run adds nothing. *)
Lemma auto_fix_idempotent_witness :
  auto_fix "x = 1" = "import bpy" ++ NL ++ clear_code ++ NL ++ "x = 1" /\
  auto_fix (auto_fix "x = 1") = auto_fix "x = 1" /\
  auto_fix ("import bpy" ++ NL ++ clear_code ++ NL ++ "x = 1")
  = "import bpy" ++ NL ++ clear_code ++ NL ++ "x = 1".
Proof.
  split; [vm_compute; reflexivity|]. split.
  - apply (proj2 auto_fix_idempotent "x = 1").
  - apply (proj1 auto_fix_idempotent); vm_compute; reflexivity.
Defined.

(** *** What is accepted *)

Lemma map_filter_nil {A B : Type} (f : A -> B) (p : A -> bool) (l : list A) :
  map f (filter p l) = [] <-> forall x, In x l -> p x = false.
Proof.
  induction l as [|a l IH]; cbn [filter map].
  - split; [intros _ x [] | reflexivity].
  - destruct (p a) eqn:E; cbn [map].
    + split; [discriminate|]. intros H. rewrite (H a (or_introl eq_refl)) in E. discriminate.
    + rewrite IH. split.
      * intros H x [<- | Hin]; [exact E | now apply H].
      * intros H x Hin. apply H. now right.
Qed.

Lemma file_op_not_flagged (code op : string) :
  In op file_ops ->
  file_op_flagged code op = false <-> only_after_marker code op.
Proof.
  intros H. split.
  - unfold file_op_flagged. intros E. apply andb_false_iff in E as [E | E].
    + intros line i Hin Hoc.
      assert (Hline : contains op line = true) by (apply contains_occurs; now exists i).
      rewrite (contains_of_line nl op code line Hin Hline) in E. discriminate.
    + apply negb_false_iff in E. now apply is_in_comment_spec.
  - now apply file_op_flagged_spec.
Qed.

Lemma valid_when_no_errors
  (ast_parse : string -> parse_outcome) (code : string) :
  is_valid_of (validate ast_parse code) = true <->
  errors_of (validate ast_parse code) = [].
Proof.
  destruct (ast_parse code) as [|lineno msg|text] eqn:E.
  - rewrite (validate_parsed _ _ E). apply length_eqb_0.
  - rewrite (validate_syntax_error _ _ _ _ E). split; discriminate.
  - rewrite (validate_exception _ _ _ E). split; discriminate.
Qed.

(** X1: a text is accepted exactly when it parses, holds none of the
    dangerous substrings, has every file-operation pattern only after a
    comment marker, and imports no network module. *)
Theorem validate_accepts_iff
  (ast_parse : string -> parse_outcome) (code : string) :
  is_valid_of (validate ast_parse code) = true <->
  ast_parse code = Parsed /\
  (forall dangerous, In dangerous DANGEROUS_IMPORTS -> contains dangerous code = false) /\
  (forall op, In op file_ops -> only_after_marker code op) /\
  (forall op, In op network_ops ->
              contains ("import " ++ op) code = false /\
              contains ("from " ++ op) code = false).
Proof.
  rewrite valid_when_no_errors.
  destruct (ast_parse code) as [|lineno msg|text] eqn:E.
  - rewrite (validate_parsed _ _ E). unfold errors_of, _check_security. cbn [fst snd].
    split.
    + intros H. apply app_eq_nil in H as [Hd H]. apply app_eq_nil in H as [Hf Hn].
      split; [reflexivity|]. split; [|split].
      * exact (proj1 (map_filter_nil dangerous_msg (fun d => contains d code) _) Hd).
      * intros op Hop. apply (file_op_not_flagged _ _ Hop).
        exact (proj1 (map_filter_nil file_op_msg (file_op_flagged code) _) Hf op Hop).
      * intros op Hop. apply orb_false_iff.
        exact (proj1 (map_filter_nil network_msg (network_flagged code) _) Hn op Hop).
    + intros (_ & Hd & Hf & Hn).
      assert (D : dangerous_issues code = [])
        by exact (proj2 (map_filter_nil dangerous_msg (fun d => contains d code) _) Hd).
      assert (F : file_op_issues code = []).
      { apply (proj2 (map_filter_nil file_op_msg (file_op_flagged code) file_ops)).
        intros op Hop. apply (file_op_not_flagged _ _ Hop). now apply Hf. }
      assert (N : network_issues code = []).
      { apply (proj2 (map_filter_nil network_msg (network_flagged code) network_ops)).
        intros op Hop. apply orb_false_iff. now apply Hn. }
      now rewrite D, F, N.
  - rewrite (validate_syntax_error _ _ _ _ E). unfold errors_of. cbn [fst snd].
    split; [discriminate | intros [H _]; discriminate].
  - rewrite (validate_exception _ _ _ E). unfold errors_of. cbn [fst snd].
    split; [discriminate | intros [H _]; discriminate].
Qed.

(** *** Auto-fix and the checks *)

(** The lines of the fixed text: those of the text, in their order, and
    possibly the import line and the lines of the snippet. *)
Lemma auto_fix_lines (code line : string) :
  (In line (split nl code) -> In line (split nl (auto_fix code))) /\
  (In line (split nl (auto_fix code)) ->
   In line (split nl code) \/ line = "import bpy" \/ In line (split nl clear_code)).
Proof.
  unfold auto_fix.
  set (fixed := if negb (contains "import bpy" code) && negb (contains "from bpy" code)
                then "import bpy" ++ NL ++ code else code).
  assert (Hfixed : forall l, In l (split nl fixed) <->
                             In l (split nl code) \/
                             (fixed <> code /\ l = "import bpy")).
  { intros l. subst fixed.
    destruct (negb (contains "import bpy" code) && negb (contains "from bpy" code)).
    - unfold NL. rewrite split_app_sep. cbn [app]. rewrite (split_free nl "import bpy") by reflexivity.
      cbn [app In]. split.
      + intros [<- | H]; [right; split; [|reflexivity] | now left].
        intros E. apply (f_equal String.length) in E. rewrite !length_append in E.
        cbn [String.length] in E. lia.
      + intros [H | [_ ->]]; [now right | now left].
    - split; [now left | intros [H | [H _]]; [exact H | congruence]]. }
  destruct (contains "bpy.ops.object.select_all" fixed); cbn [negb].
  - split.
    + intros H. apply Hfixed. now left.
    + intros H. apply Hfixed in H as [H | [_ H]]; [now left | right; now left].
  - unfold NL. rewrite split_join_insert. split.
    + intros H. assert (H' : In line (split nl fixed)) by (apply Hfixed; now left).
      rewrite <- (firstn_skipn (import_end_from 0 (split nl fixed) 0) (split nl fixed)) in H'.
      apply in_app_or in H' as [H' | H']; apply in_or_app; [now left | right].
      apply in_or_app. now right.
    + intros H.
      assert (H' : In line (split nl fixed) \/ In line (split nl clear_code)).
      { apply in_app_or in H as [H | H].
        - left. rewrite <- (firstn_skipn (import_end_from 0 (split nl fixed) 0) (split nl fixed)).
          apply in_or_app. now left.
        - apply in_app_or in H as [H | H]; [now right | left].
          rewrite <- (firstn_skipn (import_end_from 0 (split nl fixed) 0) (split nl fixed)).
          apply in_or_app. now right. }
      destruct H' as [H' | H']; [|right; now right].
      apply Hfixed in H' as [H' | [_ H']]; [now left | right; now left].
Qed.

(** A pattern foreign to what [auto_fix] adds occurs in the fixed text
    exactly when it occurs in the text. *)
Lemma contains_auto_fix (p code : string) :
  foreign_to_fix p = true ->
  contains p (auto_fix code) = contains p code.
Proof.
  unfold foreign_to_fix. intros H.
  apply andb_true_iff in H as [H Hsnip]. apply andb_true_iff in H as [Hfree Himp].
  apply negb_true_iff in Himp. rewrite forallb_forall in Hsnip.
  apply eq_true_iff_eq. rewrite !(contains_lines nl) by exact Hfree. split.
  - intros (line & Hin & Hc). apply auto_fix_lines in Hin as [Hin | [-> | Hin]].
    + now exists line.
    + congruence.
    + apply Hsnip in Hin. rewrite Hc in Hin. discriminate.
  - intros (line & Hin & Hc). exists line. split; [now apply auto_fix_lines | exact Hc].
Qed.

Lemma in_comment_lines_forallb (lines : list string) (pattern : string) :
  in_comment_lines lines pattern = forallb (line_in_comment pattern) lines.
Proof.
  induction lines as [|line rest IH]; [reflexivity|].
  cbn [in_comment_lines forallb]. unfold line_in_comment at 1. rewrite IH.
  destruct (contains pattern line); cbn [negb orb]; [|reflexivity].
  destruct (negb (contains "#" line) || index_lt line pattern "#"); reflexivity.
Qed.

Lemma is_in_comment_auto_fix (op code : string) :
  foreign_to_fix op = true ->
  _is_in_comment (auto_fix code) op = _is_in_comment code op.
Proof.
  intros H. unfold _is_in_comment. rewrite !in_comment_lines_forallb.
  unfold foreign_to_fix in H.
  apply andb_true_iff in H as [H Hsnip]. apply andb_true_iff in H as [_ Himp].
  apply negb_true_iff in Himp. rewrite forallb_forall in Hsnip.
  apply eq_true_iff_eq. rewrite !forallb_forall. split.
  - intros Hall line Hin. apply Hall. now apply auto_fix_lines.
  - intros Hall line Hin. apply auto_fix_lines in Hin as [Hin | [-> | Hin]].
    + now apply Hall.
    + unfold line_in_comment. now rewrite Himp.
    + unfold line_in_comment. apply Hsnip in Hin. now rewrite Hin.
Qed.

(** X2: [auto_fix] does not change what the security scan reports: the
    fixed text has the issues of the text, no more and no fewer. *)
Theorem auto_fix_keeps_security_issues (code : string) :
  _check_security (auto_fix code) = _check_security code.
Proof.
  assert (D : forall d, In d DANGEROUS_IMPORTS -> foreign_to_fix d = true)
    by (apply forallb_forall; vm_compute; reflexivity).
  assert (F : forall op, In op file_ops -> foreign_to_fix op = true)
    by (apply forallb_forall; vm_compute; reflexivity).
  assert (N : forall op, In op network_ops ->
                         foreign_to_fix ("import " ++ op) && foreign_to_fix ("from " ++ op) = true)
    by (apply forallb_forall; vm_compute; reflexivity).
  assert (E : (dangerous_issues (auto_fix code) ++ file_op_issues (auto_fix code)
               ++ network_issues (auto_fix code))%list
              = (dangerous_issues code ++ file_op_issues code ++ network_issues code)%list).
  { f_equal; [|f_equal].
    - unfold dangerous_issues. f_equal. apply filter_ext_in. intros d Hd.
      apply contains_auto_fix. now apply D.
    - unfold file_op_issues. f_equal. apply filter_ext_in. intros op Hop.
      unfold file_op_flagged.
      now rewrite (contains_auto_fix op code (F op Hop)), (is_in_comment_auto_fix op code (F op Hop)).
    - unfold network_issues. f_equal. apply filter_ext_in. intros op Hop.
      unfold network_flagged. specialize (N op Hop). apply andb_true_iff in N as [N1 N2].
      now rewrite (contains_auto_fix _ code N1), (contains_auto_fix _ code N2). }
  unfold _check_security. now rewrite E.
Qed.

(** X3: after [auto_fix] the validator warns neither of a missing [bpy]
    import nor of a scene that is not cleared, whatever the parser says. *)
Theorem auto_fix_clears_its_warnings
  (ast_parse : string -> parse_outcome) (code : string) :
  ~ In "Missing recommended import: bpy"
       (warnings_of (validate ast_parse (auto_fix code))) /\
  ~ In "Code doesn't clear existing objects - may cause conflicts"
       (warnings_of (validate ast_parse (auto_fix code))).
Proof.
  assert (Himp : negb (contains "import bpy" (auto_fix code)) &&
                 negb (contains "from bpy" (auto_fix code)) = false).
  { destruct (auto_fix_has_import code) as [-> | ->]; [reflexivity | apply andb_false_r]. }
  pose proof (auto_fix_has_clear code) as Hclear.
  assert (W1 : ~ In "Missing recommended import: bpy" (_check_imports (auto_fix code))).
  { unfold _check_imports, REQUIRED_IMPORTS. cbn [filter append]. rewrite Himp. cbn [map].
    destruct (contains "math" (lower (auto_fix code)) && negb (contains "import math" (auto_fix code)));
      destruct (contains "vector" (lower (auto_fix code))
                && negb (contains "from mathutils import" (auto_fix code)));
      cbn [app In]; intros H; repeat (destruct H as [H | H]; [discriminate H|]); exact H. }
  assert (W2 : ~ In "Code doesn't clear existing objects - may cause conflicts"
                    (_check_blender_api (auto_fix code))).
  { unfold _check_blender_api. cbn [existsb]. rewrite Hclear. cbn [orb negb app].
    repeat match goal with
           | |- context [if ?b then _ else _] => destruct b
           end;
      cbn [app In]; intros H; repeat (destruct H as [H | H]; [discriminate H|]); exact H. }
  destruct (ast_parse (auto_fix code)) as [|lineno msg|text] eqn:E.
  - rewrite (validate_parsed _ _ E). unfold warnings_of. cbn [snd].
    split; intros H; apply in_app_or in H as [H | H].
    + now apply W1.
    + revert H. unfold _check_blender_api. cbn [app].
      repeat match goal with
             | |- context [if ?b then _ else _] => destruct b
             end;
        cbn [app In]; intros H; repeat (destruct H as [H | H]; [discriminate H|]); exact H.
    + revert H. unfold _check_imports, REQUIRED_IMPORTS. cbn [filter append].
      repeat match goal with
             | |- context [if ?b then _ else _] => destruct b
             end;
        cbn [map app In]; intros H; repeat (destruct H as [H | H]; [discriminate H|]); exact H.
    + now apply W2.
  - rewrite (validate_syntax_error _ _ _ _ E). split; intros [].
  - rewrite (validate_exception _ _ _ E). split; intros [].
Qed.

(** *** Where the snippet goes *)

(** The loop of [auto_fix] ends on the index after the last import line,
    or on its start value when no line is an import. *)
Lemma import_end_from_spec (lines : list string) (i import_end : nat) :
  (import_end_from i lines import_end = import_end /\
   forall line, In line lines -> is_import_line line = false) \/
  (exists before line after,
      lines = (before ++ line :: after)%list /\
      is_import_line line = true /\
      (forall l, In l after -> is_import_line l = false) /\
      import_end_from i lines import_end = i + List.length before + 1).
Proof.
  revert i import_end. induction lines as [|line rest IH]; intros i acc.
  - left. split; [reflexivity | intros line []].
  - cbn [import_end_from]. fold (is_import_line line).
    destruct (IH (S i) (if is_import_line line then i + 1 else acc))
      as [[E Hno] | (b & l & after & -> & Hl & Hafter & E)].
    + destruct (is_import_line line) eqn:Himp.
      * right. exists [], line, rest. repeat split; [exact Himp | exact Hno |].
        rewrite E. cbn [List.length]. lia.
      * left. split; [exact E|]. intros l [<- | Hin]; [exact Himp | now apply Hno].
    + right. exists (line :: b), l, after. repeat split; [exact Hl | exact Hafter |].
      rewrite E. cbn [List.length]. lia.
Qed.

Lemma firstn_skipn_middle {A : Type} (before after : list A) (x : A) :
  firstn (List.length before + 1) (before ++ x :: after) = (before ++ [x])%list /\
  skipn (List.length before + 1) (before ++ x :: after) = after.
Proof.
  induction before as [|b before [IH1 IH2]]; [split; reflexivity|].
  cbn [List.length Nat.add app firstn skipn]. rewrite IH1, IH2. split; reflexivity.
Qed.

(** X4: when the text has no [select_all] call, the lines of the fixed
    text are its own lines (after the import line, when that was added)
    with the lines of the snippet put in one place: no import line comes
    after that place, and when a line comes before it, the last line
    before it is an import line. *)
Theorem auto_fix_inserts_after_last_import (code : string) :
  contains "bpy.ops.object.select_all" code = false ->
  exists before after,
    split nl (auto_fix code) = (before ++ split nl clear_code ++ after)%list /\
    ((before ++ after)%list = split nl code \/
     (before ++ after)%list = "import bpy" :: split nl code) /\
    (forall line, In line after -> is_import_line line = false) /\
    (before = [] \/
     exists earlier line, before = (earlier ++ [line])%list /\ is_import_line line = true).
Proof.
  intros Hno. unfold auto_fix.
  set (fixed := if negb (contains "import bpy" code) && negb (contains "from bpy" code)
                then "import bpy" ++ NL ++ code else code).
  assert (Hlines : split nl fixed = split nl code \/
                   split nl fixed = "import bpy" :: split nl code).
  { subst fixed.
    destruct (negb (contains "import bpy" code) && negb (contains "from bpy" code));
      [right | now left].
    unfold NL. now rewrite split_app_sep. }
  assert (Hfixed : contains "bpy.ops.object.select_all" fixed = false).
  { destruct (contains "bpy.ops.object.select_all" fixed) eqn:E; [|reflexivity].
    apply (contains_lines nl) in E as (line & Hin & Hc); [|reflexivity].
    destruct Hlines as [Hl | Hl]; rewrite Hl in Hin.
    - rewrite (contains_of_line nl _ code line Hin Hc) in Hno. discriminate.
    - destruct Hin as [<- | Hin]; [discriminate Hc|].
      rewrite (contains_of_line nl _ code line Hin Hc) in Hno. discriminate. }
  rewrite Hfixed. cbn [negb]. unfold NL. rewrite split_join_insert.
  exists (firstn (import_end_from 0 (split nl fixed) 0) (split nl fixed)),
         (skipn (import_end_from 0 (split nl fixed) 0) (split nl fixed)).
  split; [reflexivity|]. rewrite firstn_skipn. split; [exact Hlines|].
  destruct (import_end_from_spec (split nl fixed) 0 0)
    as [[E Hnone] | (b & l & after & Hsplit & Hl & Hafter & E)].
  - rewrite E. cbn [firstn skipn]. split; [exact Hnone | now left].
  - rewrite E, Hsplit. cbn [Nat.add].
    destruct (firstn_skipn_middle b after l) as [F S']. rewrite F, S'.
    split; [exact Hafter|]. right. now exists b, l.
Qed.

(** A text with two imports and code between them: the snippet follows
    the second import. *)
Lemma auto_fix_inserts_after_last_import_witness :
  exists before after,
    split nl (auto_fix ("import bpy" ++ NL ++ "x = 1" ++ NL ++ "import math" ++ NL ++ "y = 2")) =
      (before ++ split nl clear_code ++ after)%list /\
    ((before ++ after)%list =
       split nl ("import bpy" ++ NL ++ "x = 1" ++ NL ++ "import math" ++ NL ++ "y = 2") \/
     (before ++ after)%list =
       "import bpy" :: split nl ("import bpy" ++ NL ++ "x = 1" ++ NL ++ "import math" ++ NL ++ "y = 2")) /\
    (forall line, In line after -> is_import_line line = false) /\
    (before = [] \/
     exists earlier line, before = (earlier ++ [line])%list /\ is_import_line line = true).
Proof.
  apply (auto_fix_inserts_after_last_import
           ("import bpy" ++ NL ++ "x = 1" ++ NL ++ "import math" ++ NL ++ "y = 2")).
  vm_compute. reflexivity.
Defined.

(** *** No error is reported twice *)

Lemma NoDup_map_filter {A B : Type} (f : A -> B) (p : A -> bool) (l : list A) :
  (forall x y, f x = f y -> x = y) -> NoDup l -> NoDup (map f (filter p l)).
Proof.
  intros Hinj Hl. apply (NoDup_filter p) in Hl.
  induction Hl as [|x l' Hx Hl' IH]; [constructor|].
  cbn [map]. constructor; [|exact IH].
  intros H. apply in_map_iff in H as (y & E & Hy). apply Hinj in E. now subst y.
Qed.

(** X5: the errors of a report are pairwise different, and there are at
    most sixteen of them. *)
Theorem validate_errors_distinct
  (ast_parse : string -> parse_outcome) (code : string) :
  NoDup (errors_of (validate ast_parse code)) /\
  List.length (errors_of (validate ast_parse code)) <= 16.
Proof.
  destruct (ast_parse code) as [|lineno msg|text] eqn:E.
  - rewrite (validate_parsed _ _ E). unfold errors_of, _check_security. cbn [fst snd].
    assert (ND : NoDup DANGEROUS_IMPORTS /\ NoDup file_ops /\ NoDup network_ops).
    { repeat split;
        repeat (constructor; [cbn [In]; intros H;
                              repeat (destruct H as [H | H]; [discriminate H|]); exact H|]);
        constructor. }
    destruct ND as (ND1 & ND2 & ND3). split.
    + apply NoDup_app.
      * apply NoDup_map_filter; [apply dangerous_msg_inj | exact ND1].
      * apply NoDup_app.
        -- apply NoDup_map_filter; [apply file_op_msg_inj | exact ND2].
        -- apply NoDup_map_filter; [apply append_inj_l | exact ND3].
        -- intros x Hf Hn. unfold file_op_issues in Hf. unfold network_issues in Hn.
           apply in_map_iff in Hf as (a & <- & _). apply in_map_iff in Hn as (b & Hb & _).
           discriminate Hb.
      * intros x Hd H. unfold dangerous_issues in Hd.
        apply in_map_iff in Hd as (a & <- & _). apply in_app_or in H as [H | H].
        -- unfold file_op_issues in H. apply in_map_iff in H as (b & Hb & _). discriminate Hb.
        -- unfold network_issues in H. apply in_map_iff in H as (b & Hb & _). discriminate Hb.
    + rewrite !length_app. unfold dangerous_issues, file_op_issues, network_issues.
      rewrite !length_map.
      pose proof (filter_length_le (fun d => contains d code) DANGEROUS_IMPORTS) as L1.
      pose proof (filter_length_le (file_op_flagged code) file_ops) as L2.
      pose proof (filter_length_le (network_flagged code) network_ops) as L3.
      cbn [DANGEROUS_IMPORTS file_ops network_ops List.length] in L1, L2, L3. lia.
  - rewrite (validate_syntax_error _ _ _ _ E). unfold errors_of. cbn [fst snd List.length].
    split; [repeat constructor; intros [] | lia].
  - rewrite (validate_exception _ _ _ E). unfold errors_of. cbn [fst snd List.length].
    split; [repeat constructor; intros [] | lia].
Qed.

End CodeValidatorSpec.

(** ** The classifier *)

Module PromptProcessorSpec.
Import PyStr PyStrFacts PromptProcessor.

(** *** Scores *)

Lemma keyword_score_0 (prompt_lower : string) (keywords : list string) :
  keyword_score prompt_lower keywords = 0 <->
  forall keyword, In keyword keywords -> contains keyword prompt_lower = false.
Proof.
  unfold keyword_score. induction keywords as [|k ks IH]; simpl.
  - split; [intros _ k [] | reflexivity].
  - destruct (contains k prompt_lower) eqn:E; simpl.
    + split; [discriminate|]. intros H. specialize (H k (or_introl eq_refl)). congruence.
    + rewrite IH. split.
      * intros H k' [<- | Hin]; [exact E | now apply H].
      * intros H k' Hin. apply H. now right.
Qed.

Lemma keyword_score_le (prompt_lower : string) (keywords : list string) :
  keyword_score prompt_lower keywords <= List.length keywords.
Proof. apply filter_length_le. Qed.

(** The keys of [scores] are those of [CATEGORIES], in its order. *)
Lemma category_scores_keys (prompt_lower : string) :
  map fst (category_scores prompt_lower) =
  ["modeling"; "material"; "scene"; "animation"].
Proof. reflexivity. Qed.

(** No score exceeds the length of the longest keyword list. *)
Lemma category_scores_bound (prompt_lower : string) (item : string * nat) :
  In item (category_scores prompt_lower) -> snd item <= 21.
Proof.
  unfold category_scores. intros H. apply in_map_iff in H as ([cat kws] & <- & Hin).
  cbn [fst snd]. pose proof (keyword_score_le prompt_lower kws) as Hle.
  simpl in Hin.
  repeat (destruct Hin as [Hin | Hin];
          [injection Hin as <- <-; simpl in Hle; lia|]).
  destruct Hin.
Qed.

Lemma list_max_bound (l : list nat) (n : nat) :
  (forall x, In x l -> x <= n) -> list_max l <= n.
Proof.
  intros H. apply list_max_le. apply Forall_forall. exact H.
Qed.

Lemma max_score_bound (prompt_lower : string) :
  list_max (map snd (category_scores prompt_lower)) <= 21.
Proof.
  apply list_max_bound. intros x H. apply in_map_iff in H as (item & <- & Hin).
  now apply category_scores_bound with prompt_lower.
Qed.

Lemma In_le_list_max (l : list nat) (x : nat) : In x l -> x <= list_max l.
Proof.
  intros H. pose proof (proj1 (list_max_le l (list_max l)) (Nat.le_refl _)) as F.
  rewrite Forall_forall in F. now apply F.
Qed.

(** *** The float comparison *)

(** On the scores the classifier can see, [score >= max_score * 0.7] in
    binary64 decides the exact [10 * score >= 7 * max_score]. *)
Lemma high_score_exact (max_score score : nat) :
  max_score <= 21 -> score <= 21 ->
  high_score max_score score = (7 * max_score <=? 10 * score).
Proof.
  intros Hm Hs.
  assert (T : forallb (fun m => forallb (fun n =>
                Bool.eqb (high_score m n) (7 * m <=? 10 * n)) (seq 0 22)) (seq 0 22) = true)
    by (vm_compute; reflexivity).
  assert (Hin : forall n, n <= 21 -> In n (seq 0 22)) by (intros n Hn; apply in_seq; lia).
  pose proof (proj1 (forallb_forall _ _) T max_score (Hin _ Hm)) as T1.
  cbv beta in T1.
  exact (Bool.eqb_prop _ _ (proj1 (forallb_forall _ _) T1 score (Hin _ Hs))).
Qed.

(** *** The key of the largest score *)

Lemma list_max_eq (l : list nat) (m : nat) :
  In m l -> (forall x, In x l -> x <= m) -> list_max l = m.
Proof.
  intros Hin Hle. apply Nat.le_antisymm.
  - now apply list_max_bound.
  - now apply In_le_list_max.
Qed.

(** [argmax_from] keeps [best] when nothing later is strictly larger;
    otherwise it returns the first key after which nothing is strictly
    larger, and everything before that key is strictly smaller. *)
Lemma argmax_from_spec (rest : list (string * nat)) (best : string) (best_score : nat) :
  (argmax_from best best_score rest = best /\
   forall item, In item rest -> snd item <= best_score) \/
  (exists before score after,
      rest = (before ++ (argmax_from best best_score rest, score) :: after)%list /\
      best_score < score /\
      (forall item, In item before -> snd item < score) /\
      (forall item, In item after -> snd item <= score)).
Proof.
  revert best best_score. induction rest as [|[cat sc] rest IH]; intros best bs.
  - left. split; [reflexivity | intros item []].
  - cbn [argmax_from]. destruct (bs <? sc) eqn:Lt.
    + apply Nat.ltb_lt in Lt. right.
      destruct (IH cat sc) as [[E Hle] | (before & s & after & E & Hlt & Hb & Ha)].
      * exists [], sc, rest. rewrite E. repeat split; [exact Lt | intros item [] | exact Hle].
      * exists ((cat, sc) :: before), s, after. repeat split.
        -- cbn [app]. now rewrite <- E.
        -- lia.
        -- intros item [<- | Hin]; [exact Hlt | now apply Hb].
        -- exact Ha.
    + apply Nat.ltb_ge in Lt.
      destruct (IH best bs) as [[E Hle] | (before & s & after & E & Hlt & Hb & Ha)].
      * left. split; [exact E|]. intros item [<- | Hin]; [exact Lt | now apply Hle].
      * right. exists ((cat, sc) :: before), s, after. repeat split.
        -- cbn [app]. now rewrite <- E.
        -- exact Hlt.
        -- intros item [<- | Hin]; [cbn [snd]; lia | now apply Hb].
        -- exact Ha.
Qed.

Lemma list_max_split (before after : list (string * nat)) (c : string) (s : nat) :
  (forall item, In item before -> snd item <= s) ->
  (forall item, In item after -> snd item <= s) ->
  list_max (map snd (before ++ (c, s) :: after)) = s.
Proof.
  intros Hb Ha. apply list_max_eq.
  - apply in_map_iff. exists (c, s). split; [reflexivity|].
    apply in_or_app. right. now left.
  - intros x Hx. apply in_map_iff in Hx as (item & <- & Hin).
    apply in_app_or in Hin as [Hin | [<- | Hin]]; [now apply Hb | apply Nat.le_refl | now apply Ha].
Qed.

(** [max(scores, key=scores.get)] is the first key with the largest score. *)
Lemma argmax_first_with_max (scores : list (string * nat)) (category : string) :
  argmax scores = Some category -> first_with_max scores category.
Proof.
  destruct scores as [|[best bs] rest]; [discriminate|].
  cbn [argmax]. intros E. injection E as <-.
  destruct (argmax_from_spec rest best bs) as [[E Hle] | (before & s & after & E & Hlt & Hb & Ha)].
  - rewrite E. exists [], rest.
    pose proof (list_max_split [] rest best bs (fun _ (F : In _ []) => match F with end) Hle) as M.
    cbn [app] in M. rewrite M. split; [reflexivity | intros item []].
  - set (c := argmax_from best bs rest) in *.
    assert (M : list_max (map snd ((best, bs) :: rest)) = s).
    { rewrite E. apply (list_max_split ((best, bs) :: before) after c s).
      - intros item [<- | Hin]; [cbn [snd]; lia | apply Nat.lt_le_incl; now apply Hb].
      - exact Ha. }
    exists ((best, bs) :: before), after. rewrite M. split.
    + cbn [app]. now rewrite <- E.
    + intros item [<- | Hin]; [exact Hlt | now apply Hb].
Qed.

Lemma first_with_max_In (scores : list (string * nat)) (category : string) :
  first_with_max scores category ->
  In (category, list_max (map snd scores)) scores.
Proof.
  intros (before & after & E & _). rewrite E at 2.
  apply in_or_app. right. now left.
Qed.

(** On the classifier's scores the float test selects the qualifying
    categories. *)
Lemma high_scoring_qualifying (prompt_lower : string) :
  map fst (filter (fun item =>
                     high_score (list_max (map snd (category_scores prompt_lower))) (snd item))
             (category_scores prompt_lower))
  = qualifying (category_scores prompt_lower).
Proof.
  unfold qualifying. f_equal. apply filter_ext_in. intros item Hin.
  apply high_score_exact; [apply max_score_bound | now apply category_scores_bound with prompt_lower].
Qed.

(** The largest score always qualifies. *)
Lemma max_qualifies (scores : list (string * nat)) (category : string) :
  In (category, list_max (map snd scores)) scores -> In category (qualifying scores).
Proof.
  intros H. unfold qualifying. apply in_map_iff. exists (category, list_max (map snd scores)).
  split; [reflexivity|]. apply filter_In. split; [exact H|].
  cbn [snd]. apply Nat.leb_le. lia.
Qed.

(** [_categorize_prompt], case by case. *)
Lemma categorize_cases (prompt : string) :
  _categorize_prompt prompt =
  if list_max (map snd (category_scores (lower prompt))) =? 0 then Some "modeling"
  else if 1 <? List.length (qualifying (category_scores (lower prompt))) then Some "mixed"
  else argmax (category_scores (lower prompt)).
Proof.
  unfold _categorize_prompt, categorize_scores. cbv zeta.
  now rewrite high_scoring_qualifying.
Qed.

(** *** Category assignment *)

(** C1: when some keyword matches, a prompt with more than one category
    at seven tenths of the largest score or above is [mixed]; a prompt
    with exactly one such category gets that category, which is the first
    one whose score is the largest in the iteration order modeling,
    material, scene, animation. *)
Theorem category_assignment (prompt : string) :
  0 < list_max (map snd (category_scores (lower prompt))) ->
  map fst (category_scores (lower prompt)) =
    ["modeling"; "material"; "scene"; "animation"] /\
  (1 < List.length (qualifying (category_scores (lower prompt))) ->
   _categorize_prompt prompt = Some "mixed") /\
  (forall category,
      qualifying (category_scores (lower prompt)) = [category] ->
      _categorize_prompt prompt = Some category /\
      first_with_max (category_scores (lower prompt)) category).
Proof.
  intros Hpos. split; [apply category_scores_keys|]. rewrite categorize_cases.
  assert (E0 : (list_max (map snd (category_scores (lower prompt))) =? 0) = false)
    by (apply Nat.eqb_neq; lia).
  rewrite E0. split.
  - intros Hmany. apply Nat.ltb_lt in Hmany. now rewrite Hmany.
  - intros category Hone. rewrite Hone. cbn [List.length Nat.ltb Nat.leb].
    destruct (argmax (category_scores (lower prompt))) as [c|] eqn:A; [|discriminate].
    pose proof (argmax_first_with_max _ _ A) as Hfirst.
    pose proof (max_qualifies _ _ (first_with_max_In _ _ Hfirst)) as Hq.
    rewrite Hone in Hq. destruct Hq as [<- | []]. split; [reflexivity | exact Hfirst].
Qed.

(** Glass, material, scene and light put two categories at the top; in
    the second prompt only [animation] scores at least seven tenths of 2. *)
Lemma category_assignment_witness :
  _categorize_prompt "glass material scene light" = Some "mixed" /\
  _categorize_prompt "Animate the camera along a path" = Some "animation" /\
  first_with_max (category_scores (lower "Animate the camera along a path")) "animation".
Proof.
  split.
  - refine (proj1 (proj2 (category_assignment "glass material scene light" _)) _);
      apply Nat.ltb_lt; vm_compute; reflexivity.
  - refine (proj2 (proj2 (category_assignment "Animate the camera along a path" _))
              "animation" _).
    + apply Nat.ltb_lt. vm_compute. reflexivity.
    + vm_compute. reflexivity.
Defined.

(** *** The default category *)

Lemma no_keyword_max_score (prompt : string) :
  no_keyword prompt <-> list_max (map snd (category_scores (lower prompt))) = 0.
Proof.
  split.
  - intros H. apply Nat.le_0_r, list_max_bound. intros x Hx.
    apply in_map_iff in Hx as (item & <- & Hin).
    unfold category_scores in Hin. apply in_map_iff in Hin as ([cat kws] & <- & Hc).
    cbn [fst snd]. apply Nat.le_0_r, keyword_score_0.
    intros keyword Hk. now apply (H cat kws).
  - intros H cat kws keyword Hc Hk.
    assert (Hs : keyword_score (lower prompt) kws = 0).
    { apply Nat.le_0_r. rewrite <- H. apply In_le_list_max.
      apply in_map_iff. exists (cat, keyword_score (lower prompt) kws).
      split; [reflexivity|]. unfold category_scores.
      apply in_map_iff. exists (cat, kws). split; [reflexivity | exact Hc]. }
    now apply (proj1 (keyword_score_0 _ _) Hs).
Qed.

(** C6: a prompt in which no keyword of any category occurs is classified
    [modeling]; and every prompt gets one of the five category names, so
    the category is never empty. *)
Theorem default_category (prompt : string) :
  (no_keyword prompt -> _categorize_prompt prompt = Some "modeling") /\
  (exists category,
      _categorize_prompt prompt = Some category /\
      In category ["modeling"; "material"; "scene"; "animation"; "mixed"] /\
      category <> "").
Proof.
  rewrite categorize_cases. split.
  - intros H. apply no_keyword_max_score in H. now rewrite H.
  - destruct (list_max (map snd (category_scores (lower prompt))) =? 0).
    { exists "modeling". split; [reflexivity|]. split; [simpl; tauto | discriminate]. }
    destruct (1 <? List.length (qualifying (category_scores (lower prompt)))).
    { exists "mixed". split; [reflexivity|]. split; [simpl; tauto | discriminate]. }
    destruct (argmax (category_scores (lower prompt))) as [c|] eqn:A.
    + exists c. split; [reflexivity|].
      pose proof (first_with_max_In _ _ (argmax_first_with_max _ _ A)) as Hin.
      apply (in_map fst) in Hin. rewrite category_scores_keys in Hin. cbn [fst] in Hin.
      simpl in Hin. simpl.
      repeat (destruct Hin as [<- | Hin]; [split; [tauto | discriminate]|]).
      destruct Hin.
    + discriminate A.
Qed.

Lemma default_category_witness :
  _categorize_prompt "hello there" = Some "modeling" /\
  (exists category,
      _categorize_prompt "hello there" = Some category /\
      In category ["modeling"; "material"; "scene"; "animation"; "mixed"] /\
      category <> "").
Proof.
  split.
  - apply (default_category "hello there").
    apply no_keyword_max_score. vm_compute. reflexivity.
  - apply (default_category "hello there").
Defined.

(** *** Complexity *)

(** C10: without any of the eight advanced keywords the score is at most
    3 + 3, and the complexity is not [complex]. *)
Theorem complexity_without_advanced_keyword (prompt : string) (entities : entities_dict) :
  (forall keyword, In keyword complex_keywords ->
                   contains keyword (lower prompt) = false) ->
  complexity_score prompt entities <= 6 /\
  _assess_complexity prompt entities <> "complex".
Proof.
  intros H.
  assert (E : existsb (fun keyword => contains keyword (lower prompt)) complex_keywords = false).
  { destruct (existsb _ complex_keywords) eqn:X; [|reflexivity].
    apply existsb_exists in X as (k & Hk & Hc). rewrite (H k Hk) in Hc. discriminate. }
  assert (Hscore : complexity_score prompt entities <= 6).
  { unfold complexity_score. rewrite E.
    destruct (50 <? count_words false prompt), (20 <? count_words false prompt),
      (10 <? total_entities entities), (5 <? total_entities entities); simpl; lia. }
  split; [exact Hscore|].
  unfold _assess_complexity. cbv zeta.
  destruct (complexity_score prompt entities <=? 3); [discriminate|].
  apply Nat.leb_le in Hscore. rewrite Hscore. discriminate.
Qed.

Lemma complexity_without_advanced_keyword_witness :
  complexity_score "Create a red cube on a wood table" sample_entities <= 6 /\
  _assess_complexity "Create a red cube on a wood table" sample_entities <> "complex".
Proof.
  apply (complexity_without_advanced_keyword "Create a red cube on a wood table").
  intros keyword Hk.
  destruct (contains keyword (lower "Create a red cube on a wood table")) eqn:E;
    [|reflexivity].
  assert (X : existsb (fun k => contains k (lower "Create a red cube on a wood table"))
                complex_keywords = true)
    by (apply existsb_exists; exists keyword; split; assumption).
  vm_compute in X. discriminate X.
Defined.

(** *** Measurements *)

(** The scan reports offsets from [pos] on, each larger than the one before. *)
Lemma finditer_from_sorted (s : string) (skip pos : nat) :
  Forall (le pos) (map fst (finditer_from skip pos s)) /\
  StronglySorted lt (map fst (finditer_from skip pos s)).
Proof.
  revert skip pos. induction s as [|c s IH]; intros skip pos.
  - split; constructor.
  - assert (Hnext : forall k,
               Forall (le pos) (map fst (finditer_from k (S pos) s)) /\
               StronglySorted lt (map fst (finditer_from k (S pos) s))).
    { intros k. destruct (IH k (S pos)) as [F S']. split; [|exact S'].
      eapply Forall_impl; [|exact F]. intros; lia. }
    cbn [finditer_from]. destruct skip as [|k]; [|apply Hnext].
    destruct (match_here (String c s)) as [[[value unit] n]|]; [|apply Hnext].
    cbn [map fst]. destruct (IH (n - 1) (S pos)) as [F S']. split.
    + constructor; [apply Nat.le_refl|]. eapply Forall_impl; [|exact F]. intros; lia.
    + constructor; [exact S'|]. eapply Forall_impl; [|exact F]. intros; lia.
Qed.

(** Every reported pair is a match of the pattern at its offset. *)
Lemma finditer_from_match (s : string) (skip pos p : nat) (value unit : string) :
  In (p, (value, unit)) (finditer_from skip pos s) ->
  pos <= p /\ exists n, match_here (drop (p - pos) s) = Some (value, unit, n).
Proof.
  revert skip pos. induction s as [|c s IH]; intros skip pos Hin; [destruct Hin|].
  assert (Hnext : forall k, In (p, (value, unit)) (finditer_from k (S pos) s) ->
            pos <= p /\ exists n,
              match_here (drop (p - pos) (String c s)) = Some (value, unit, n)).
  { intros k H. destruct (IH _ _ H) as [Hle [n Hn]]. split; [lia|]. exists n.
    replace (p - pos) with (S (p - S pos)) by lia. exact Hn. }
  cbn [finditer_from] in Hin. destruct skip as [|k]; [|now apply Hnext with k].
  destruct (match_here (String c s)) as [[[v u] n]|] eqn:M; [|now apply Hnext with 0].
  destruct Hin as [E | Hin]; [|now apply Hnext with (n - 1)].
  injection E as -> -> ->. split; [apply Nat.le_refl|]. exists n.
  now rewrite Nat.sub_diag.
Qed.

(** [float] on long numerals: more digits than a binary64 number holds
    are rounded once, to the nearest; a tie goes to the even neighbour;
    beyond the range the result is [inf]. *)
Example float_of_str_samples :
  float_of_str "99999999999999999999" = 1e20%float /\
  float_of_str "9223372036854775808" = 9223372036854775808%float /\
  float_of_str "2.718281828459045235" = 2.718281828459045%float /\
  float_of_str "9007199254740993" = 9007199254740992%float /\
  float_of_str "0.1" = 0.1%float /\
  float_of_str (String.concat "" (repeat "9" 400)) = PrimFloat.infinity.
Proof. vm_compute. repeat split. Qed.

(** C5: the three sample measurements, the fixed target unit, and the
    order of the records: they are the matches of the pattern from left
    to right, one record per match, each made by [measurement_of], where
    [float] is the correctly rounded conversion of the numeral. *)
Theorem measurement_extraction :
  _extract_measurements "5 meters" =
    [ {| original_value := 5.0%float; original_unit := "m";
         blender_value := 5.0%float; blender_unit := "meters" |} ] /\
  _extract_measurements "10cm" =
    [ {| original_value := 10.0%float; original_unit := "cm";
         blender_value := 0.1%float; blender_unit := "meters" |} ] /\
  (exists record,
      _extract_measurements "2.5 feet" = [record] /\
      original_value record = 2.5%float /\
      blender_value record = PrimFloat.mul 2.5%float 0.3048%float /\
      PrimFloat.ltb (PrimFloat.abs (PrimFloat.sub (blender_value record) 0.762%float))
                    1e-9%float = true) /\
  (forall prompt record,
      In record (_extract_measurements prompt) -> blender_unit record = "meters") /\
  (forall prompt,
      _extract_measurements prompt = map measurement_of (map snd (finditer prompt)) /\
      StronglySorted lt (map fst (finditer prompt)) /\
      forall pos value unit,
        In (pos, (value, unit)) (finditer prompt) ->
        exists n, match_here (drop pos prompt) = Some (value, unit, n)).
Proof.
  split; [vm_compute; reflexivity|].
  split; [vm_compute; reflexivity|].
  split; [eexists; split; [vm_compute; reflexivity|]; repeat split; vm_compute; reflexivity|].
  split.
  - intros prompt record H. unfold _extract_measurements in H.
    apply in_map_iff in H as ([value unit] & <- & _). reflexivity.
  - intros prompt. split; [reflexivity|]. split.
    + apply finditer_from_sorted.
    + intros pos value unit H. apply finditer_from_match in H as [_ [n Hn]].
      exists n. now rewrite Nat.sub_0_r in Hn.
Qed.

(** The record of "10cm" has the target unit, and a longer text gives its
    records in the order of the text. *)
Lemma measurement_extraction_witness :
  (forall record, In record (_extract_measurements "10cm") ->
                  blender_unit record = "meters") /\
  finditer "a 5 meters and 10cm, 2.5 FeeT wide" =
    [(2, ("5", "m")); (15, ("10", "cm")); (21, ("2.5", "FeeT"))].
Proof.
  split; [|vm_compute; reflexivity].
  intros record. apply (proj1 (proj2 (proj2 (proj2 measurement_extraction))) "10cm").
Defined.

(** *** Enhancement *)

(** X11: the enhanced prompt starts with the prompt, which is left as it
    is; without measurements, a category other than modeling, material
    and scene adds nothing. *)
Theorem enhance_keeps_prompt
  (prompt category : string) (measurements : list measurement) :
  exists suffix,
    _enhance_prompt prompt category measurements = prompt ++ suffix /\
    (measurements = [] ->
     ~ In category ["modeling"; "material"; "scene"] ->
     suffix = "").
Proof.
  unfold _enhance_prompt. cbv zeta.
  destruct (String.eqb_spec category "modeling") as [-> | Hm].
  - cbn [String.eqb Ascii.eqb Bool.eqb andb].
    destruct (negb (contains "scale" (lower prompt))), measurements;
      eexists; (split; [rewrite ?append_assoc; try reflexivity;
                        symmetry; apply append_nil_r
                       | intros _ H; exfalso; apply H; simpl; tauto]).
  - destruct (String.eqb_spec category "material") as [-> | Hmat].
    + cbn [String.eqb Ascii.eqb Bool.eqb andb].
      destruct (negb (contains "node" (lower prompt))), measurements;
        eexists; (split; [rewrite ?append_assoc; try reflexivity;
                          symmetry; apply append_nil_r
                         | intros _ H; exfalso; apply H; simpl; tauto]).
    + destruct (String.eqb_spec category "scene") as [-> | Hs].
      * cbn [andb].
        destruct (negb (contains "camera" (lower prompt))), measurements;
          eexists; (split; [rewrite ?append_assoc; try reflexivity;
                            symmetry; apply append_nil_r
                           | intros _ H; exfalso; apply H; simpl; tauto]).
      * cbn [andb]. destruct measurements.
        -- exists "". split; [symmetry; apply append_nil_r | reflexivity].
        -- eexists. split; [reflexivity | discriminate].
Qed.

(** X12: without measurements, enhancing an enhanced prompt again adds
    nothing: each directive holds the word whose absence triggers it. *)
Theorem enhance_twice (prompt category : string) :
  _enhance_prompt (_enhance_prompt prompt category []) category [] =
  _enhance_prompt prompt category [].
Proof.
  assert (Hadd : forall p word directive,
             contains word (lower directive) = true ->
             negb (contains word (lower (p ++ directive))) = false).
  { intros p word directive H. rewrite lower_app, contains_app_r; [reflexivity | exact H]. }
  unfold _enhance_prompt. cbv zeta.
  destruct (String.eqb_spec category "modeling") as [-> | Hm].
  - cbn [String.eqb Ascii.eqb Bool.eqb andb].
    destruct (negb (contains "scale" (lower prompt))) eqn:E.
    + now rewrite Hadd.
    + now rewrite E.
  - destruct (String.eqb_spec category "material") as [-> | Hmat].
    + cbn [String.eqb Ascii.eqb Bool.eqb andb].
      destruct (negb (contains "node" (lower prompt))) eqn:E.
      * now rewrite Hadd.
      * now rewrite E.
    + destruct (String.eqb_spec category "scene") as [-> | Hs].
      * cbn [andb]. destruct (negb (contains "camera" (lower prompt))) eqn:E.
        -- now rewrite Hadd.
        -- now rewrite E.
      * reflexivity.
Qed.

(** *** Prompt type *)

Lemma categorize_names (prompt : string) :
  exists category,
    _categorize_prompt prompt = Some category /\
    In category ["modeling"; "material"; "scene"; "animation"; "mixed"].
Proof.
  rewrite categorize_cases.
  destruct (list_max (map snd (category_scores (lower prompt))) =? 0).
  { exists "modeling". split; [reflexivity | simpl; tauto]. }
  destruct (1 <? List.length (qualifying (category_scores (lower prompt)))).
  { exists "mixed". split; [reflexivity | simpl; tauto]. }
  destruct (argmax (category_scores (lower prompt))) as [c|] eqn:A; [|discriminate A].
  exists c. split; [reflexivity|].
  pose proof (first_with_max_In _ _ (argmax_first_with_max _ _ A)) as Hin.
  apply (in_map fst) in Hin. rewrite category_scores_keys in Hin.
  cbn [fst] in Hin. simpl in Hin. simpl. tauto.
Qed.

(** X13: for every prompt, the prompt type of its category is a key of
    the table of prompt files, so [get_prompt_file] never falls back on
    its default; the file is the base prompt exactly for a mixed prompt. *)
Theorem prompt_type_has_file (prompt : string) (PROMPTS_DIR : Config.path) :
  exists category,
    _categorize_prompt prompt = Some category /\
    In (_get_prompt_type category) (map fst (Config.prompt_files PROMPTS_DIR)) /\
    (Config.get_prompt_file PROMPTS_DIR (_get_prompt_type category)
     = Config.base_prompt_file PROMPTS_DIR <-> category = "mixed").
Proof.
  destruct (categorize_names prompt) as (category & E & Hin).
  exists category. split; [exact E|].
  assert (Hne : forall a b, a <> b ->
                  Config.path_div PROMPTS_DIR a <> Config.path_div PROMPTS_DIR b).
  { intros a b Hab H. apply (f_equal Config.path_parts) in H. cbn in H.
    apply app_inv_head in H. congruence. }
  simpl in Hin.
  repeat (destruct Hin as [<- | Hin];
          [split; [simpl; tauto|];
           split; [intros H; try reflexivity; exfalso; revert H; apply Hne; discriminate
                  | intros H; try discriminate H; reflexivity]|]).
  destruct Hin.
Qed.

(** *** The three levels of complexity *)

(** X14: the prompt is complex exactly when it holds an advanced keyword
    and is long with some entities or of middle length with many; it is
    simple exactly when it holds no advanced keyword and is short with
    not too many entities or of middle length with few. *)
Theorem complexity_levels (prompt : string) (entities : entities_dict) :
  (_assess_complexity prompt entities = "complex" <->
   existsb (fun keyword => contains keyword (lower prompt)) complex_keywords = true /\
   ((50 < count_words false prompt /\ 5 < total_entities entities) \/
    (20 < count_words false prompt /\ 10 < total_entities entities))) /\
  (_assess_complexity prompt entities = "simple" <->
   existsb (fun keyword => contains keyword (lower prompt)) complex_keywords = false /\
   ((count_words false prompt <= 20 /\ total_entities entities <= 10) \/
    (count_words false prompt <= 50 /\ total_entities entities <= 5))).
Proof.
  unfold _assess_complexity, complexity_score. cbv zeta.
  destruct (existsb (fun keyword => contains keyword (lower prompt)) complex_keywords);
    destruct (Nat.ltb_spec 50 (count_words false prompt));
    destruct (Nat.ltb_spec 20 (count_words false prompt));
    destruct (Nat.ltb_spec 10 (total_entities entities));
    destruct (Nat.ltb_spec 5 (total_entities entities));
    try lia; cbn [Nat.add Nat.leb];
    (split;
     (split; [intros Hc; first [discriminate Hc | split; [reflexivity | lia]]
             | intros [Hk Hn]; first [discriminate Hk | reflexivity | exfalso; lia]])).
Qed.

(** *** What a match holds *)

Import PyRe PyReFacts.

Lemma take_app (a b : string) : take (String.length a) (a ++ b) = a.
Proof.
  unfold take. induction a as [|c a IH]; cbn [String.length append].
  - destruct b; reflexivity.
  - cbn [substring]. now rewrite IH.
Qed.

Lemma length_app_sub (a b : string) :
  String.length (a ++ b) - String.length b = String.length a.
Proof. rewrite length_append. lia. Qed.

Lemma lower_char_point (c : ascii) : lower_char c = "."%char -> c = "."%char.
Proof.
  destruct c as [[] [] [] [] [] [] [] []]; vm_compute; intros H;
    first [reflexivity | discriminate H].
Qed.

(** The number group matches numerals only. *)
Lemma matches_number (a : string) : matches number_re a -> is_numeral a.
Proof.
  unfold number_re. intros H. invert_matches H.
  match goal with
  | H1 : matches (Plus Digit) _, H2 : matches (Seq _ _) _ |- _ =>
      destruct (matches_plus_digit _ H1) as [D1 N1]; invert_matches H2
  end.
  match goal with
  | H2 : matches (Opt _) _, H3 : matches (Star Digit) _ |- _ =>
      pose proof (matches_star_digit _ _ H3 eq_refl) as D3; invert_matches H2
  end.
  - match goal with
    | |- is_numeral (?a ++ "" ++ ?b) => exists (a ++ b), ""
    end.
    cbn [append]. repeat split.
    + now apply append_not_nil_l.
    + now rewrite digits_only_app, D1, D3.
    + now left.
  - match goal with
    | H2 : matches (Lit _) _ |- _ => invert_matches H2
    end.
    match goal with
    | E : char_matches (Lit _) _ = true |- _ =>
        cbn [char_matches] in E; apply Ascii.eqb_eq in E;
        change (lower_char ".") with "."%char in E; apply lower_char_point in E; subst
    end.
    match goal with
    | |- is_numeral (?a ++ _ ++ ?b) => exists a, b
    end.
    repeat split; try assumption. now right.
Qed.

(** What one match of the pattern holds: a numeral, and a unit that is
    a key of [UNITS] up to case. *)
Lemma match_here_sound (s value unit : string) (n : nat) :
  match_here s = Some (value, unit, n) ->
  is_numeral value /\ exists key, In key (map fst UNITS) /\ lower unit = lower key.
Proof.
  unfold match_here. intros H.
  apply rmatch_sound in H as (a1 & s1 & -> & M1 & H).
  apply rmatch_sound in H as (a2 & s2 & -> & M2 & H).
  apply rmatch_sound in H as (a3 & s3 & -> & M3 & H).
  injection H as <- <- _.
  rewrite !length_app_sub, !take_app. split; [now apply matches_number|].
  apply matches_alternatives; [discriminate | exact M3].
Qed.

(** X15, for a prompt of characters up to U+00FF (every [string] is
    one): every pair that [re.findall] returns holds a numeral, which
    [float] reads, and a unit whose lower case is a key of [UNITS], so
    the default factor of [UNITS.get] is not used for such a prompt.
    (With a character beyond U+00FF it can be: [re.IGNORECASE] matches
    U+0130 against the [i] of [inch], and the lower case of that unit is
    no key.) *)
Theorem findall_values_and_units (prompt value unit : string) :
  In (value, unit) (findall prompt) ->
  is_numeral value /\
  exists factor,
    In (lower unit, factor) UNITS /\
    forall default, units_get (lower unit) default = factor.
Proof.
  unfold findall, finditer. intros H.
  apply in_map_iff in H as ([pos [v u]] & E & Hin). cbn [snd] in E. injection E as -> ->.
  apply finditer_from_match in Hin as [_ [n Hn]].
  apply match_here_sound in Hn as [Hnum (key & Hkey & Hlow)].
  split; [exact Hnum|]. rewrite Hlow. clear Hlow Hnum.
  cbn [UNITS map fst] in Hkey.
  repeat (destruct Hkey as [<- | Hkey];
          [eexists; split; [|intros default; vm_compute; reflexivity];
           vm_compute; tauto|]).
  destruct Hkey.
Qed.

Lemma findall_values_and_units_witness :
  is_numeral "2.5" /\
  exists factor,
    In (lower "FeeT", factor) UNITS /\
    forall default, units_get (lower "FeeT") default = factor.
Proof.
  apply (findall_values_and_units "a 5 meters and 10cm, 2.5 FeeT wide" "2.5" "FeeT").
  vm_compute. tauto.
Defined.

(** ** Cleaning: the abbreviation table *)

Section Cleaning.
Import PyRe.

Local Abbreviation is_w c := (Ascii.eqb (lower_char c) "w"%char).
Local Abbreviation is_slash c := (Ascii.eqb (lower_char c) "/"%char).
Local Abbreviation is_o c := (Ascii.eqb (lower_char c) "o"%char).

Lemma w_is_word_char (c : ascii) : is_w c = true -> is_word_char c = true.
Proof.
  destruct c as [[] [] [] [] [] [] [] []]; vm_compute; intros H;
    first [reflexivity | discriminate H].
Qed.

Lemma o_is_word_char (c : ascii) : is_o c = true -> is_word_char c = true.
Proof.
  destruct c as [[] [] [] [] [] [] [] []]; vm_compute; intros H;
    first [reflexivity | discriminate H].
Qed.

Lemma slash_is_no_word_char (c : ascii) : is_slash c = true -> is_word_char c = false.
Proof.
  destruct c as [[] [] [] [] [] [] [] []]; vm_compute; intros H;
    first [reflexivity | discriminate H].
Qed.

(** Where [\bw/\b] matches: after no word character, on a [w] and a
    slash that a word character follows. *)
Lemma match_with (prev : option ascii) (s : string) :
  match_length true (whole_word "w/") prev s =
  match s with
  | String c1 (String c2 rest) =>
      if negb (word_before prev) && is_w c1 && is_slash c2 && word_ahead rest
      then Some 2 else None
  | _ => None
  end.
Proof.
  unfold match_length, whole_word. cbn [bword bmatch bchar_matches].
  change (lower_char "w") with "w"%char. change (lower_char "/") with "/"%char.
  unfold at_boundary.
  destruct s as [|c1 [|c2 rest]]; cbn [word_ahead].
  - now destruct (xorb _ _).
  - destruct (is_w c1) eqn:E1.
    + now destruct (xorb _ _).
    + now destruct (xorb _ _).
  - destruct (is_w c1) eqn:E1.
    + rewrite (w_is_word_char _ E1).
      destruct (word_before prev); cbn [xorb negb andb]; [reflexivity|].
      destruct (is_slash c2) eqn:E2; [|reflexivity].
      cbn [word_before]. rewrite (slash_is_no_word_char _ E2). cbn [xorb].
      destruct (word_ahead rest); cbn [andb]; [|reflexivity].
      f_equal. cbn [String.length]. lia.
    + rewrite andb_false_r. now destruct (xorb _ _).
Qed.

(** Where [\bw/o\b] matches: after no word character, on a [w], a slash
    and an [o] that no word character follows. *)
Lemma match_without (prev : option ascii) (s : string) :
  match_length true (whole_word "w/o") prev s =
  match s with
  | String c1 (String c2 (String c3 rest)) =>
      if negb (word_before prev) && is_w c1 && is_slash c2 && is_o c3 &&
         negb (word_ahead rest)
      then Some 3 else None
  | _ => None
  end.
Proof.
  unfold match_length, whole_word. cbn [bword bmatch bchar_matches].
  change (lower_char "w") with "w"%char. change (lower_char "/") with "/"%char.
  change (lower_char "o") with "o"%char.
  unfold at_boundary.
  destruct s as [|c1 [|c2 [|c3 rest]]]; cbn [word_ahead].
  - now destruct (xorb _ _).
  - destruct (xorb _ _); [|reflexivity]. now destruct (is_w c1).
  - destruct (xorb _ _); [|reflexivity]. destruct (is_w c1); [|reflexivity].
    now destruct (is_slash c2).
  - destruct (is_w c1) eqn:E1.
    + rewrite (w_is_word_char _ E1).
      destruct (word_before prev); cbn [xorb negb andb]; [reflexivity|].
      destruct (is_slash c2) eqn:E2; [|reflexivity].
      destruct (is_o c3) eqn:E3; [|reflexivity].
      cbn [word_before andb]. rewrite (o_is_word_char _ E3). cbn [xorb].
      destruct (word_ahead rest); cbn [xorb negb andb]; [reflexivity|].
      f_equal. cbn [String.length]. lia.
    + rewrite andb_false_r. now destruct (xorb _ _).
Qed.

Local Abbreviation expand_with := (sub_from true (whole_word "w/") "with").
Local Abbreviation expand_without := (sub_from true (whole_word "w/o") "without").

Lemma expand_with_match (prev : option ascii) (c1 c2 : ascii) (rest : string) :
  negb (word_before prev) && is_w c1 && is_slash c2 && word_ahead rest = true ->
  expand_with 0 prev (String c1 (String c2 rest)) =
  "with" ++ expand_with 0 (Some c2) rest.
Proof.
  intros C. cbn [sub_from]. rewrite match_with, C. reflexivity.
Qed.

Lemma expand_with_skip (prev : option ascii) (c : ascii) (s : string) :
  match_length true (whole_word "w/") prev (String c s) = None ->
  expand_with 0 prev (String c s) = String c (expand_with 0 (Some c) s).
Proof. intros M. cbn [sub_from]. now rewrite M. Qed.

Lemma expand_without_skip (prev : option ascii) (c : ascii) (s : string) :
  match_length true (whole_word "w/o") prev (String c s) = None ->
  expand_without 0 prev (String c s) = String c (expand_without 0 (Some c) s).
Proof. intros M. cbn [sub_from]. now rewrite M. Qed.

Lemma no_without_1 (prev : option ascii) (c : ascii) (s : string) :
  is_w c = false ->
  match_length true (whole_word "w/o") prev (String c s) = None.
Proof.
  intros H. rewrite match_without. destruct s as [|c2 [|c3 rest]]; try reflexivity.
  now rewrite H, andb_false_r.
Qed.

Lemma no_without_2 (prev : option ascii) (c1 c2 : ascii) (s : string) :
  is_slash c2 = false ->
  match_length true (whole_word "w/o") prev (String c1 (String c2 s)) = None.
Proof.
  intros H. rewrite match_without. destruct s as [|c3 rest]; try reflexivity.
  now rewrite H, andb_false_r.
Qed.

Lemma no_without_3 (prev : option ascii) (c1 c2 c3 : ascii) (s : string) :
  is_o c3 = false ->
  match_length true (whole_word "w/o") prev (String c1 (String c2 (String c3 s))) = None.
Proof.
  intros H. rewrite match_without. now rewrite H, andb_false_r.
Qed.

(** In a text where [w/] has been expanded, [\bw/o\b] matches nowhere:
    a [w/o] of the original text has become [witho].  The scan for
    [w/o] may have a word character before a position where the scan for
    [w/] had none (the [h] of an expansion), not the other way round. *)
Lemma without_finds_nothing (n : nat) :
  forall (s : string) (prev prev' : option ascii),
    String.length s <= n ->
    (word_before prev' = false -> word_before prev = false) ->
    expand_without 0 prev' (expand_with 0 prev s) = expand_with 0 prev s.
Proof.
  induction n as [|n IH]; intros s prev prev' Hlen Hrel.
  - destruct s; [reflexivity | cbn [String.length] in Hlen; lia].
  - destruct s as [|c1 s']; [reflexivity|].
    cbn [String.length] in Hlen.
    destruct (match_length true (whole_word "w/") prev (String c1 s')) eqn:M1.
    + rewrite match_with in M1. destruct s' as [|c2 rest]; [discriminate M1|].
      destruct (negb (word_before prev) && is_w c1 && is_slash c2 && word_ahead rest)
        eqn:C; [|discriminate M1].
      rewrite (expand_with_match _ _ _ _ C). cbn [append].
      rewrite expand_without_skip by (apply no_without_2; reflexivity).
      rewrite expand_without_skip by (apply no_without_1; reflexivity).
      rewrite expand_without_skip by (apply no_without_1; reflexivity).
      rewrite expand_without_skip by (apply no_without_1; reflexivity).
      do 4 f_equal. apply IH.
      * cbn [String.length] in Hlen. lia.
      * intros H. discriminate H.
    + rewrite (expand_with_skip _ _ _ M1).
      rewrite expand_without_skip.
      { f_equal. apply IH; [lia | trivial]. }
      destruct s' as [|c2 s''].
      { cbn [sub_from]. now rewrite match_without. }
      destruct (match_length true (whole_word "w/") (Some c1) (String c2 s'')) eqn:M2.
      { rewrite match_with in M2. destruct s'' as [|c3 rest]; [discriminate M2|].
        destruct (negb (word_before (Some c1)) && is_w c2 && is_slash c3 && word_ahead rest)
          eqn:C; [|discriminate M2].
        rewrite (expand_with_match _ _ _ _ C). cbn [append].
        apply no_without_2. reflexivity. }
      rewrite (expand_with_skip _ _ _ M2).
      destruct s'' as [|c3 s'''].
      { cbn [sub_from]. now rewrite match_without. }
      destruct (match_length true (whole_word "w/") (Some c2) (String c3 s''')) eqn:M3.
      { rewrite match_with in M3. destruct s''' as [|c4 rest]; [discriminate M3|].
        destruct (negb (word_before (Some c2)) && is_w c3 && is_slash c4 && word_ahead rest)
          eqn:C; [|discriminate M3].
        rewrite (expand_with_match _ _ _ _ C). cbn [append].
        apply no_without_3. reflexivity. }
      rewrite (expand_with_skip _ _ _ M3).
      rewrite match_without. rewrite match_with in M1. cbn [word_ahead] in M1.
      destruct (word_before prev') eqn:W'; cbn [negb andb]; [reflexivity|].
      rewrite (Hrel eq_refl) in M1. cbn [negb andb] in M1.
      destruct (is_w c1); [|reflexivity].
      destruct (is_slash c2); [|reflexivity].
      destruct (is_o c3) eqn:E3; [|reflexivity].
      rewrite (o_is_word_char _ E3) in M1. discriminate M1.
Qed.

(** X20 ([_clean_prompt], the loop over [replacements]).  The last entry
    of the table, [w/o] to [without], never changes the text: whatever
    the prompt, the loop gives what it gives with the first four entries
    alone.  A [w/o] in the prompt is matched by the entry [w/] before
    it and reads [witho] afterwards. *)
Theorem without_is_never_substituted (cleaned : string) :
  normalize replacements cleaned =
  normalize [ ("pls", "please"); ("plz", "please"); ("thx", "thanks");
              ("w/", "with") ] cleaned.
Proof.
  unfold normalize, replacements. cbn [fold_left fst snd]. unfold sub at 1.
  unfold sub at 4.
  eapply without_finds_nothing; [apply Nat.le_refl | trivial].
Qed.

Example clean_prompt_sample :
  _clean_prompt "  pls make   a Cube w/o edges!! " = "please make a Cube witho edges".
Proof. vm_compute. reflexivity. Qed.

End Cleaning.

(** ** Entities *)

Section Entities.
Import PyRe.

(** A match of the characters of [w], case ignored, covers a text that
    is [w] up to case. *)
Lemma bword_sound {R : Type} (w : string) :
  forall (prev : option ascii) (s : string)
         (k : option ascii -> string -> option R) (x : R),
    bmatch true (bword w) prev s k = Some x ->
    exists u rest,
      s = u ++ rest /\ lower u = lower w /\ k (last_before prev u) rest = Some x.
Proof.
  induction w as [|c w IH]; intros prev s k x H; cbn [bword bmatch] in H.
  - exists "", s. auto.
  - destruct s as [|c' s']; [discriminate H|].
    cbn [bchar_matches] in H.
    destruct (Ascii.eqb (lower_char c') (lower_char c)) eqn:E; [|discriminate H].
    apply Ascii.eqb_eq in E.
    destruct (IH _ _ _ _ H) as (u & rest & -> & Hu & Hk).
    exists (String c' u), rest. cbn [append lower last_before]. now rewrite E, Hu.
Qed.

(** And such a text is matched, in one way only. *)
Lemma bword_complete {R : Type} (w : string) :
  forall (u : string) (prev : option ascii) (rest : string)
         (k : option ascii -> string -> option R),
    lower u = lower w ->
    bmatch true (bword w) prev (u ++ rest) k = k (last_before prev u) rest.
Proof.
  induction w as [|c w IH]; intros [|c' u] prev rest k H; cbn [lower] in H;
    try discriminate H; [reflexivity|].
  injection H as Hc Hu.
  cbn [bword bmatch append bchar_matches last_before].
  rewrite Hc, Ascii.eqb_refl. now apply IH.
Qed.

Lemma whole_word_sound (w : string) (prev : option ascii) (s : string) (n : nat) :
  match_length true (whole_word w) prev s = Some n ->
  exists u rest, s = u ++ rest /\ lower u = lower w.
Proof.
  unfold match_length, whole_word. cbn [bmatch]. intros H.
  destruct (at_boundary prev s); [|discriminate H].
  destruct (bword_sound _ _ _ _ _ H) as (u & rest & Hs & Hu & _). eauto.
Qed.

Lemma object_re_sound (w : string) (prev : option ascii) (s : string) (n : nat) :
  match_length true (object_re w) prev s = Some n ->
  exists u rest, s = u ++ rest /\ lower u = lower w.
Proof.
  unfold match_length, object_re. cbn [bmatch]. intros H.
  destruct (at_boundary prev s); [|discriminate H].
  destruct (bword_sound _ _ _ _ _ H) as (u & rest & Hs & Hu & _). eauto.
Qed.

(** A search that succeeds has found its word in the text, case ignored. *)
Lemma search_from_sound (r : bregex) (w : string) :
  (forall prev s n, match_length true r prev s = Some n ->
                    exists u rest, s = u ++ rest /\ lower u = lower w) ->
  forall (s : string) (prev : option ascii),
    search_from true r prev s = true -> contains (lower w) (lower s) = true.
Proof.
  intros Hr. induction s as [|c s IH]; intros prev H; cbn [search_from] in H.
  - destruct (match_length true r prev "") eqn:M; [|discriminate H].
    destruct (Hr _ _ _ M) as (u & rest & -> & Hu).
    rewrite lower_app, Hu. apply (contains_intro "").
  - destruct (match_length true r prev (String c s)) eqn:M.
    + destruct (Hr _ _ _ M) as (u & rest & -> & Hu).
      rewrite lower_app, Hu. apply (contains_intro "").
    + cbn [lower contains]. rewrite (IH _ H). apply orb_true_r.
Qed.

Lemma Some_inj {A : Type} (a b : A) : Some a = Some b -> a = b.
Proof. intros H. now injection H. Qed.

Lemma EList_inj (a b : list entity) : EList a = EList b -> a = b.
Proof. intros H. now injection H. Qed.

Lemma lower_vocabulary (name : string) :
  In name objects \/ In name colors \/ In name materials -> lower name = name.
Proof.
  unfold objects, colors, materials. cbn [In].
  intros H. repeat (destruct H as [H|H]); subst; try reflexivity; contradiction.
Qed.

(** X21 ([_extract_entities]), for a prompt of characters up to U+00FF
    (every [string] is one).  An object, a colour or a material is
    reported only when its name occurs in the prompt, case ignored: every
    name in a list of the result is a substring of the lower-cased
    prompt.  (The fourth list holds pairs, not names.  With a character
    beyond U+00FF the property can fail: [re.IGNORECASE] matches U+0130
    against the [i] of [pink], and the lower-cased prompt then does not
    hold [pink].) *)
Theorem reported_names_occur
  (max_str_digits : nat) (prompt key name : string)
  (found : entities_dict) (items : list entity) :
  _extract_entities max_str_digits prompt = Some found ->
  In (key, EList items) found ->
  In (Term name) items ->
  contains name (lower prompt) = true.
Proof.
  unfold _extract_entities. intros Hf Hk Hn.
  destruct (quantity_pairs max_str_digits (quantities_from 0 None prompt))
    as [pairs|] eqn:Q; [|discriminate Hf].
  apply Some_inj in Hf. subst found. cbn [In] in Hk.
  assert (Hterm : forall (f : string -> bool) (voc : list string),
             In (Term name) (map Term (filter f voc)) -> In name voc /\ f name = true).
  { intros f voc H. apply in_map_iff in H. destruct H as (x & E & Hx).
    injection E as ->. now apply filter_In in Hx. }
  assert (Hq : forall quantities pairs',
             quantity_pairs max_str_digits quantities = Some pairs' ->
             ~ In (Term name) pairs').
  { induction quantities as [|[num obj] rest IH]; cbn [quantity_pairs]; intros pairs' H.
    - injection H as <-. intros [].
    - destruct (py_int max_str_digits num); [|discriminate H].
      destruct (quantity_pairs max_str_digits rest); [|discriminate H].
      injection H as <-. intros [E|Hin]; [discriminate E | exact (IH _ eq_refl Hin)]. }
  destruct Hk as [E|[E|[E|[E|[]]]]];
    apply (f_equal snd) in E; cbn [snd] in E; apply EList_inj in E; subst items.
  - apply Hterm in Hn. destruct Hn as [Hv Hs].
    rewrite <- (lower_vocabulary name) at 1 by auto.
    apply (search_from_sound (object_re name) name (object_re_sound name) _ _ Hs).
  - apply Hterm in Hn. destruct Hn as [Hv Hs].
    rewrite <- (lower_vocabulary name) at 1 by auto.
    apply (search_from_sound (whole_word name) name (whole_word_sound name) _ _ Hs).
  - apply Hterm in Hn. destruct Hn as [Hv Hs].
    rewrite <- (lower_vocabulary name) at 1 by auto.
    apply (search_from_sound (whole_word name) name (whole_word_sound name) _ _ Hs).
  - exfalso. exact (Hq _ _ Q Hn).
Qed.

Lemma reported_names_occur_witness :
  contains "cube" (lower "Two red Cubes, 3 cm wide") = true.
Proof.
  apply (reported_names_occur 4300 "Two red Cubes, 3 cm wide" "objects" "cube"
           [ ("objects", EList [Term "cube"]); ("colors", EList [Term "red"]);
             ("materials", EList []); ("quantities", EList [Quantity 3 "cm"]) ]
           [Term "cube"]).
  - vm_compute. reflexivity.
  - left. reflexivity.
  - left. reflexivity.
Defined.

(** *** Whole words *)

Lemma is_word_lower_char (c : ascii) : is_word_char (lower_char c) = is_word_char c.
Proof. destruct c as [[] [] [] [] [] [] [] []]; vm_compute; reflexivity. Qed.

Lemma word_only_lower (u w : string) :
  lower u = lower w -> word_only w = true -> word_only u = true.
Proof.
  revert w. induction u as [|c u IH]; intros [|d w]; cbn [lower word_only];
    try discriminate; [reflexivity|].
  intros [= Hc Hu] H. apply andb_prop in H. destruct H as [Hd Hw].
  rewrite (IH _ Hu Hw), andb_true_r.
  now rewrite <- is_word_lower_char, Hc, is_word_lower_char.
Qed.

Lemma lower_not_nil (u w : string) : lower u = lower w -> w <> "" -> u <> "".
Proof. destruct u, w; cbn [lower]; congruence. Qed.

Lemma word_only_ahead (u rest : string) :
  u <> "" -> word_only u = true -> word_ahead (u ++ rest) = true.
Proof.
  destruct u as [|c u]; [congruence|]. cbn [append word_only word_ahead].
  intros _ H. now apply andb_prop in H.
Qed.

Lemma word_only_before (u : string) :
  forall prev : option ascii,
    u <> "" -> word_only u = true -> word_before (last_before prev u) = true.
Proof.
  induction u as [|c u IH]; intros prev Hne H; [congruence|].
  cbn [word_only] in H. apply andb_prop in H. destruct H as [Hc Hu].
  cbn [last_before]. destruct u as [|d u]; [exact Hc|].
  apply IH; [discriminate | exact Hu].
Qed.

Lemma lower_app_inv (u a b : string) :
  lower u = a ++ b -> exists u1 u2, u = u1 ++ u2 /\ lower u1 = a /\ lower u2 = b.
Proof.
  revert u. induction a as [|x a IH]; intros u H.
  - exists "", u. auto.
  - destruct u as [|c u]; [discriminate H|]. cbn [lower append] in H.
    injection H as Hc Hu. destruct (IH _ Hu) as (u1 & u2 & -> & H1 & H2).
    exists (String c u1), u2. cbn [append lower]. now rewrite Hc, H1.
Qed.

Lemma last_before_app (u v : string) :
  forall prev : option ascii,
    last_before prev (u ++ v) = last_before (last_before prev u) v.
Proof. induction u as [|c u IH]; intros prev; [reflexivity | apply IH]. Qed.

(** Where [\b w \b] matches, for a word [w]: on a text that is [w] up to
    case, with no word character before it or after it. *)
Lemma whole_word_match_iff (w : string) (prev : option ascii) (s : string) :
  w <> "" -> word_only w = true ->
  (match_length true (whole_word w) prev s <> None <->
   exists u post,
     s = u ++ post /\ lower u = lower w /\
     word_before prev = false /\ word_ahead post = false).
Proof.
  intros Hne Hw. unfold match_length, whole_word. cbn [bmatch]. split.
  - destruct (at_boundary prev s) eqn:B; [|congruence].
    destruct (bmatch true (bword w) prev s _) eqn:M; [|congruence]. intros _.
    apply bword_sound in M. destruct M as (u & rest & -> & Hu & Hk).
    destruct (at_boundary (last_before prev u) rest) eqn:B2; [|discriminate Hk].
    pose proof (lower_not_nil _ _ Hu Hne) as Hune.
    pose proof (word_only_lower _ _ Hu Hw) as Huw.
    unfold at_boundary in B, B2.
    rewrite (word_only_ahead _ _ Hune Huw) in B.
    rewrite (word_only_before _ _ Hune Huw) in B2.
    exists u, rest. repeat split; [exact Hu | |].
    + now destruct (word_before prev).
    + now destruct (word_ahead rest).
  - intros (u & post & -> & Hu & Hp & Ha).
    pose proof (lower_not_nil _ _ Hu Hne) as Hune.
    pose proof (word_only_lower _ _ Hu Hw) as Huw.
    unfold at_boundary at 1. rewrite Hp, (word_only_ahead _ _ Hune Huw). cbn [xorb].
    rewrite (bword_complete w u) by exact Hu.
    unfold at_boundary. rewrite (word_only_before _ _ Hune Huw), Ha. cbn [xorb].
    discriminate.
Qed.

(** Where [\b w s? \b] matches: on [w] or on [w] and an [s]. *)
Lemma object_re_match_iff (w : string) (prev : option ascii) (s : string) :
  w <> "" -> word_only w = true ->
  (match_length true (object_re w) prev s <> None <->
   exists u post,
     s = u ++ post /\ (lower u = lower w \/ lower u = lower w ++ "s") /\
     word_before prev = false /\ word_ahead post = false).
Proof.
  intros Hne Hw. unfold match_length, object_re. cbn [bmatch bchar_matches].
  change (lower_char "s") with "s"%char. split.
  - destruct (at_boundary prev s) eqn:B; [|congruence].
    destruct (bmatch true (bword w) prev s _) eqn:M; [|congruence]. intros _.
    apply bword_sound in M. destruct M as (u & rest & -> & Hu & Hk).
    pose proof (lower_not_nil _ _ Hu Hne) as Hune.
    pose proof (word_only_lower _ _ Hu Hw) as Huw.
    unfold at_boundary in B. rewrite (word_only_ahead _ _ Hune Huw) in B.
    assert (Hp : word_before prev = false) by now destruct (word_before prev).
    destruct rest as [|c rest].
    + exists u, "". repeat split; auto.
    + destruct (Ascii.eqb (lower_char c) "s") eqn:Ec.
      * destruct (at_boundary (Some c) rest) eqn:B2.
        -- exists (u ++ String c ""), rest. rewrite append_assoc. cbn [append].
           repeat split; [right | exact Hp |].
           ++ rewrite lower_app, Hu. cbn [lower]. apply Ascii.eqb_eq in Ec. now rewrite Ec.
           ++ unfold at_boundary in B2. cbn [word_before] in B2.
              assert (Hc : is_word_char c = true).
              { rewrite <- is_word_lower_char. apply Ascii.eqb_eq in Ec. now rewrite Ec. }
              rewrite Hc in B2. now destruct (word_ahead rest).
        -- destruct (at_boundary (last_before prev u) (String c rest)) eqn:B3;
             [|discriminate Hk].
           unfold at_boundary in B3. rewrite (word_only_before _ _ Hune Huw) in B3.
           exists u, (String c rest). repeat split; auto.
           now destruct (word_ahead (String c rest)).
      * destruct (at_boundary (last_before prev u) (String c rest)) eqn:B3;
          [|discriminate Hk].
        unfold at_boundary in B3. rewrite (word_only_before _ _ Hune Huw) in B3.
        exists u, (String c rest). repeat split; auto.
        now destruct (word_ahead (String c rest)).
  - intros (u & post & -> & [Hu|Hu] & Hp & Ha).
    + pose proof (lower_not_nil _ _ Hu Hne) as Hune.
      pose proof (word_only_lower _ _ Hu Hw) as Huw.
      unfold at_boundary at 1. rewrite Hp, (word_only_ahead _ _ Hune Huw). cbn [xorb].
      rewrite (bword_complete w u) by exact Hu.
      assert (B : at_boundary (last_before prev u) post = true).
      { unfold at_boundary. now rewrite (word_only_before _ _ Hune Huw), Ha. }
      rewrite B. destruct post as [|c post]; [discriminate|].
      destruct (Ascii.eqb (lower_char c) "s") eqn:Ec; [|discriminate].
      exfalso. cbn [word_ahead] in Ha. apply Ascii.eqb_eq in Ec.
      rewrite <- is_word_lower_char, Ec in Ha. discriminate Ha.
    + destruct (lower_app_inv _ _ _ Hu) as (u1 & u2 & -> & H1 & H2).
      destruct u2 as [|c [|d u2]]; try discriminate H2.
      cbn [lower] in H2. injection H2 as Hc.
      pose proof (lower_not_nil _ _ H1 Hne) as Hune.
      pose proof (word_only_lower _ _ H1 Hw) as Huw.
      rewrite !append_assoc. cbn [append].
      unfold at_boundary at 1. rewrite Hp, (word_only_ahead _ _ Hune Huw). cbn [xorb].
      rewrite (bword_complete w u1) by exact H1.
      rewrite Hc. cbn [Ascii.eqb Bool.eqb].
      assert (B : at_boundary (Some c) post = true).
      { unfold at_boundary. cbn [word_before].
        rewrite <- is_word_lower_char, Hc, Ha. reflexivity. }
      rewrite B. discriminate.
Qed.

(** A search succeeds exactly when the pattern matches at a position. *)
Lemma search_from_iff (r : bregex) (s : string) :
  forall prev : option ascii,
    search_from true r prev s = true <->
    exists pre s', s = pre ++ s' /\
                   match_length true r (last_before prev pre) s' <> None.
Proof.
  induction s as [|c s IH]; intros prev; cbn [search_from].
  - destruct (match_length true r prev "") eqn:M; split.
    + intros _. exists "", "". cbn [append last_before]. split; congruence.
    + reflexivity.
    + discriminate.
    + intros (pre & s' & E & Hm). destruct pre; [|discriminate E].
      cbn [append] in E. subst s'. cbn [last_before] in Hm. congruence.
  - destruct (match_length true r prev (String c s)) eqn:M; split.
    + intros _. exists "", (String c s). cbn [append last_before]. split; congruence.
    + reflexivity.
    + intros H. apply IH in H. destruct H as (pre & s' & -> & Hm).
      exists (String c pre), s'. split; [reflexivity | exact Hm].
    + intros (pre & s' & E & Hm). destruct pre as [|c' pre].
      * cbn [append] in E. subst s'. cbn [last_before] in Hm. congruence.
      * cbn [append] in E. injection E as <- ->. apply IH. eauto.
Qed.

Lemma vocabulary_words (name : string) :
  In name objects \/ In name colors \/ In name materials ->
  name <> "" /\ word_only name = true.
Proof.
  unfold objects, colors, materials. cbn [In].
  intros H. repeat (destruct H as [H|H]); subst;
    first [contradiction | split; [discriminate | reflexivity]].
Qed.

Lemma search_whole_word (name prompt : string) :
  In name objects \/ In name colors \/ In name materials ->
  (search true (whole_word name) prompt = true <-> occurs_as_word name prompt).
Proof.
  intros Hv. destruct (vocabulary_words _ Hv) as [Hne Hw].
  pose proof (lower_vocabulary _ Hv) as Hl.
  unfold search, occurs_as_word. rewrite search_from_iff. split.
  - intros (pre & s' & -> & Hm).
    apply (whole_word_match_iff _ _ _ Hne Hw) in Hm.
    destruct Hm as (u & post & -> & Hu & Hp & Ha).
    exists pre, u, post. rewrite Hl in Hu. auto.
  - intros (pre & u & post & -> & Hu & Hp & Ha).
    exists pre, (u ++ post). split; [reflexivity|].
    apply (whole_word_match_iff _ _ _ Hne Hw).
    exists u, post. rewrite Hl. auto.
Qed.

Lemma search_object (name prompt : string) :
  In name objects ->
  (search true (object_re name) prompt = true <->
   occurs_as_word name prompt \/ occurs_as_word (name ++ "s") prompt).
Proof.
  intros Hv. destruct (vocabulary_words name (or_introl Hv)) as [Hne Hw].
  pose proof (lower_vocabulary name (or_introl Hv)) as Hl.
  unfold search, occurs_as_word. rewrite search_from_iff. split.
  - intros (pre & s' & -> & Hm).
    apply (object_re_match_iff _ _ _ Hne Hw) in Hm.
    destruct Hm as (u & post & -> & Hu & Hp & Ha). rewrite Hl in Hu.
    destruct Hu as [Hu|Hu]; [left | right]; exists pre, u, post; auto.
  - intros [(pre & u & post & -> & Hu & Hp & Ha)|(pre & u & post & -> & Hu & Hp & Ha)];
      exists pre, (u ++ post); (split; [reflexivity|]);
      apply (object_re_match_iff _ _ _ Hne Hw); exists u, post; rewrite Hl; auto.
Qed.

Lemma In_terms (name : string) (f : string -> bool) (voc : list string) :
  In (Term name) (map Term (filter f voc)) <-> In name voc /\ f name = true.
Proof.
  rewrite in_map_iff. split.
  - intros (x & E & Hx). injection E as ->. now apply filter_In in Hx.
  - intros H. exists name. split; [reflexivity | now apply filter_In].
Qed.

(** X24 ([_extract_entities]), for a prompt of characters up to U+00FF
    (every [string] is one).  What the three vocabulary lists of the
    result hold: a colour or a material of the vocabulary is reported
    exactly when it occurs in the prompt as a whole word, case ignored (no
    word character before it or after it); an object exactly when it, or
    it with an [s] added, occurs so.  The result has the four keys in the
    order of the source.  (With a character beyond U+00FF a name is also
    reported for a word that [re.IGNORECASE] matches and whose lower case
    is not the name, as [pink] for a word with U+0130 in place of its
    [i].) *)
Theorem entities_are_whole_words
  (max_str_digits : nat) (prompt : string) (found : entities_dict) :
  _extract_entities max_str_digits prompt = Some found ->
  exists found_objects found_colors found_materials quantities,
    found = [ ("objects", EList found_objects); ("colors", EList found_colors);
              ("materials", EList found_materials);
              ("quantities", EList quantities) ] /\
    (forall name, In (Term name) found_objects <->
       In name objects /\
       (occurs_as_word name prompt \/ occurs_as_word (name ++ "s") prompt)) /\
    (forall name, In (Term name) found_colors <->
       In name colors /\ occurs_as_word name prompt) /\
    (forall name, In (Term name) found_materials <->
       In name materials /\ occurs_as_word name prompt).
Proof.
  unfold _extract_entities. intros Hf.
  destruct (quantity_pairs max_str_digits (quantities_from 0 None prompt))
    as [pairs|] eqn:Q; [|discriminate Hf].
  apply Some_inj in Hf. subst found.
  do 4 eexists. split; [reflexivity|].
  split; [|split]; intros name; rewrite In_terms;
    (split; intros [Hv H]; (split; [exact Hv|])).
  - now apply (search_object _ _ Hv).
  - now apply (search_object _ _ Hv).
  - apply (search_whole_word name prompt); auto.
  - apply (search_whole_word name prompt); auto.
  - apply (search_whole_word name prompt); auto.
  - apply (search_whole_word name prompt); auto.
Qed.

Lemma entities_are_whole_words_witness :
  exists found_objects found_colors found_materials quantities,
    [ ("objects", EList [Term "cube"]); ("colors", EList [Term "red"]);
      ("materials", EList []); ("quantities", EList [Quantity 3 "cm"]) ]
    = [ ("objects", EList found_objects); ("colors", EList found_colors);
        ("materials", EList found_materials);
        ("quantities", EList quantities) ] /\
    (forall name, In (Term name) found_objects <->
       In name objects /\
       (occurs_as_word name "Two red Cubes, 3 cm wide" \/
        occurs_as_word (name ++ "s") "Two red Cubes, 3 cm wide")) /\
    (forall name, In (Term name) found_colors <->
       In name colors /\ occurs_as_word name "Two red Cubes, 3 cm wide") /\
    (forall name, In (Term name) found_materials <->
       In name materials /\ occurs_as_word name "Two red Cubes, 3 cm wide").
Proof.
  apply (entities_are_whole_words 4300 "Two red Cubes, 3 cm wide").
  vm_compute. reflexivity.
Defined.

End Entities.

(** ** Cleaning: whitespace *)

Section Whitespace.
Import PyRe.

(** A match of [\b old \b] covers as many characters as [old] has, and
    they are [old] up to case. *)
Lemma whole_word_match (old : string) (prev : option ascii) (s : string) (n : nat) :
  match_length true (whole_word old) prev s = Some n ->
  exists u rest, s = u ++ rest /\ lower u = lower old /\ String.length u = n.
Proof.
  unfold match_length, whole_word. cbn [bmatch]. intros H.
  destruct (at_boundary prev s); [|discriminate H].
  destruct (bword_sound _ _ _ _ _ H) as (u & rest & Hs & Hu & Hk).
  destruct (at_boundary (last_before prev u) rest); [|discriminate Hk].
  injection Hk as Hn. exists u, rest. repeat split; [exact Hs | exact Hu |].
  rewrite Hs, length_append in Hn. lia.
Qed.

Variables old repl : string.
Hypothesis old_no_space : no_space old = true.
Hypothesis repl_no_space : no_space repl = true.
Hypothesis repl_not_empty : repl <> "".

(** A replacement does not start with whitespace, so the result starts
    with whitespace only where the text does. *)
Lemma sub_space_ahead (prev : option ascii) (s : string) :
  space_ahead (sub_from true (whole_word old) repl 0 prev s) = true ->
  space_ahead s = true.
Proof.
  destruct s as [|c s]; [trivial|]. cbn [sub_from].
  destruct (match_length true (whole_word old) prev (String c s)).
  - now rewrite space_ahead_app.
  - trivial.
Qed.

Lemma sub_single_spaced (s : string) :
  forall (skip : nat) (prev : option ascii),
    single_spaced s = true ->
    (exists u rest, s = u ++ rest /\ String.length u = skip /\ no_space u = true) ->
    single_spaced (sub_from true (whole_word old) repl skip prev s) = true.
Proof.
  induction s as [|c s IH]; intros skip prev Hs Hskip; [reflexivity|].
  pose proof (single_spaced_tail _ _ Hs) as Hs'.
  cbn [sub_from]. destruct skip as [|k].
  - destruct (match_length true (whole_word old) prev (String c s)) as [n|] eqn:M.
    + apply no_space_single_spaced; [exact repl_no_space|].
      apply IH; [exact Hs'|].
      destruct (whole_word_match _ _ _ _ M) as (u & rest & E & Hu & Hn).
      pose proof (no_space_lower _ _ Hu old_no_space) as Hnu.
      destruct u as [|c' u].
      * exists "", s. subst n. auto.
      * cbn [append] in E. injection E as _ ->.
        exists u, rest. cbn [String.length] in Hn. cbn [no_space] in Hnu.
        apply andb_prop in Hnu. destruct Hnu as [_ Hnu].
        repeat split; [lia | exact Hnu].
    + cbn [single_spaced]. rewrite IH; [|exact Hs'|exists "", s; auto].
      rewrite andb_true_r. cbn [single_spaced] in Hs.
      apply andb_prop in Hs. destruct Hs as [Hc _].
      destruct (is_space c); [|reflexivity]. cbn [negb orb] in *.
      apply andb_prop in Hc. destruct Hc as [Hc Hn]. rewrite Hc. cbn [andb].
      destruct (space_ahead (sub_from true (whole_word old) repl 0 (Some c) s)) eqn:A;
        [|reflexivity].
      apply sub_space_ahead in A. rewrite A in Hn. discriminate Hn.
  - apply IH; [exact Hs'|].
    destruct Hskip as (u & rest & E & Hn & Hu).
    destruct u as [|c' u]; [discriminate Hn|].
    cbn [append] in E. injection E as _ ->.
    exists u, rest. cbn [String.length] in Hn. cbn [no_space] in Hu.
    apply andb_prop in Hu. destruct Hu as [_ Hu].
    repeat split; [lia | exact Hu].
Qed.

End Whitespace.

Section CleanPrompt.
Import PyRe.

(** X22 ([_clean_prompt]).  The cleaned prompt has no whitespace but
    single spaces: every whitespace character in it is a space, and the
    character after a space is no whitespace.  (A space can still be
    the first or the last character, when punctuation around it was
    stripped.) *)
Theorem clean_prompt_single_spaced (prompt : string) :
  single_spaced (_clean_prompt prompt) = true.
Proof.
  unfold _clean_prompt, normalize, replacements. cbn [fold_left fst snd]. unfold sub.
  assert (Hnil : forall s : string, exists u rest, s = u ++ rest /\ String.length u = 0 /\ no_space u = true)
    by (intros s; exists "", s; auto).
  repeat (apply sub_single_spaced;
          [reflexivity | reflexivity | discriminate | | apply Hnil]).
  unfold strip_chars.
  apply single_spaced_rstrip_chars, single_spaced_lstrip_chars.
  apply single_spaced_join, split_ws_words.
Qed.

Example clean_prompt_leading_space : _clean_prompt ". hello" = " hello".
Proof. vm_compute. reflexivity. Qed.

End CleanPrompt.

(** ** The whole analysis *)

Section Process.
Import PyRe.

Lemma py_int_None (max_str_digits : nat) (num : string) :
  py_int max_str_digits num = None <->
  0 < max_str_digits /\ max_str_digits < String.length num.
Proof.
  unfold py_int.
  destruct (Nat.ltb_spec 0 max_str_digits);
    destruct (Nat.ltb_spec max_str_digits (String.length num)); cbn [andb];
    (split; [first [discriminate | intros _; split; assumption]
            | intros [H1 H2]; first [reflexivity | lia]]).
Qed.

Lemma quantity_pairs_None (max_str_digits : nat)
  (quantities : list (string * string)) :
  quantity_pairs max_str_digits quantities = None <->
  exists num obj, In (num, obj) quantities /\ py_int max_str_digits num = None.
Proof.
  induction quantities as [|[num obj] rest IH]; cbn [quantity_pairs In].
  - split; [discriminate | intros (? & ? & [] & _)].
  - destruct (py_int max_str_digits num) eqn:P.
    + destruct (quantity_pairs max_str_digits rest).
      * split; [discriminate|]. intros (n' & o' & [E|Hin] & P').
        -- injection E as -> _. congruence.
        -- destruct IH as [_ IH]. assert (H : Some l = None) by (apply IH; eauto).
           discriminate H.
      * split; [|reflexivity]. intros _.
        destruct IH as [IH _]. destruct (IH eq_refl) as (n' & o' & Hin & P'). eauto 6.
    + split; [|reflexivity]. intros _. exists num, obj. auto.
Qed.

(** X23 ([process], with [int] in [_extract_entities]).  [process]
    raises exactly when the interpreter limits the digits that [int]
    reads and the cleaned prompt holds a number, followed by whitespace
    and a word, with more digits than the limit; in every other case,
    and always when the limit is off, it returns its dict. *)
Theorem process_raises_iff (max_str_digits : nat) (prompt : string) :
  process max_str_digits prompt = None <->
  0 < max_str_digits /\
  exists num obj,
    In (num, obj) (quantities_from 0 None (_clean_prompt prompt)) /\
    max_str_digits < String.length num.
Proof.
  unfold process.
  destruct (categorize_names (_clean_prompt prompt)) as (category & -> & _).
  unfold _extract_entities.
  destruct (quantity_pairs max_str_digits (quantities_from 0 None (_clean_prompt prompt)))
    as [pairs|] eqn:Q.
  - split; [discriminate|]. intros (Hpos & num & obj & Hin & Hl).
    assert (H : quantity_pairs max_str_digits
                  (quantities_from 0 None (_clean_prompt prompt)) = None).
    { apply quantity_pairs_None. exists num, obj. split; [exact Hin|].
      apply py_int_None. auto. }
    congruence.
  - split; [|reflexivity]. intros _.
    apply quantity_pairs_None in Q. destruct Q as (num & obj & Hin & P).
    apply py_int_None in P. destruct P as [Hpos Hl]. eauto.
Qed.

(** A number of 4301 digits before a word makes [process] raise under
    the default limit of 4300 digits; a short one does not. *)
Example process_long_number :
  process 4300 (String.concat "" (repeat "7" 4301) ++ " cubes") = None /\
  option_map complexity (process 4300 "Create 3 red cubes, 20 cm wide")
  = Some "simple".
Proof.
  split; [vm_cast_no_check (@eq_refl (option processed) None) | vm_compute; reflexivity].
Qed.

End Process.

End PromptProcessorSpec.

(** ** Cleaning of generated code *)

Module AIGeneratorSpec.
Import PyStr PyStrFacts AIGenerator.

Lemma part_In (parts : list string) (i : nat) :
  i < List.length parts -> In (part parts i) parts.
Proof. intros H. unfold part. now apply nth_In. Qed.

Lemma split_str_not_nil (sep s : string) : 0 < List.length (split_str sep s).
Proof.
  unfold split_str. destruct (split_str_from 0 sep s). cbn [List.length]. lia.
Qed.

(** The line filter and the final join add no fence. *)
Lemma cleaned_lines_fence_free (code : string) :
  contains FENCE code = false ->
  contains FENCE
    (join NL (filter (fun line => negb (skipped_line line)) (split nl code))) = false.
Proof.
  intros H.
  destruct (contains FENCE (join NL _)) eqn:E; [|reflexivity].
  apply contains_filter_lines in E; [congruence | reflexivity | discriminate].
Qed.

Lemma strip_fence_free (x : string) :
  contains FENCE x = false -> contains FENCE (strip x) = false.
Proof.
  intros H. destruct (contains FENCE (strip x)) eqn:E; [|reflexivity].
  apply contains_strip in E. congruence.
Qed.

(** X18: when the answer holds the fence that opens a Python block, or
    two fences or more, the cleaned code holds no fence. *)
Theorem clean_code_removes_fences (raw_code : string) :
  contains PYTHON_FENCE (strip raw_code) = true \/
  3 <= List.length (split_str FENCE (strip raw_code)) ->
  contains FENCE (_clean_code raw_code) = false.
Proof.
  intros H. unfold _clean_code. cbv zeta.
  apply cleaned_lines_fence_free.
  destruct (contains PYTHON_FENCE (strip raw_code)) eqn:P.
  - pose proof (split_str_two PYTHON_FENCE (strip raw_code) ltac:(discriminate) P) as L.
    assert (L' : (1 <? List.length (split_str PYTHON_FENCE (strip raw_code))) = true)
      by (apply Nat.ltb_lt; lia).
    rewrite L'. apply strip_fence_free.
    apply (split_str_fields_free FENCE (part (split_str PYTHON_FENCE (strip raw_code)) 1));
      [discriminate|].
    apply part_In, split_str_not_nil.
  - destruct H as [H | H]; [discriminate|].
    destruct (contains FENCE (strip raw_code)) eqn:F.
    + assert (L' : (3 <=? List.length (split_str FENCE (strip raw_code))) = true)
        by (now apply Nat.leb_le).
      rewrite L'. apply strip_fence_free.
      apply (split_str_fields_free FENCE (strip raw_code)); [discriminate|].
      apply part_In. lia.
    + exact F.
Qed.

(** The sample answer has both fences; an answer with one bare fence
    keeps it. *)
Lemma clean_code_removes_fences_witness :
  contains FENCE (_clean_code sample_answer) = false /\
  _clean_code "x = 1 ``` y" = "x = 1 ``` y".
Proof.
  split; [|vm_compute; reflexivity].
  apply (clean_code_removes_fences sample_answer). left. vm_compute. reflexivity.
Defined.

(** *** The block between the fences *)

Lemma part_0_split_str (sep s : string) :
  part (split_str sep s) 0 = fst (split_str_from 0 sep s).
Proof. unfold split_str. now destruct (split_str_from 0 sep s). Qed.

Lemma contains_python_fence (x : string) :
  contains PYTHON_FENCE x = true -> contains FENCE x = true.
Proof.
  intros H. apply contains_inv in H as (a & b & ->).
  change PYTHON_FENCE with (FENCE ++ "python"). rewrite append_assoc.
  apply contains_intro.
Qed.

(** In front of a text without backtick no fence starts. *)
Lemma no_fence_starts_in (sep' pre a1 a2 y : string) :
  free_of BACKTICK pre = true ->
  pre = a1 ++ a2 -> a2 <> "" ->
  startswith (a2 ++ y) (String BACKTICK sep') = false.
Proof.
  intros Hfree -> Hne. destruct a2 as [|c a2]; [congruence|].
  rewrite free_of_app in Hfree. apply andb_true_iff in Hfree as [_ Hfree].
  cbn [free_of] in Hfree. apply andb_true_iff in Hfree as [Hc _].
  apply negb_true_iff in Hc. cbn [append startswith].
  now rewrite Ascii.eqb_sym, Hc.
Qed.

(** The first field of what follows the closing fence, split at the
    opening fence: nothing, or a text that starts with the fence. *)
Lemma field_after_block (post : string) :
  free_of BACKTICK post = true ->
  fst (split_str_from 0 PYTHON_FENCE (FENCE ++ post)) = "" \/
  exists rest, fst (split_str_from 0 PYTHON_FENCE (FENCE ++ post)) = FENCE ++ rest.
Proof.
  intros Hfree.
  assert (Hpost : forall front tail,
             startswith (front ++ post) (front ++ String BACKTICK tail) = false).
  { intros front tail. rewrite startswith_app_both.
    destruct post as [|c post]; [reflexivity|].
    cbn [free_of] in Hfree. apply andb_true_iff in Hfree as [Hc _].
    apply negb_true_iff in Hc. cbn [startswith]. now rewrite Ascii.eqb_sym, Hc. }
  unfold FENCE. change ("```" ++ post) with (String BACKTICK ("``" ++ post)).
  cbn [split_str_from].
  destruct (startswith (String BACKTICK ("``" ++ post)) PYTHON_FENCE).
  - left. now destruct (split_str_from _ PYTHON_FENCE ("``" ++ post)).
  - right.
    assert (E2 : startswith (String BACKTICK ("`" ++ post)) PYTHON_FENCE = false)
      by exact (Hpost "``" "python").
    assert (E3 : startswith (String BACKTICK post) PYTHON_FENCE = false)
      by exact (Hpost "`" "`python").
    change ("``" ++ post) with (String BACKTICK ("`" ++ post)).
    cbn [split_str_from]. rewrite E2.
    change ("`" ++ post) with (String BACKTICK post). cbn [split_str_from]. rewrite E3.
    destruct (split_str_from 0 PYTHON_FENCE post) as [h t]. now exists h.
Qed.

(** The part that [_clean_code] picks from an answer with a Python
    block, when neither the text before it nor the text after it holds a
    backtick. *)
Lemma block_of_answer (pre a0 post : string) :
  free_of BACKTICK pre = true -> free_of BACKTICK post = true ->
  contains FENCE (a0 ++ NL) = false ->
  contains PYTHON_FENCE (pre ++ PYTHON_FENCE ++ (a0 ++ NL) ++ FENCE ++ post) = true /\
  (1 <? List.length
          (split_str PYTHON_FENCE (pre ++ PYTHON_FENCE ++ (a0 ++ NL) ++ FENCE ++ post))) = true /\
  part (split_str FENCE
          (part (split_str PYTHON_FENCE
                   (pre ++ PYTHON_FENCE ++ (a0 ++ NL) ++ FENCE ++ post)) 1)) 0
  = a0 ++ NL.
Proof.
  intros Hpre Hpost Hno.
  set (a := a0 ++ NL) in *.
  assert (Hc : contains PYTHON_FENCE (pre ++ PYTHON_FENCE ++ a ++ FENCE ++ post) = true)
    by apply contains_intro.
  split; [exact Hc|]. split.
  - apply Nat.ltb_lt. now apply split_str_two.
  - assert (Hparts : part (split_str PYTHON_FENCE (pre ++ PYTHON_FENCE ++ a ++ FENCE ++ post)) 1
                     = fst (split_str_from 0 PYTHON_FENCE (a ++ FENCE ++ post))).
    { unfold split_str at 1. rewrite split_str_from_peel.
      - rewrite split_str_at_sep by discriminate. cbn [fst snd].
        change (part (?x :: ?l) 1) with (part l 0). apply part_0_split_str.
      - intros a1 a2 E Hne. now apply (no_fence_starts_in "``python" pre a1 a2). }
    rewrite Hparts, part_0_split_str.
    assert (Hnop : contains PYTHON_FENCE a = false).
    { destruct (contains PYTHON_FENCE a) eqn:P; [|reflexivity].
      apply contains_python_fence in P. congruence. }
    rewrite split_str_from_peel.
    + cbn [fst].
      destruct (field_after_block post Hpost) as [-> | [rest ->]].
      * rewrite append_nil_r. pose proof (split_str_none FENCE a Hno) as N.
        unfold split_str in N. destruct (split_str_from 0 FENCE a). now injection N as ->.
      * rewrite split_str_from_peel.
        -- rewrite split_str_at_sep by discriminate. apply append_nil_r.
        -- intros a1 a2 E Hne. subst a.
           now apply (no_sep_starts FENCE a0 a1 a2 _ nl).
    + intros a1 a2 E Hne. subst a.
      now apply (no_sep_starts PYTHON_FENCE a0 a1 a2 _ nl).
Qed.

Lemma filter_all {A : Type} (keep : A -> bool) (l : list A) :
  (forall x, In x l -> keep x = true) -> filter keep l = l.
Proof.
  induction l as [|x l IH]; intros H; [reflexivity|].
  cbn [filter]. rewrite (H x (or_introl eq_refl)). f_equal.
  apply IH. intros y Hy. apply H. now right.
Qed.

Lemma free_of_lstrip (c : ascii) (s : string) :
  free_of c s = true -> free_of c (lstrip s) = true.
Proof.
  intros H. destruct (lstrip_suffix s) as [w E]. rewrite E, free_of_app in H.
  now apply andb_true_iff in H as [_ H].
Qed.

Lemma free_of_rstrip (c : ascii) (s : string) :
  free_of c s = true -> free_of c (rstrip s) = true.
Proof.
  intros H. destruct (rstrip_prefix s) as [w E]. rewrite E, free_of_app in H.
  now apply andb_true_iff in H as [H _].
Qed.

(** A block between two line feeds holds no fence when its text holds
    none. *)
Lemma framed_body_fence_free (body : string) :
  contains FENCE body = false -> contains FENCE ((NL ++ body) ++ NL) = false.
Proof.
  intros H. destruct (contains FENCE ((NL ++ body) ++ NL)) eqn:E; [|reflexivity].
  apply (contains_lines nl) in E as (line & Hin & Hc); [|reflexivity].
  rewrite append_assoc in Hin. unfold NL in Hin.
  change (String nl "" ++ body ++ String nl "")
    with ("" ++ String nl "" ++ body ++ String nl "") in Hin.
  rewrite split_app_sep in Hin.
  rewrite <- (append_nil_r (body ++ String nl "")), append_assoc, split_app_sep in Hin.
  cbn [split_nil app] in Hin. rewrite split_nil in Hin. cbn [app In] in Hin.
  destruct Hin as [<- | Hin]; [discriminate Hc|].
  apply in_app_or in Hin as [Hin | [<- | []]]; [|discriminate Hc].
  now rewrite (contains_of_line nl FENCE body line Hin Hc) in H.
Qed.

Lemma strip_framed_body (body : string) :
  lstrip body = body -> rstrip body = body -> strip ((NL ++ body) ++ NL) = body.
Proof.
  intros Hl Hr. unfold strip. rewrite append_assoc.
  change (lstrip (NL ++ body ++ NL)) with (lstrip (body ++ NL)).
  destruct (lstrip_fixed body Hl) as [-> | (c & b & -> & Hc)]; [reflexivity|].
  unfold NL. cbn [append].
  change (String c (b ++ String nl "")) with ("" ++ String c (b ++ String nl "")).
  rewrite lstrip_app by exact Hc. cbn [lstrip append].
  change (String c (b ++ String nl "")) with (String c b ++ String nl "").
  now rewrite rstrip_space.
Qed.

(** X19: from an answer that holds a Python block between a text and a
    text without backticks, [_clean_code] returns the text of the block:
    the block holds no fence, has no space at its ends and no comment
    line that the line filter skips. *)
Theorem clean_code_extracts_block (pre body post : string) :
  free_of BACKTICK pre = true -> free_of BACKTICK post = true ->
  contains FENCE body = false ->
  lstrip body = body -> rstrip body = body ->
  (forall line, In line (split nl body) -> skipped_line line = false) ->
  _clean_code (pre ++ PYTHON_FENCE ++ NL ++ body ++ NL ++ FENCE ++ post) = body.
Proof.
  intros Hpre Hpost Hbody Hl Hr Hlines.
  assert (Hstrip : strip (pre ++ PYTHON_FENCE ++ NL ++ body ++ NL ++ FENCE ++ post)
                   = lstrip pre ++ PYTHON_FENCE ++ ((NL ++ body) ++ NL) ++ FENCE ++ rstrip post).
  { unfold strip.
    change (PYTHON_FENCE ++ NL ++ body ++ NL ++ FENCE ++ post)
      with (String BACKTICK ("``python" ++ NL ++ body ++ NL ++ FENCE ++ post)).
    rewrite lstrip_app by reflexivity.
    change (String BACKTICK ("``python" ++ NL ++ body ++ NL ++ FENCE ++ post))
      with (PYTHON_FENCE ++ NL ++ body ++ NL ++ FENCE ++ post).
    assert (E : lstrip pre ++ PYTHON_FENCE ++ NL ++ body ++ NL ++ FENCE ++ post
                = (lstrip pre ++ PYTHON_FENCE ++ NL ++ body ++ NL ++ "``")
                    ++ String BACKTICK post)
      by (rewrite !append_assoc; reflexivity).
    rewrite E, rstrip_app by reflexivity. rewrite !append_assoc. reflexivity. }
  pose proof (block_of_answer (lstrip pre) (NL ++ body) (rstrip post)
                (free_of_lstrip _ _ Hpre) (free_of_rstrip _ _ Hpost)
                (framed_body_fence_free body Hbody)) as (Hc & Hlen & Hpart).
  unfold _clean_code. cbv zeta. rewrite Hstrip, Hc, Hlen, Hpart.
  rewrite (strip_framed_body body Hl Hr), filter_all.
  - apply join_split.
  - intros line Hin. now rewrite (Hlines line Hin).
Qed.

Lemma clean_code_extracts_block_witness :
  _clean_code sample_answer =
  "import bpy" ++ NL ++ "bpy.ops.mesh.primitive_cube_add(size=2)".
Proof.
  apply (clean_code_extracts_block
           ("Sure, the script follows." ++ NL)
           ("import bpy" ++ NL ++ "bpy.ops.mesh.primitive_cube_add(size=2)")
           (NL ++ "Run it in the scripting tab."));
    try (vm_compute; reflexivity).
  intros line Hin. vm_compute in Hin.
  repeat (destruct Hin as [<- | Hin]; [vm_compute; reflexivity|]). destruct Hin.
Defined.

End AIGeneratorSpec.

(** ** Export formats *)

Module BlenderExecutorSpec.
Import PyStr PyStrFacts PromptProcessor Config BlenderExecutor.

(** A configuration that [validate] accepts has none of the problems
    it looks for. *)
Lemma validate_true (path_exists : string -> bool) (cls : settings) :
  validate path_exists cls = ReturnedTrue ->
  name_in (AI_PROVIDER cls) ["claude"; "openai"; "local"] = true /\
  name_in (DEFAULT_MODE cls) ["background"; "gui"] = true /\
  name_in (EXPORT_FORMAT cls) valid_formats = true /\
  name_in (RENDER_ENGINE cls) ["CYCLES"; "EEVEE"] = true.
Proof.
  unfold validate. destruct (validation_errors path_exists cls) as [|e es] eqn:E;
    [intros _ | discriminate].
  revert E. unfold validation_errors. cbv zeta.
  destruct (name_in (AI_PROVIDER cls) ["claude"; "openai"; "local"]);
    destruct (name_in (DEFAULT_MODE cls) ["background"; "gui"]);
    destruct (name_in (EXPORT_FORMAT cls) valid_formats);
    destruct (name_in (RENDER_ENGINE cls) ["CYCLES"; "EEVEE"]);
    try (intros _; repeat split; reflexivity);
    cbn [negb];
    repeat match goal with
           | |- context [if ?b && ?c then _ else _] => destruct (b && c)
           end;
    cbn [app]; intros E; discriminate E.
Qed.

Lemma name_in_valid_formats (format : string) :
  name_in format valid_formats = true <-> In format valid_formats.
Proof.
  unfold name_in. rewrite existsb_exists. split.
  - intros (x & Hin & E). apply String.eqb_eq in E. now subst x.
  - intros H. exists format. split; [exact H | apply String.eqb_refl].
Qed.

(** X16: [_create_export_script] raises [ValueError] exactly for a
    format that, in lower case, is none of obj, fbx, gltf, stl and ply;
    it never raises for the export format of a configuration that
    [Config.validate] accepts. *)
Theorem export_script_formats (original_code export_path : string) :
  (forall export_format,
      _create_export_script original_code export_path export_format = None <->
      ~ In (lower export_format) valid_formats) /\
  (forall path_exists cls,
      validate path_exists cls = ReturnedTrue ->
      _create_export_script original_code export_path (EXPORT_FORMAT cls) <> None).
Proof.
  assert (Hall : forall export_format,
             _create_export_script original_code export_path export_format = None <->
             ~ In (lower export_format) valid_formats).
  { intros export_format. unfold _create_export_script, dict_lookup, export_ops.
    cbn [List.find fst]. unfold valid_formats.
    destruct (String.eqb_spec "obj" (lower export_format)) as [<- | H1];
      [cbn; split; [discriminate | intros H; exfalso; apply H; tauto]|].
    destruct (String.eqb_spec "fbx" (lower export_format)) as [<- | H2];
      [cbn; split; [discriminate | intros H; exfalso; apply H; tauto]|].
    destruct (String.eqb_spec "gltf" (lower export_format)) as [<- | H3];
      [cbn; split; [discriminate | intros H; exfalso; apply H; tauto]|].
    destruct (String.eqb_spec "stl" (lower export_format)) as [<- | H4];
      [cbn; split; [discriminate | intros H; exfalso; apply H; tauto]|].
    destruct (String.eqb_spec "ply" (lower export_format)) as [<- | H5];
      [cbn; split; [discriminate | intros H; exfalso; apply H; tauto]|].
    cbn [option_map In]. split; [intros _; tauto | reflexivity]. }
  split; [exact Hall|].
  intros path_exists cls Hv H. apply Hall in H. apply H.
  apply validate_true in Hv as (_ & _ & Hf & _). apply name_in_valid_formats in Hf.
  unfold valid_formats in *. cbn [In] in Hf.
  repeat (destruct Hf as [<- | Hf]; [cbn; tauto|]). destruct Hf.
Qed.

(** X17: [Config.validate] accepts the export format ply, but for it
    the combined script holds the statement [None] where the export call
    belongs; for the other formats that [validate] accepts the
    statement is the export call of [_create_export_script]. *)
Theorem combined_script_export_statement
  (path_exists : string -> bool) (cls : settings)
  (original_code export_path : string) (render_path blend_path : option string) :
  validate path_exists cls = ReturnedTrue ->
  (export_statement export_path (EXPORT_FORMAT cls) = "None" <->
   EXPORT_FORMAT cls = "ply") /\
  (EXPORT_FORMAT cls <> "ply" ->
   dict_lookup (export_ops export_path) (EXPORT_FORMAT cls) =
   Some (export_statement export_path (EXPORT_FORMAT cls))) /\
  contains (NL ++ "# Export" ++ NL ++
            export_statement export_path (EXPORT_FORMAT cls) ++ NL)
    (_create_combined_script cls original_code render_path (Some export_path) blend_path)
  = true.
Proof.
  intros Hv. apply validate_true in Hv as (_ & _ & Hf & _).
  apply name_in_valid_formats in Hf. split; [|split].
  - unfold valid_formats in Hf. cbn [In] in Hf.
    repeat (destruct Hf as [<- | Hf];
            [cbn; split; intros H; first [reflexivity | discriminate H]|]).
    destruct Hf.
  - intros Hne. unfold valid_formats in Hf. cbn [In] in Hf.
    repeat (destruct Hf as [Hf | Hf];
            [first [now rewrite <- Hf | now symmetry in Hf]|]).
    destruct Hf.
  - unfold _create_combined_script. cbv zeta.
    set (statement := export_statement export_path (EXPORT_FORMAT cls)).
    apply contains_app_r, contains_app_r.
    assert (Hblock : forall before rest,
               contains (NL ++ "# Export" ++ NL ++ statement ++ NL)
                 (before ++ NL ++ "# Export" ++ NL ++ statement ++ NL ++ rest) = true).
    { intros before rest. apply contains_app_r, contains_prefix.
      change (NL ++ "# Export" ++ NL ++ statement ++ NL ++ rest)
        with ((NL ++ "# Export" ++ NL) ++ statement ++ NL ++ rest).
      change (NL ++ "# Export" ++ NL ++ statement ++ NL)
        with ((NL ++ "# Export" ++ NL) ++ statement ++ NL).
      rewrite !startswith_app_both. apply (startswith_app NL rest). }
    destruct blend_path; [apply contains_app_l|]; destruct render_path; apply Hblock.
Qed.

Lemma combined_script_export_statement_witness :
  (export_statement "/models/m.ply" (EXPORT_FORMAT ply_settings) = "None" <->
   EXPORT_FORMAT ply_settings = "ply") /\
  (EXPORT_FORMAT ply_settings <> "ply" ->
   dict_lookup (export_ops "/models/m.ply") (EXPORT_FORMAT ply_settings) =
   Some (export_statement "/models/m.ply" (EXPORT_FORMAT ply_settings))) /\
  contains (NL ++ "# Export" ++ NL ++
            export_statement "/models/m.ply" (EXPORT_FORMAT ply_settings) ++ NL)
    (_create_combined_script ply_settings "import bpy" None (Some "/models/m.ply") None)
  = true.
Proof.
  apply (combined_script_export_statement (fun _ => true) ply_settings).
  vm_compute. reflexivity.
Defined.

End BlenderExecutorSpec.

(** ** The retry loop *)

Module MainSpec.
Import PyStr CodeValidator CodeValidatorSpec Main.

Section Loop.

Variable ast_parse : string -> parse_outcome.
Variable generate_code : nat -> generation.
Variable max_retries : Z.

(** With validation on, attempts that are rejected before the last one
    leave the loop running. *)
Lemma retry_loop_rejected (n remaining attempt : nat) (code : option string) (is_valid : bool) :
  (Z.of_nat (attempt + n) < max_retries)%Z ->
  n <= remaining ->
  (forall j, attempt < j <= attempt + n -> attempt_rejected ast_parse (generate_code j)) ->
  exists code' is_valid',
    retry_loop ast_parse generate_code true max_retries remaining attempt code is_valid =
    retry_loop ast_parse generate_code true max_retries (remaining - n) (attempt + n) code' is_valid'.
Proof.
  revert remaining attempt code is_valid.
  induction n as [|n IH]; intros remaining attempt code is_valid Hlt Hle Hrej.
  - exists code, is_valid. now rewrite Nat.sub_0_r, Nat.add_0_r.
  - destruct remaining as [|remaining]; [lia|].
    cbn [retry_loop]. cbv zeta.
    pose proof (Hrej (attempt + 1) ltac:(lia)) as Hfirst.
    assert (Hnext : forall c v, exists code' is_valid',
               retry_loop ast_parse generate_code true max_retries remaining (attempt + 1) c v =
               retry_loop ast_parse generate_code true max_retries
                 (S remaining - S n) (attempt + S n) code' is_valid').
    { intros c v. destruct (IH remaining (attempt + 1) c v) as (c' & v' & E).
      - replace (attempt + 1 + n) with (attempt + S n) by lia. exact Hlt.
      - lia.
      - intros j Hj. apply Hrej. lia.
      - exists c', v'. rewrite E. f_equal; lia. }
    destruct (generate_code (attempt + 1)) as [generated|error].
    + cbn [attempt_rejected] in Hfirst.
      assert (E1 : negb (List.length (errors_of (validate ast_parse generated)) =? 0) = true).
      { destruct (errors_of (validate ast_parse generated)); [congruence | reflexivity]. }
      assert (E2 : (Z.of_nat (attempt + 1) <? max_retries)%Z = true)
        by (apply Z.ltb_lt; lia).
      rewrite E1, E2. cbn [andb]. apply Hnext.
    + assert (E2 : (max_retries <=? Z.of_nat (attempt + 1))%Z = false)
        by (apply Z.leb_gt; lia).
      rewrite E2. apply Hnext.
Qed.

(** How the loop can be left with a code, with validation on. *)
Lemma retry_loop_left (remaining attempt : nat) (code : option string) (is_valid : bool)
  (c : string) (v : bool) :
  attempt + remaining = Z.to_nat max_retries ->
  retry_loop ast_parse generate_code true max_retries remaining attempt code is_valid =
    LoopLeft (Some c) v ->
  is_valid_of (validate ast_parse c) = true \/
  (remaining = 0 /\ code = Some c) \/
  (0 < remaining /\ generate_code (Z.to_nat max_retries) = Generated c).
Proof.
  revert attempt code is_valid.
  induction remaining as [|remaining IH]; intros attempt code is_valid Hsum Hloop.
  - cbn [retry_loop] in Hloop. injection Hloop as -> _. right. left. now split.
  - cbn [retry_loop] in Hloop. cbv zeta in Hloop.
    assert (Hlast : remaining = 0 -> attempt + 1 = Z.to_nat max_retries) by lia.
    destruct (generate_code (attempt + 1)) as [generated|error] eqn:G.
    + destruct (negb (List.length (errors_of (validate ast_parse generated)) =? 0) &&
                (Z.of_nat (attempt + 1) <? max_retries)%Z) eqn:C.
      * apply andb_true_iff in C as [_ C]. apply Z.ltb_lt in C.
        apply IH in Hloop; [|lia].
        destruct Hloop as [H | [[H _] | [H1 H2]]]; [now left | lia | right; right; split; [lia | exact H2]].
      * destruct (is_valid_of (validate ast_parse generated)) eqn:V.
        -- injection Hloop as -> _. now left.
        -- apply IH in Hloop; [|lia].
           destruct Hloop as [H | [[H1 H2] | [H1 H2]]]; [now left | | right; right; split; [lia | exact H2]].
           injection H2 as ->. right. right. split; [lia|]. now rewrite <- (Hlast H1).
    + destruct (max_retries <=? Z.of_nat (attempt + 1))%Z eqn:C; [discriminate|].
      apply Z.leb_gt in C. apply IH in Hloop; [|lia].
      destruct Hloop as [H | [[H _] | [H1 H2]]]; [now left | lia | right; right; split; [lia | exact H2]].
Qed.

(** The handler of the loop returns only in the last attempt. *)
Lemma retry_loop_returned (remaining attempt : nat) (code : option string) (is_valid v : bool)
  (error : string) :
  attempt + remaining = Z.to_nat max_retries ->
  retry_loop ast_parse generate_code v max_retries remaining attempt code is_valid =
    ReturnedError error ->
  0 < remaining /\ generate_code (Z.to_nat max_retries) = GenerationRaised error.
Proof.
  revert attempt code is_valid.
  induction remaining as [|remaining IH]; intros attempt code is_valid Hsum Hloop;
    [discriminate|].
  cbn [retry_loop] in Hloop. cbv zeta in Hloop.
  assert (Hrec : forall c b,
             retry_loop ast_parse generate_code v max_retries remaining (attempt + 1) c b =
               ReturnedError error ->
             0 < S remaining /\ generate_code (Z.to_nat max_retries) = GenerationRaised error).
  { intros c b H. apply IH in H; [|lia]. split; [lia | apply H]. }
  destruct (generate_code (attempt + 1)) as [generated|e] eqn:G.
  - destruct v; [|discriminate].
    destruct (negb (List.length (errors_of (validate ast_parse generated)) =? 0) &&
              (Z.of_nat (attempt + 1) <? max_retries)%Z); [now apply Hrec in Hloop|].
    destruct (is_valid_of (validate ast_parse generated)); [discriminate | now apply Hrec in Hloop].
  - destruct (max_retries <=? Z.of_nat (attempt + 1))%Z eqn:C; [|now apply Hrec in Hloop].
    injection Hloop as ->. apply Z.leb_le in C. split; [lia|].
    replace (Z.to_nat max_retries) with (attempt + 1) by lia. exact G.
Qed.

End Loop.

(** The attempt whose code the loop keeps: the first one that is not
    rejected, or the last one. *)
Lemma attempt_taken
  (ast_parse : string -> parse_outcome) (generate_code : nat -> generation)
  (max_retries : Z) (k : nat) (code : string) :
  1 <= k -> (Z.of_nat k <= max_retries)%Z ->
  (forall j, 1 <= j < k -> attempt_rejected ast_parse (generate_code j)) ->
  generate_code k = Generated code ->
  errors_of (validate ast_parse code) = [] \/ Z.of_nat k = max_retries ->
  code <> "" ->
  generation_phase ast_parse generate_code true max_retries = GoOn code.
Proof.
  intros Hk Hmax Hrej Hgen Hlast Hne. unfold generation_phase.
  destruct (retry_loop_rejected ast_parse generate_code max_retries
              (k - 1) (Z.to_nat max_retries) 0 None false) as (c' & v' & E).
  - lia.
  - lia.
  - intros j Hj. apply Hrej. lia.
  - rewrite E. clear E.
    destruct (Z.to_nat max_retries - (k - 1)) as [|remaining] eqn:R; [lia|].
    cbn [retry_loop]. cbv zeta.
    replace (0 + (k - 1) + 1) with k by lia. rewrite Hgen.
    assert (Hout : forall o, (if String.eqb code "" then Failure "Failed to generate code"
                              else o) = o).
    { intros o. destruct (String.eqb_spec code ""); [contradiction | reflexivity]. }
    destruct (errors_of (validate ast_parse code)) as [|e es] eqn:Errs.
    + cbn [List.length Nat.eqb negb andb].
      rewrite (proj2 (valid_when_no_errors ast_parse code) Errs). apply Hout.
    + destruct Hlast as [Hlast | Hlast]; [discriminate|].
      assert (C : (Z.of_nat k <? max_retries)%Z = false) by (apply Z.ltb_ge; lia).
      rewrite C, andb_false_r.
      assert (V : is_valid_of (validate ast_parse code) = false).
      { destruct (is_valid_of (validate ast_parse code)) eqn:V; [|reflexivity].
        apply valid_when_no_errors in V. congruence. }
      rewrite V. assert (remaining = 0) by lia. subst remaining.
      cbn [retry_loop]. apply Hout.
Qed.

(** X6: with validation on, the loop stops at the first attempt whose
    code has no errors, and [run] goes on with that code: attempts that
    raise, or whose code has errors, are retried. *)
Theorem first_accepted_code_goes_on
  (ast_parse : string -> parse_outcome) (generate_code : nat -> generation)
  (max_retries : Z) (k : nat) (code : string) :
  1 <= k -> (Z.of_nat k <= max_retries)%Z ->
  (forall j, 1 <= j < k -> attempt_rejected ast_parse (generate_code j)) ->
  generate_code k = Generated code ->
  errors_of (validate ast_parse code) = [] ->
  code <> "" ->
  generation_phase ast_parse generate_code true max_retries = GoOn code.
Proof.
  intros Hk Hmax Hrej Hgen Herr Hne.
  apply attempt_taken with k; try assumption. now left.
Qed.

Lemma first_accepted_code_goes_on_witness :
  generation_phase sample_parse_cube cube_at_third true 5 = GoOn text_cube.
Proof.
  apply (first_accepted_code_goes_on sample_parse_cube cube_at_third 5 3 text_cube).
  - lia.
  - lia.
  - intros j Hj. assert (Hc : j = 1 \/ j = 2) by lia.
    destruct Hc as [-> | ->]; [exact I | vm_compute; discriminate].
  - reflexivity.
  - vm_compute. reflexivity.
  - vm_compute. discriminate.
Defined.

(** X7: when every attempt before the last is rejected, [run] goes on to
    save and execute the code of the last attempt, whether or not the
    validator found errors in it. *)
Theorem last_code_goes_on_unchecked
  (ast_parse : string -> parse_outcome) (generate_code : nat -> generation)
  (max_retries : Z) (code : string) :
  (1 <= max_retries)%Z ->
  (forall j, 1 <= j < Z.to_nat max_retries ->
             attempt_rejected ast_parse (generate_code j)) ->
  generate_code (Z.to_nat max_retries) = Generated code ->
  code <> "" ->
  generation_phase ast_parse generate_code true max_retries = GoOn code.
Proof.
  intros Hmax Hrej Hgen Hne.
  apply attempt_taken with (Z.to_nat max_retries); try assumption; lia.
Qed.

(** Three attempts that all return the shell call: the validator rejects
    it each time, and [run] goes on with it. *)
Lemma last_code_goes_on_unchecked_witness :
  is_valid_of (validate sample_parse text_shell_call) = false /\
  generation_phase sample_parse always_shell_call true 3 = GoOn text_shell_call.
Proof.
  split; [vm_compute; reflexivity|].
  apply (last_code_goes_on_unchecked sample_parse always_shell_call 3 text_shell_call).
  - lia.
  - intros j _. vm_compute. discriminate.
  - reflexivity.
  - vm_compute. discriminate.
Defined.

(** X8: with validation on, a code that [run] goes on with either was
    accepted by the validator or is the code of the last attempt. *)
Theorem rejected_code_is_from_last_attempt
  (ast_parse : string -> parse_outcome) (generate_code : nat -> generation)
  (max_retries : Z) (code : string) :
  generation_phase ast_parse generate_code true max_retries = GoOn code ->
  is_valid_of (validate ast_parse code) = true \/
  generate_code (Z.to_nat max_retries) = Generated code.
Proof.
  unfold generation_phase. intros H.
  destruct (retry_loop ast_parse generate_code true max_retries (Z.to_nat max_retries) 0 None false)
    as [error | [c|] v] eqn:L; try discriminate.
  destruct (String.eqb c ""); [discriminate|]. injection H as ->.
  apply retry_loop_left in L; [|lia].
  destruct L as [L | [[_ L] | [_ L]]]; [now left | discriminate | now right].
Qed.

Lemma rejected_code_is_from_last_attempt_witness :
  is_valid_of (validate sample_parse_cube text_cube) = true \/
  cube_at_third (Z.to_nat 5) = Generated text_cube.
Proof.
  apply (rejected_code_is_from_last_attempt sample_parse_cube cube_at_third 5 text_cube).
  vm_compute. reflexivity.
Defined.

(** X9: when the generation phase fails, the error is the text of the
    exception raised in the last attempt, or "Failed to generate code";
    exceptions of earlier attempts are never reported. *)
Theorem failure_is_from_last_attempt
  (ast_parse : string -> parse_outcome) (generate_code : nat -> generation)
  (validate_code : bool) (max_retries : Z) (error : string) :
  generation_phase ast_parse generate_code validate_code max_retries = Failure error ->
  error = "Failed to generate code" \/
  generate_code (Z.to_nat max_retries) = GenerationRaised error.
Proof.
  unfold generation_phase. intros H.
  destruct (retry_loop ast_parse generate_code validate_code max_retries
              (Z.to_nat max_retries) 0 None false) as [e | [c|] v] eqn:L.
  - injection H as ->. right. apply retry_loop_returned in L; [apply L | lia].
  - destruct (String.eqb c ""); [|discriminate]. injection H as <-. now left.
  - injection H as <-. now left.
Qed.

Lemma failure_is_from_last_attempt_witness :
  "attempt 3 timed out" = "Failed to generate code" \/
  always_raises (Z.to_nat 3) = GenerationRaised "attempt 3 timed out".
Proof.
  apply (failure_is_from_last_attempt sample_parse always_raises true 3).
  vm_compute. reflexivity.
Defined.

(** X10: a [max_retries] of zero passed to [run] is replaced by the
    configured number; and with no positive number of retries the
    generator is never called and [run] fails with "Failed to generate
    code". *)
Theorem no_retries_no_generation
  (ast_parse : string -> parse_outcome) (generate_code : nat -> generation)
  (validate : option bool) (VALIDATE_CODE : bool) (MAX_RETRIES : Z) :
  run_generation ast_parse generate_code validate (Some 0%Z) VALIDATE_CODE MAX_RETRIES =
  run_generation ast_parse generate_code validate None VALIDATE_CODE MAX_RETRIES /\
  forall max_retries,
    (or_default max_retries MAX_RETRIES <= 0)%Z ->
    run_generation ast_parse generate_code validate max_retries VALIDATE_CODE MAX_RETRIES =
    Failure "Failed to generate code".
Proof.
  split; [reflexivity|]. intros max_retries H. unfold run_generation, generation_phase.
  replace (Z.to_nat (or_default max_retries MAX_RETRIES)) with 0 by lia. reflexivity.
Qed.

End MainSpec.
